(** * The NER input pipeline and training loop of cs230-code-examples

    A shallow embedding of [input_data.py] (the [tf.data] input pipeline) and
    [train.py] (the epoch loop with its two checkpoint savers), and the
    properties of the specification proved or refuted on it.

    The two Python files drive TensorFlow 1.x.  The library operations they
    call ([tf.string_split], [index_table_from_file], [Dataset.zip],
    [padded_batch], [shuffle], [prefetch], initializable iterators,
    [tf.train.Saver]) are embedded first, each with the behaviour the
    TensorFlow documentation gives it; the functions of the two source files
    are then translated line by line on top of them. *)

From Stdlib Require Import ZArith String Ascii.
From Stdlib Require Import Floats.
From stdpp Require Import base decidable option list numbers strings gmap.

Set Default Proof Using "Type".
Set Warnings "-inexact-float".
Local Open Scope Z_scope.

(** ** Errors

    Python exceptions abort the run.  A computation that may raise returns
    a [result]. *)

Inductive error : Type :=
  | OutOfRangeError          (* an iterator was asked for a batch it does not have *)
  | FailedPreconditionError  (* uninitialised iterator, duplicate vocabulary key *)
  | InvalidArgumentError     (* batch size that is not positive, empty vocabulary line *)
  | ZeroDivisionError        (* [//] or [%] by zero *)
  | KeyError                 (* a dictionary without the key asked for *)
  | ValueError.              (* restore from a directory without checkpoint *)

Inductive result (A : Type) : Type :=
  | Ok (a : A)
  | Raise (e : error).
Arguments Ok {A} a.
Arguments Raise {A} e.

#[global] Instance result_ret : MRet result := λ A a, Ok a.
#[global] Instance result_bind : MBind result := λ A B f m,
  match m with
  | Ok a => f a
  | Raise e => Raise e
  end.

(** ** Tokenizer: [tf.string_split([string]).values]

    With its default arguments [tf.string_split] cuts at the delimiter [" "]
    and skips empty tokens. *)

Fixpoint string_split_go (tok : string) (s : string) : list string :=
  match s with
  | EmptyString => if decide (tok = EmptyString) then [] else [tok]
  | String c s' =>
      if Ascii.eqb c " "%char
      then (if decide (tok = EmptyString) then string_split_go EmptyString s'
            else tok :: string_split_go EmptyString s')
      else string_split_go (tok +:+ String c EmptyString) s'
  end.

Definition string_split (s : string) : list string :=
  string_split_go EmptyString s.

(** ** Vocabulary: [tf.contrib.lookup.index_table_from_file]

    The vocabulary file holds one token per line; a token's id is its line
    number.  Initialising the table reads the file line by line and stops
    at the first line it cannot take: an empty line (InvalidArgumentError)
    or a key that an earlier line holds already (FailedPreconditionError).
    A key that is not in the file goes to bucket [size + hash key mod
    num_oov_buckets] when there are out-of-vocabulary buckets, and to
    [default_value] (-1) when there are none. *)

Record Table : Type := {
  vocab : gmap string Z;
  num_oov_buckets : Z;
  default_value : Z;
  hasher : string → N
}.

Definition table_size (tb : Table) : Z :=
  Z.of_nat (size (vocab tb)) + num_oov_buckets tb.

Definition lookup_table (tb : Table) (key : string) : Z :=
  match vocab tb !! key with
  | Some id => id
  | None =>
      if 0 <? num_oov_buckets tb
      then Z.of_nat (size (vocab tb)) + Z.of_N (hasher tb key) mod num_oov_buckets tb
      else default_value tb
  end.

Definition enumerate_lines (lines : list string) : list (string * Z) :=
  zip lines (Z.of_nat <$> seq 0 (length lines)).

(** The lines are read in order; [seen] holds the keys read so far. *)
Fixpoint read_lines (seen : list string) (lines : list string) : result unit :=
  match lines with
  | [] => Ok ()
  | key :: lines' =>
      if decide (key = EmptyString) then Raise InvalidArgumentError
      else if decide (key ∈ seen) then Raise FailedPreconditionError
      else read_lines (key :: seen) lines'
  end.

Definition index_table_from_file
    (fast_hash : string → N) (lines : list string) (oov : nat) : result Table :=
  _ ← read_lines [] lines;
  Ok {| vocab := list_to_map (enumerate_lines lines);
        num_oov_buckets := Z.of_nat oov;
        default_value := -1;
        hasher := fast_hash |}.

(** ** Datasets: [tf.data]

    A dataset denotes the finite sequence of its elements;
    [tf.data.TextLineDataset] is the list of the lines of its file. *)

Definition Dataset (A : Type) : Type := list A.

Definition dataset_map {A B} (f : A → B) (ds : Dataset A) : Dataset B := f <$> ds.

(** [tf.data.Dataset.zip] stops with the shorter of its two inputs. *)
Definition dataset_zip {A B} (d1 : Dataset A) (d2 : Dataset B) : Dataset (A * B) :=
  zip d1 d2.

Section Batching.
Context {A : Type}.

(** Consecutive windows of [n] elements; the last one holds what is left
    (the default [drop_remainder=False]).  Each window takes at least one
    element when [0 < n], so [length ds] rounds of fuel are enough. *)
Fixpoint windows (fuel n : nat) (ds : list A) : list (list A) :=
  match fuel with
  | O => []
  | S fuel' =>
      match ds with
      | [] => []
      | _ :: _ => take n ds :: windows fuel' n (drop n ds)
      end
  end.

(** A batch size that is not positive is refused.  TensorFlow refuses it
    when the iterator over the batched dataset is initialised; here the
    refusal comes with the dataset, so that a pipeline that exists is one
    that initialises. *)
Definition batch (batch_size : Z) (ds : Dataset A) : result (Dataset (list A)) :=
  if batch_size <=? 0 then Raise InvalidArgumentError
  else Ok (windows (length ds) (Z.to_nat batch_size) ds).
End Batching.

Section Padding.
Context {A : Type}.

(** Padded shape [[None]]: every row of a window is padded on the right
    up to the longest row of that window. *)
Definition pad_to (L : nat) (pad : A) (row : list A) : list A :=
  row ++ replicate (L - length row) pad.

Definition pad_rows (pad : A) (rows : list (list A)) : list (list A) :=
  pad_to (max_list (length <$> rows)) pad <$> rows.

Definition padded_batch (batch_size : Z) (padding_value : A)
    (ds : Dataset (list A)) : result (Dataset (list (list A))) :=
  ws ← batch batch_size ds;
  Ok (pad_rows padding_value <$> ws).
End Padding.

(** On a zipped dataset each component is padded on its own, with its own
    padding value, over the same window. *)
Definition padded_batch_zip {A B} (batch_size : Z) (padding_values : A * B)
    (ds : Dataset (list A * list B)) : result (Dataset (list (list A) * list (list B))) :=
  ws ← batch batch_size ds;
  Ok ((λ w, (pad_rows padding_values.1 (w.*1), pad_rows padding_values.2 (w.*2))) <$> ws).

(** [shuffle] and [prefetch] do not change the elements, only the order in
    which an iterator hands them out, so the pipeline keeps the batched
    sequence and the size of the shuffle buffer.  [prefetch] prepares
    elements ahead of the consumer and keeps their order. *)
Record Pipeline (B : Type) : Type := {
  pl_input : Dataset B;
  pl_buffer_size : nat
}.
Arguments pl_input {B} _.
Arguments pl_buffer_size {B} _.

Definition shuffle {B} (buffer_size : nat) (ds : Dataset B) : Pipeline B :=
  {| pl_input := ds; pl_buffer_size := buffer_size |}.

Definition prefetch {B} (n : nat) (p : Pipeline B) : Pipeline B := p.

(** ** Initializable iterators

    The state of a running iterator over a shuffled pipeline: the elements
    not yet pulled from upstream and the shuffle buffer.  The random source of the shuffle is the
    stream [it_draws], of which [it_drawn] numbers have been used. *)
Record IterState (B : Type) : Type := {
  upstream : list B;
  buffer : list B
}.
Arguments upstream {B} _.
Arguments buffer {B} _.

Record Iterator (B : Type) : Type := {
  it_pipeline : Pipeline B;
  it_draws : nat → nat;
  it_drawn : nat;
  it_state : option (IterState B)   (* [None]: not initialised *)
}.
Arguments it_pipeline {B} _.
Arguments it_draws {B} _.
Arguments it_drawn {B} _.
Arguments it_state {B} _.

Section Iterators.
Context {B : Type}.

Definition make_initializable_iterator (draws : nat → nat) (p : Pipeline B) : Iterator B :=
  {| it_pipeline := p; it_draws := draws; it_drawn := 0%nat; it_state := None |}.

(** Running [iterator.initializer] drops whatever state the iterator had
    and starts again at the first element of the pipeline's input. *)
Definition initializer (it : Iterator B) : Iterator B :=
  {| it_pipeline := it_pipeline it;
     it_draws := it_draws it;
     it_drawn := it_drawn it;
     it_state := Some {| upstream := pl_input (it_pipeline it); buffer := [] |} |}.

(** The shuffle buffer is topped up from upstream to [n] elements. *)
Definition fill (n : nat) (buf up : list B) : list B * list B :=
  (buf ++ take (n - length buf) up, drop (n - length buf) up).

(** [iterator.get_next()]: top up the buffer, pick the slot
    [draw mod (number of buffered elements)], hand out its element and move
    the front element into the freed slot. *)
Definition get_next (it : Iterator B) : result (B * Iterator B) :=
  match it_state it with
  | None => Raise FailedPreconditionError
  | Some st =>
      let '(buf, up) := fill (pl_buffer_size (it_pipeline it)) (buffer st) (upstream st) in
      match buf with
      | [] => Raise OutOfRangeError
      | front :: _ =>
          let idx := (it_draws it (it_drawn it) mod length buf)%nat in
          Ok (nth idx buf front,
              {| it_pipeline := it_pipeline it;
                 it_draws := it_draws it;
                 it_drawn := S (it_drawn it);
                 it_state := Some {| upstream := up;
                                     buffer := tail (<[idx := front]> buf) |} |})
      end
  end.

(** The batches an iterator hands out until it raises, at most [fuel]. *)
Fixpoint drain (fuel : nat) (it : Iterator B) : list B :=
  match fuel with
  | O => []
  | S fuel' =>
      match get_next it with
      | Ok (b, it') => b :: drain fuel' it'
      | Raise _ => []
      end
  end.

(** One pass over the pipeline: initialise, then read to the end. *)
Definition epoch_batches (it : Iterator B) : list B :=
  drain (length (pl_input (it_pipeline it))) (initializer it).
End Iterators.

(** ** input_data.py *)

(** [load_dataset_from_text(path_txt, vocab=None)].  [path_txt] stands for
    the lines of the file at that path.  Without a vocabulary the elements
    are the string tokens, with one they are the ids. *)
Definition token_type (vocab : option Table) : Type :=
  match vocab with
  | Some _ => Z
  | None => string
  end.

Definition load_dataset_from_text (path_txt : list string) (vocab : option Table)
    : Dataset (list (token_type vocab)) :=
  let dataset : Dataset string := path_txt in
  let dataset := dataset_map string_split dataset in
  match vocab as v return Dataset (list (token_type v)) with
  | Some tb => dataset_map (λ tokens, lookup_table tb <$> tokens) dataset
  | None => dataset
  end.

(** A batch as the iterator's [get_next] gives it: the padded sentences and,
    when the pipeline was built with tags, the padded tags. *)
Record Batch (W G : Type) : Type := {
  sentence : list (list W);
  tags : option (list (list G))
}.
Arguments sentence {W G} _.
Arguments tags {W G} _.

(** The dictionary [input_fn] returns: the [get_next] tensors and the
    initialisation op are those of its iterator. *)
Record Inputs (W G : Type) : Type := {
  iterator : Iterator (Batch W G)
}.
Arguments iterator {W G} _.

Definition default_batch_size : Z := 5.

(** [input_fn(is_training, sentences, tags=None, batch_size=5, pad_word,
    pad_tag)].  [draws] is the random source of the shuffle stage. *)
Definition input_fn {W G} (draws : nat → nat) (is_training : bool)
    (sentences : Dataset (list W)) (tags : option (Dataset (list G)))
    (batch_size : Z) (pad_word : W) (pad_tag : G) : result (Inputs W G) :=
  let buffer_size := if is_training then 100%nat else 1%nat in
  batched ←
    match tags with
    | Some tags =>
        let dataset := dataset_zip sentences tags in
        let padding_values := (pad_word, pad_tag) in
        bs ← padded_batch_zip batch_size padding_values dataset;
        Ok ((λ b, {| sentence := b.1; tags := Some b.2 |}) <$> bs)
    | None =>
        let dataset := sentences in
        let padding_values := pad_word in
        bs ← padded_batch batch_size padding_values dataset;
        Ok ((λ b, {| sentence := b; tags := None |}) <$> bs)
    end;
  let dataset := prefetch 1 (shuffle buffer_size batched) in
  Ok {| iterator := make_initializable_iterator draws dataset |}.

(** ** Python integers and paths *)

(** [a // b] and [a % b] round towards minus infinity, as [Z.div] and
    [Z.modulo] do, and raise on a zero divisor. *)
Definition floordiv (a b : Z) : result Z :=
  if b =? 0 then Raise ZeroDivisionError else Ok (a / b).

Definition pymod (a b : Z) : result Z :=
  if b =? 0 then Raise ZeroDivisionError else Ok (a mod b).

Definition starts_with_slash (s : string) : bool :=
  match s with
  | String c _ => Ascii.eqb c "/"%char
  | EmptyString => false
  end.

Fixpoint ends_with_slash (s : string) : bool :=
  match s with
  | EmptyString => false
  | String c EmptyString => Ascii.eqb c "/"%char
  | String _ s' => ends_with_slash s'
  end.

(** [os.path.join(a, b)] on a POSIX system. *)
Definition path_join (a b : string) : string :=
  if starts_with_slash b then b
  else if decide (a = EmptyString) then b
  else if ends_with_slash a then a +:+ b
  else a +:+ "/" +:+ b.

(** ** Checkpoints on disk and [tf.train.Saver]

    [saver.save(sess, prefix, global_step=n)] writes the checkpoint
    [prefix-n]; a checkpoint file is named by the directory and the base
    name of its prefix and by [n].  The file [checkpoint] of a directory
    records the newest checkpoint written there. *)

Definition CheckpointPath : Type := string * string * nat.

Definition Metrics : Type := gmap string float.

Record Disk : Type := {
  checkpoints : gset CheckpointPath;
  checkpoint_state : gmap string CheckpointPath;
  json_files : gmap string Metrics
}.

Record Saver : Type := {
  max_to_keep : nat;
  last_checkpoints : list CheckpointPath
}.

(** [tf.train.Saver()] keeps 5 checkpoints unless told otherwise. *)
Definition new_saver (max_to_keep : option nat) : Saver :=
  {| max_to_keep := default 5%nat max_to_keep; last_checkpoints := [] |}.

(** [Saver.save]: write the files, move the path to the end of the saver's
    list of recent checkpoints, and when the list has grown beyond
    [max_to_keep] (0 keeps everything) delete its oldest entry from disk. *)
Definition saver_save (sv : Saver) (d : Disk) (p : CheckpointPath) : Saver * Disk :=
  let recent := filter (λ q, q ≠ p) (last_checkpoints sv) ++ [p] in
  let files := checkpoints d ∪ {[ p ]} in
  let state := <[ p.1.1 := p ]> (checkpoint_state d) in
  match recent with
  | oldest :: rest =>
      if decide (max_to_keep sv ≠ 0%nat ∧ (max_to_keep sv < length recent)%nat)
      then ({| max_to_keep := max_to_keep sv; last_checkpoints := rest |},
            {| checkpoints := files ∖ {[ oldest ]};
               checkpoint_state := state;
               json_files := json_files d |})
      else ({| max_to_keep := max_to_keep sv; last_checkpoints := recent |},
            {| checkpoints := files; checkpoint_state := state;
               json_files := json_files d |})
  | [] => (sv, d)
  end.

(** [tf.train.latest_checkpoint(dir)] followed by [Saver.restore]: the
    weights it loads are not part of the modelled state, its failures are.
    [latest_checkpoint] gives [None] when the directory has no checkpoint
    file and when the files of the checkpoint it names are gone, and
    [restore] of [None] raises ValueError.  A directory is known by its
    path as it is written. *)
Definition saver_restore (d : Disk) (restore_dir : string) : result unit :=
  match checkpoint_state d !! restore_dir with
  | None => Raise ValueError
  | Some p => if decide (p ∈ checkpoints d) then Ok () else Raise ValueError
  end.

(** Modelled from the spec: [save_dict_to_json] of model/utils.py is not
    among the sources.  It writes the metrics as "a flat mapping from metric
    name to its scalar value" to the given path, replacing the file. *)
Definition save_dict_to_json (metrics : Metrics) (json_path : string) (d : Disk) : Disk :=
  {| checkpoints := checkpoints d;
     checkpoint_state := checkpoint_state d;
     json_files := <[ json_path := metrics ]> (json_files d) |}.

(** ** train.py *)

Record Params : Type := {
  num_epochs : Z;
  train_size : Z;
  batch_size : Z;
  eval_size : Z;
  save_summary_steps : Z;
  test_size : Z;
  vocab_size : Z
}.

(** The model is opaque: of the graph that [model_fn] builds only the
    metrics it reports at each evaluation are observed. *)
Record Model : Type := {
  eval_accuracy : nat → float;
  eval_loss : nat → float
}.

(** The metrics dictionary the [k]-th evaluation reports. *)
Definition final_metrics (model : Model) (k : nat) : Metrics :=
  <[ "accuracy"%string := eval_accuracy model k ]>
    {[ "loss"%string := eval_loss model k ]}.

(** The session: the global step of the optimizer and the number of
    evaluations run so far. *)
Record Session : Type := {
  global_step : nat;
  evaluations : nat
}.

(** Of a model specification the loops use the iterator that feeds it. *)
Record ModelSpec (W G : Type) : Type := {
  spec_iterator : Iterator (Batch W G)
}.
Arguments spec_iterator {W G} _.

(** A summary writer, by the number of summaries it has received. *)
Definition Writer : Type := nat.

Section Train.
Context {W G : Type}.

(** The body of the loop [for i in t] of [train], from step [i] on for
    [n] steps.  Each [sess.run] of the training op pulls one batch and
    advances the global step; every [save_summary_steps]-th step also
    hands a summary to the writer. *)
Fixpoint train_loop (params : Params) (i : nat) (n : nat)
    (sess : Session) (it : Iterator (Batch W G)) (writer : Writer)
    : result (Session * Iterator (Batch W G) * Writer) :=
  match n with
  | O => Ok (sess, it, writer)
  | S n' =>
      r ← pymod (Z.of_nat i) (save_summary_steps params);
      '(_, it') ← get_next it;
      let sess' := {| global_step := S (global_step sess);
                      evaluations := evaluations sess |} in
      let writer' := if r =? 0 then S writer else writer in
      train_loop params (S i) n' sess' it' writer'
  end.

(** [train(sess, model_spec, params, num_steps, writer)]: initialise the
    iterator, then [for i in trange(num_steps)], which runs no step when
    [num_steps <= 0].  The metric accumulators and the log line at the end
    are not part of the modelled state. *)
Definition train (sess : Session) (model_spec : ModelSpec W G) (params : Params)
    (num_steps : Z) (writer : Writer)
    : result (Session * ModelSpec W G * Writer) :=
  let it := initializer (spec_iterator model_spec) in
  '(sess', it', writer') ← train_loop params 0 (Z.to_nat num_steps) sess it writer;
  Ok (sess', {| spec_iterator := it' |}, writer').

(** [n] evaluation steps, one batch each. *)
Fixpoint evaluate_loop (n : nat) (it : Iterator (Batch W G))
    : result (Iterator (Batch W G)) :=
  match n with
  | O => Ok it
  | S n' => '(_, it') ← get_next it; evaluate_loop n' it'
  end.

(** Modelled from the spec: [evaluate] of evaluate.py is not among the
    sources.  "For numSteps iterations, pulls the next Batch from the
    pipeline ... After the loop, reads out all metric accumulators and
    returns [them] as finalMetrics"; "if the pipeline is exhausted before
    numSteps iterations complete ... this is a fatal configuration
    error".  The phase starts by re-initialising its iterator. *)
Definition evaluate (model : Model) (sess : Session) (model_spec : ModelSpec W G)
    (num_steps : Z) (writer : Writer)
    : result (Session * ModelSpec W G * Metrics) :=
  let it := initializer (spec_iterator model_spec) in
  it' ← evaluate_loop (Z.to_nat num_steps) it;
  let k := evaluations sess in
  Ok ({| global_step := global_step sess; evaluations := S k |},
      {| spec_iterator := it' |}, final_metrics model k).

(** The state of [train_and_evaluate] between two epochs. *)
Record Run : Type := {
  run_sess : Session;
  run_train_spec : ModelSpec W G;
  run_eval_spec : ModelSpec W G;
  run_train_writer : Writer;
  run_eval_writer : Writer;
  last_saver : Saver;
  best_saver : Saver;
  run_disk : Disk;
  best_eval_acc : float
}.

Definition last_dir (model_dir : string) : string := path_join model_dir "last_weights".
Definition best_dir (model_dir : string) : string := path_join model_dir "best_weights".
Definition best_json_path (model_dir : string) : string :=
  path_join model_dir "metrics_eval_best_weights.json".
Definition last_json_path (model_dir : string) : string :=
  path_join model_dir "metrics_eval_last_weights.json".

(** The body of [for epoch in range(params.num_epochs)]. *)
Definition epoch_body (model : Model) (model_dir : string) (params : Params)
    (epoch : nat) (r : Run) : result Run :=
  (* compute number of batches in one epoch *)
  num_steps ← floordiv (train_size params + 1) (batch_size params);
  '(sess, train_spec, train_writer) ←
    train (run_sess r) (run_train_spec r) params num_steps (run_train_writer r);
  (* Save weights *)
  let last_save_path : CheckpointPath := (last_dir model_dir, "after-epoch"%string, S epoch) in
  let '(last_saver', disk) := saver_save (last_saver r) (run_disk r) last_save_path in
  (* Evaluate for one epoch on validation set *)
  num_steps ← floordiv (eval_size params + 1) (batch_size params);
  '(sess, eval_spec, metrics) ←
    evaluate model sess (run_eval_spec r) num_steps (run_eval_writer r);
  (* If best_eval, best_save_path *)
  eval_acc ← match metrics !! "accuracy"%string with
             | Some a => Ok a
             | None => Raise KeyError
             end;
  let '(best_acc', best_saver', disk) :=
    if (best_eval_acc r <=? eval_acc)%float then
      let best_save_path : CheckpointPath :=
        (best_dir model_dir, "after-epoch"%string, S epoch) in
      let '(best_saver', disk) := saver_save (best_saver r) disk best_save_path in
      (eval_acc, best_saver', save_dict_to_json metrics (best_json_path model_dir) disk)
    else (best_eval_acc r, best_saver r, disk) in
  (* Save latest eval metrics in a json file in the model directory *)
  let disk := save_dict_to_json metrics (last_json_path model_dir) disk in
  Ok {| run_sess := sess;
        run_train_spec := train_spec;
        run_eval_spec := eval_spec;
        run_train_writer := train_writer;
        run_eval_writer := run_eval_writer r;
        last_saver := last_saver';
        best_saver := best_saver';
        run_disk := disk;
        best_eval_acc := best_acc' |}.

(** [n] rounds of the loop, for the epochs [epoch], [epoch + 1], ... *)
Fixpoint epochs_from (model : Model) (model_dir : string) (params : Params)
    (epoch n : nat) (r : Run) : result Run :=
  match n with
  | O => Ok r
  | S n' =>
      r' ← epoch_body model model_dir params epoch r;
      epochs_from model model_dir params (S epoch) n' r'
  end.

(** [train_and_evaluate(train_model_spec, eval_model_spec, model_dir,
    params, restore_dir=None)], run on the disk [disk]. *)
Definition train_and_evaluate (model : Model) (disk : Disk)
    (train_model_spec eval_model_spec : ModelSpec W G) (model_dir : string)
    (params : Params) (restore_dir : option string) : result Run :=
  let last_saver := new_saver None in         (* will keep last 5 epochs *)
  let best_saver := new_saver (Some 1%nat) in  (* only keep 1 best checkpoint *)
  _ ← match restore_dir with
      | Some dir => saver_restore disk dir
      | None => Ok ()
      end;
  let r := {| run_sess := {| global_step := 0; evaluations := 0 |};
              run_train_spec := train_model_spec;
              run_eval_spec := eval_model_spec;
              run_train_writer := 0%nat;
              run_eval_writer := 0%nat;
              last_saver := last_saver;
              best_saver := best_saver;
              run_disk := disk;
              best_eval_acc := 0.0%float |} in
  (* for epoch in range(params.num_epochs) *)
  epochs_from model model_dir params 0 (Z.to_nat (num_epochs params)) r.
End Train.

(** Modelled from the spec: [model_fn] of model/model.py is not among the
    sources; the model is "an opaque function from a batch to loss + metrics
    + gradients".  The specification it returns runs on the iterator of the
    inputs it was given. *)
Definition model_fn {W G} (is_training : bool) (inputs : Inputs W G) (params : Params)
    : ModelSpec W G :=
  {| spec_iterator := iterator inputs |}.

(** The files the script reads, each by its lines. *)
Record DataFiles : Type := {
  words_txt : list string;             (* data/NER/words.txt *)
  tags_txt : list string;              (* data/NER/tags.txt *)
  train_sentences_txt : list string;   (* data/NER/train/sentences.txt *)
  train_tags_txt : list string;        (* data/NER/train/tags.txt *)
  test_sentences_txt : list string;    (* data/NER/test/sentences.txt *)
  test_tags_txt : list string          (* data/NER/test/tags.txt *)
}.

(** The two vocabularies of the script: the words get one out-of-vocabulary
    bucket, the tags get none. *)
Definition vocab_words (fast_hash : string → N) (files : DataFiles) : result Table :=
  index_table_from_file fast_hash (words_txt files) 1.

Definition vocab_tags (fast_hash : string → N) (files : DataFiles) : result Table :=
  index_table_from_file fast_hash (tags_txt files) 0.

(** The script, [if __name__ == '__main__'].  [params] is the content of
    params.json updated with dataset_params.json; [model_dir] and
    [restore_dir] are the command line arguments. *)
Definition main (fast_hash : string → N) (model : Model) (train_draws eval_draws : nat → nat)
    (files : DataFiles) (disk : Disk) (model_dir : string) (restore_dir : option string)
    (params : Params) : result (Run (W:=Z) (G:=Z)) :=
  (* Load Vocabularies.  The tables are declared here and initialised by
     the session of train_and_evaluate, which restores first (train.py:90)
     and runs tables_initializer after (train.py:98): a restore that fails
     is reported before a vocabulary file that cannot be read. *)
  _ ← match restore_dir with
      | Some dir => saver_restore disk dir
      | None => Ok ()
      end;
  vocab_words ← vocab_words fast_hash files;
  vocab_tags ← vocab_tags fast_hash files;
  let id_pad_word := lookup_table vocab_words "<pad>" in
  let id_pad_tag := lookup_table vocab_tags "O" in
  (* Create the input data pipeline *)
  let train_sentences : Dataset (list Z) := load_dataset_from_text (train_sentences_txt files) (Some vocab_words) in
  let train_tags : Dataset (list Z) := load_dataset_from_text (train_tags_txt files) (Some vocab_tags) in
  let test_sentences : Dataset (list Z) := load_dataset_from_text (test_sentences_txt files) (Some vocab_words) in
  let test_tags : Dataset (list Z) := load_dataset_from_text (test_tags_txt files) (Some vocab_tags) in
  (* specify the train and eval datasets size *)
  let params := {| num_epochs := num_epochs params;
                   train_size := train_size params;
                   batch_size := batch_size params;
                   eval_size := test_size params;
                   save_summary_steps := save_summary_steps params;
                   test_size := test_size params;
                   vocab_size := vocab_size params + 1 |} in
  (* Create the two iterators over the two datasets *)
  train_inputs ← input_fn train_draws true train_sentences (Some train_tags)
                   default_batch_size id_pad_word id_pad_tag;
  eval_inputs ← input_fn eval_draws false test_sentences (Some test_tags)
                   default_batch_size id_pad_word id_pad_tag;
  (* Define the model *)
  let train_model_spec := model_fn true train_inputs params in
  let eval_model_spec := model_fn false eval_inputs params in
  (* Train the model *)
  train_and_evaluate model disk train_model_spec eval_model_spec model_dir params restore_dir.


(** * Vocabulary of the statements

    The measures, invariants and reference functions the properties are
    stated with, and the concrete inputs they are tried on. *)

(** The claim as the specification words it: every lookup lands in
    [[0, size())]. *)
Definition lookup_in_range (tb : Table) : Prop :=
  ∀ key, 0 ≤ lookup_table tb key < table_size tb.

Definition example_files : DataFiles :=
  {| words_txt := ["a"; "b"; "c"; "d"; "e"]%string;
     tags_txt := ["O"; "B-PER"; "I-PER"]%string;
     train_sentences_txt := ["a b c"; "d e"]%string;
     train_tags_txt := ["O O B-PER"; "I-PER O"]%string;
     test_sentences_txt := ["a e"]%string;
     test_tags_txt := ["O O"]%string |}.

Definition no_hash : string → N := λ _, 0%N.

Definition example_words_table : Table :=
  {| vocab := list_to_map (enumerate_lines (words_txt example_files));
     num_oov_buckets := 1; default_value := -1; hasher := no_hash |}.

Definition example_tags_table : Table :=
  {| vocab := list_to_map (enumerate_lines (tags_txt example_files));
     num_oov_buckets := 0; default_value := -1; hasher := no_hash |}.

(** What is left of one pass: the buffered elements and those upstream. *)
Definition remaining {B} (it : Iterator B) : nat :=
  match it_state it with
  | Some st => (length (buffer st) + length (upstream st))%nat
  | None => 0%nat
  end.

Definition filled {B} (it : Iterator B) (st : IterState B) : list B :=
  buffer st ++ take (pl_buffer_size (it_pipeline it) - length (buffer st)) (upstream st).

(** The sentences that reach the batcher: all of them, or those that have
    tags to be zipped with. *)
Definition examples {W G} (sentences : Dataset (list W))
    (tags : option (Dataset (list G))) : list (list W) :=
  match tags with
  | Some tags => (dataset_zip sentences tags).*1
  | None => sentences
  end.

(** Their tag sequences, in the same order; none when there are no tags. *)
Definition tag_examples {W G} (sentences : Dataset (list W))
    (tags : option (Dataset (list G))) : list (list G) :=
  match tags with
  | Some tags => (dataset_zip sentences tags).*2
  | None => []
  end.

(** The batched dataset [input_fn] builds before it shuffles. *)
Definition padded_windows {W G} (sentences : Dataset (list W))
    (tags : option (Dataset (list G))) (n : nat) (pad_word : W) (pad_tag : G)
    : list (Batch W G) :=
  match tags with
  | Some tags =>
      let zipped := dataset_zip sentences tags in
      (λ w, {| sentence := pad_rows pad_word (w.*1);
               tags := Some (pad_rows pad_tag (w.*2)) |})
        <$> windows (length zipped) n zipped
  | None =>
      (λ w, {| sentence := pad_rows pad_word w; tags := None |})
        <$> windows (length sentences) n sentences
  end.

(** The scenario of the specification: sentences ["a b c"] and ["d e"] over
    the vocabulary a..e with one out-of-vocabulary bucket (id 5), padded
    with id 5 in batches of 2. *)
Definition example_sentences : Dataset (list Z) :=
  load_dataset_from_text ["a b c"; "d e"]%string (Some example_words_table).

Definition end_to_end_scenario : Prop :=
  vocab_words no_hash example_files = Ok example_words_table ∧
  ∀ draws is_training, ∃ inputs : Inputs Z Z,
    input_fn draws is_training example_sentences None 2 5 0 = Ok inputs ∧
    epoch_batches (iterator inputs) =
      [ {| sentence := [[0; 1; 2]; [3; 4; 5]]; tags := None |} ].

Definition example_tags : Dataset (list Z) :=
  load_dataset_from_text ["O O B-PER"; "I-PER O"]%string (Some example_tags_table).

(** [n] batches are pulled, or as many as there are. *)
Fixpoint advance {B} (n : nat) (it : Iterator B) : Iterator B :=
  match n with
  | O => it
  | S n' =>
      match get_next it with
      | Ok (_, it') => advance n' it'
      | Raise _ => it
      end
  end.

(** The input with every element tagged by its position upstream. *)
Definition tagged {B} (ds : list B) : list (nat * B) := imap (λ j b, (j, b)) ds.

Definition shuffled {B} (draws : nat → nat) (buffer_size : nat) (ds : list B) : list B :=
  epoch_batches (make_initializable_iterator draws (shuffle buffer_size ds)).

(** The claim as the specification words it: the batch at output position
    [i] comes from an upstream position between [i] and [i + N - 1]. *)
Definition within_window {B} (draws : nat → nat) (N : nat) (ds : list B) : Prop :=
  ∀ i j b, shuffled draws N (tagged ds) !! i = Some (j, b) →
           (i ≤ j ≤ i + N - 1)%nat.

(** After [k] batches have been handed out: [pulled] elements have been
    taken from upstream, the buffered ones among them. *)
Definition window_inv {B} (ds : list B) (k : nat) (it : Iterator (nat * B)) : Prop :=
  ∃ st pulled,
    it_state it = Some st ∧
    upstream st = drop pulled (tagged ds) ∧
    (pulled = k + length (buffer st))%nat ∧
    (length (buffer st) ≤ pl_buffer_size (it_pipeline it) - 1)%nat ∧
    Forall (λ e, e.1 < pulled)%nat (buffer st).

(** An iterator is ready when it has been initialised over a pipeline
    with a proper shuffle buffer. *)
Definition ready {B} (it : Iterator B) : Prop :=
  is_Some (it_state it) ∧ (0 < pl_buffer_size (it_pipeline it))%nat.

(** The part of the state of a run that the checkpoint policy reads and
    writes. *)
Record Book : Type := {
  bk_last : Saver;
  bk_best : Saver;
  bk_disk : Disk;
  bk_acc : float
}.

(** What one epoch does to it, given the metrics of its evaluation. *)
Definition book_step (model_dir : string) (epoch : nat) (metrics : Metrics)
    (acc : float) (b : Book) : Book :=
  let last_step :=
    saver_save (bk_last b) (bk_disk b) (last_dir model_dir, "after-epoch"%string, S epoch) in
  let best_step :=
    saver_save (bk_best b) last_step.2 (best_dir model_dir, "after-epoch"%string, S epoch) in
  if (bk_acc b <=? acc)%float
  then {| bk_last := last_step.1;
          bk_best := best_step.1;
          bk_disk := save_dict_to_json metrics (last_json_path model_dir)
                       (save_dict_to_json metrics (best_json_path model_dir) best_step.2);
          bk_acc := acc |}
  else {| bk_last := last_step.1;
          bk_best := bk_best b;
          bk_disk := save_dict_to_json metrics (last_json_path model_dir) last_step.2;
          bk_acc := bk_acc b |}.

Definition book_of {W G} (r : Run (W:=W) (G:=G)) : Book :=
  {| bk_last := last_saver r; bk_best := best_saver r;
     bk_disk := run_disk r; bk_acc := best_eval_acc r |}.

Definition train_steps (params : Params) : Z := (train_size params + 1) / batch_size params.
Definition eval_steps (params : Params) : Z := (eval_size params + 1) / batch_size params.

(** The directory part [os.path.join] puts before a relative name. *)
Definition join_prefix (a : string) : string :=
  if decide (a = EmptyString) then EmptyString
  else if ends_with_slash a then a
  else a +:+ "/".

Definition recent_of (sv : Saver) (p : CheckpointPath) : list CheckpointPath :=
  filter (λ q, q ≠ p) (last_checkpoints sv) ++ [p].

(** The policy in the words of the specification.  Best: "replaced only
    when a new epoch's validation metric is greater than or equal to the
    best seen so far", starting from 0.0: the best accuracy recorded after
    [n] epochs, and the epoch whose checkpoint is kept.  Last: "keeps at
    most 5 most-recent checkpoints": the epochs kept after [n] epochs. *)
Fixpoint best_so_far (acc : nat → float) (n : nat) : float * option nat :=
  match n with
  | O => (0.0%float, None)
  | S n' =>
      let '(best, kept) := best_so_far acc n' in
      if (best <=? acc n')%float then (acc n', Some (S n')) else (best, kept)
  end.

Definition last_kept (n : nat) : list nat := seq (S (n - n `min` 5)) (n `min` 5).

Definition last_path (model_dir : string) (n : nat) : CheckpointPath :=
  (last_dir model_dir, "after-epoch"%string, n).

Definition best_path (model_dir : string) (n : nat) : CheckpointPath :=
  (best_dir model_dir, "after-epoch"%string, n).

(** The checkpoints the first [k] epochs of a run write: the last
    checkpoint of every epoch, and the best checkpoint of every epoch whose
    accuracy is at least the best recorded before it. *)
Definition written (model : Model) (model_dir : string) (k : nat)
    (q : CheckpointPath) : Prop :=
  ∃ e, (e < k)%nat ∧
    (q = last_path model_dir (S e) ∨
     (q = best_path model_dir (S e) ∧
      ((best_so_far (eval_accuracy model) e).1 <=? eval_accuracy model e)%float = true)).

(** The savers and the checkpoints on disk after [k] epochs of a run that
    started on the disk [d0]: on disk are the checkpoints of the two
    savers, and what was there before and has not been written again. *)
Definition policy_inv (model : Model) (model_dir : string) (d0 : Disk)
    (k : nat) (b : Book) : Prop :=
  max_to_keep (bk_last b) = 5%nat ∧
  max_to_keep (bk_best b) = 1%nat ∧
  last_checkpoints (bk_last b) = last_path model_dir <$> last_kept k ∧
  last_checkpoints (bk_best b) =
    best_path model_dir <$> option_list (best_so_far (eval_accuracy model) k).2 ∧
  bk_acc b = (best_so_far (eval_accuracy model) k).1 ∧
  (∀ q, q ∈ checkpoints (bk_disk b) ↔
        q ∈ last_checkpoints (bk_last b) ∨ q ∈ last_checkpoints (bk_best b) ∨
        (q ∈ checkpoints d0 ∧ ¬ written model model_dir k q)).

(** The model directory holds no checkpoint when the run starts. *)
Definition fresh_disk (model_dir : string) (disk : Disk) : Prop :=
  ∀ q, q ∈ checkpoints disk →
       q.1.1 ≠ last_dir model_dir ∧ q.1.1 ≠ best_dir model_dir.

(** The directory to restore from, when there is one, has a checkpoint. *)
Definition restorable (disk : Disk) (restore_dir : option string) : Prop :=
  match restore_dir with
  | Some dir => saver_restore disk dir = Ok ()
  | None => True
  end.

(** The configured sizes ask for no more batches than the pipelines have. *)
Definition feasible {W G} (params : Params) (train_spec eval_spec : ModelSpec W G) : Prop :=
  batch_size params ≠ 0 ∧
  save_summary_steps params ≠ 0 ∧
  (0 < pl_buffer_size (it_pipeline (spec_iterator train_spec)))%nat ∧
  (0 < pl_buffer_size (it_pipeline (spec_iterator eval_spec)))%nat ∧
  (Z.to_nat (train_steps params)
     ≤ length (pl_input (it_pipeline (spec_iterator train_spec))))%nat ∧
  (Z.to_nat (eval_steps params)
     ≤ length (pl_input (it_pipeline (spec_iterator eval_spec))))%nat.

Definition empty_disk : Disk :=
  {| checkpoints := ∅; checkpoint_state := ∅; json_files := ∅ |}.

(** The model directory experiments/test as an earlier run of ten epochs
    has left it, with the last checkpoints of its epochs 9 and 10 and its
    best checkpoint, of epoch 9. *)
Definition earlier_run_disk : Disk :=
  {| checkpoints :=
       {[ last_path "experiments/test" 9; last_path "experiments/test" 10;
          best_path "experiments/test" 9 ]};
     checkpoint_state :=
       <[ last_dir "experiments/test" := last_path "experiments/test" 10 ]>
         {[ best_dir "experiments/test" := best_path "experiments/test" 9 ]};
     json_files := ∅ |}.

Definition example_batches : list (Batch Z Z) :=
  [ {| sentence := [[0; 1; 2]]; tags := Some [[0; 0; 1]] |};
    {| sentence := [[3; 4]]; tags := Some [[2; 0]] |} ].

Definition example_spec (buffer_size : nat) : ModelSpec Z Z :=
  {| spec_iterator := make_initializable_iterator (λ k, k) (shuffle buffer_size example_batches) |}.

Definition example_params (epochs : Z) : Params :=
  {| num_epochs := epochs; train_size := 2; batch_size := 2; eval_size := 3;
     save_summary_steps := 1; test_size := 3; vocab_size := 5 |}.

Definition example_model (accs : list float) : Model :=
  {| eval_accuracy := λ k, nth k accs 0%float; eval_loss := λ _, 0%float |}.

Definition scenario_accuracies : list float :=
  [0.5; 0.7; 0.6; 0.9; 0.8]%float.

Definition steps_params : Params :=
  {| num_epochs := 1; train_size := 11; batch_size := 5; eval_size := 4;
     save_summary_steps := 2; test_size := 4; vocab_size := 5 |}.

Definition steps_run_before : Run (W:=Z) (G:=Z) :=
  {| run_sess := {| global_step := 0; evaluations := 0 |};
     run_train_spec := example_spec 100;
     run_eval_spec := example_spec 1;
     run_train_writer := 0%nat;
     run_eval_writer := 0%nat;
     last_saver := new_saver None;
     best_saver := new_saver (Some 1%nat);
     run_disk := empty_disk;
     best_eval_acc := 0.0%float |}.

Definition steps_run_after : Run (W:=Z) (G:=Z) :=
  match epoch_body (example_model []) "experiments/test" steps_params 0 steps_run_before with
  | Ok r => r
  | Raise _ => steps_run_before
  end.

Definition mismatch_files : DataFiles :=
  {| words_txt := ["<pad>"; "a"; "b"]%string;
     tags_txt := ["O"; "B"]%string;
     train_sentences_txt := replicate 10 "a b"%string;
     train_tags_txt := replicate 10 "O B"%string;
     test_sentences_txt := replicate 10 "b a"%string;
     test_tags_txt := replicate 10 "B O"%string |}.

Definition mismatch_params : Params :=
  {| num_epochs := 1; train_size := 10; batch_size := 2; eval_size := 10;
     save_summary_steps := 1; test_size := 10; vocab_size := 3 |}.

(** Tokens joined by single spaces, as a line of a data file has them. *)
Fixpoint join_tokens (tokens : list string) : string :=
  match tokens with
  | [] => EmptyString
  | [t] => t
  | t :: rest => t +:+ " " +:+ join_tokens rest
  end.

Fixpoint no_space (s : string) : bool :=
  match s with
  | EmptyString => true
  | String c s' => negb (Ascii.eqb c " "%char) && no_space s'
  end.

(** A token: not empty, and without a space. *)
Definition is_token (s : string) : Prop := s ≠ EmptyString ∧ no_space s = true.

(** A line of [n] spaces. *)
Fixpoint spaces (n : nat) : string :=
  match n with
  | O => EmptyString
  | S n' => String " "%char (spaces n')
  end.

(** [row] is [ex] followed by some copies of [pad] and nothing else. *)
Definition is_padding_of {A} (pad : A) (row ex : list A) : Prop :=
  ∃ n, row = ex ++ replicate n pad.

(** A checkpoint a run of [k] epochs in [model_dir] may write or delete:
    after-epoch-e of its last or best weights, for an epoch [e] of the
    run. *)
Definition own_checkpoint (model_dir : string) (k : nat) (q : CheckpointPath) : Prop :=
  ∃ e, (1 ≤ e ≤ k)%nat ∧ (q = last_path model_dir e ∨ q = best_path model_dir e).

(** The state of savers and disk after [k] epochs, on any disk [d0]. *)
Definition run_inv (model : Model) (model_dir : string) (d0 : Disk)
    (k : nat) (b : Book) : Prop :=
  Forall (λ q, ∃ e, (1 ≤ e ≤ k)%nat ∧ q = last_path model_dir e)
    (last_checkpoints (bk_last b)) ∧
  max_to_keep (bk_best b) = 1%nat ∧
  last_checkpoints (bk_best b) =
    best_path model_dir <$> option_list (best_so_far (eval_accuracy model) k).2 ∧
  bk_acc b = (best_so_far (eval_accuracy model) k).1 ∧
  (∀ q, q ∈ checkpoints (bk_disk b) → q ∈ checkpoints d0 ∨ own_checkpoint model_dir k q) ∧
  (∀ q, q ∈ checkpoints d0 → ¬ own_checkpoint model_dir k q → q ∈ checkpoints (bk_disk b)) ∧
  (∀ path, path ≠ best_json_path model_dir → path ≠ last_json_path model_dir →
     json_files (bk_disk b) !! path = json_files d0 !! path) ∧
  (∀ dir, dir ≠ last_dir model_dir → dir ≠ best_dir model_dir →
     checkpoint_state (bk_disk b) !! dir = checkpoint_state d0 !! dir) ∧
  ((0 < k)%nat →
     checkpoint_state (bk_disk b) !! last_dir model_dir = Some (last_path model_dir k) ∧
     last_path model_dir k ∈ checkpoints (bk_disk b) ∧
     json_files (bk_disk b) !! last_json_path model_dir
       = Some (final_metrics model (pred k))) ∧
  match (best_so_far (eval_accuracy model) k).2 with
  | Some e =>
      checkpoint_state (bk_disk b) !! best_dir model_dir = Some (best_path model_dir e) ∧
      best_path model_dir e ∈ checkpoints (bk_disk b) ∧
      json_files (bk_disk b) !! best_json_path model_dir
        = Some (final_metrics model (pred e))
  | None =>
      checkpoint_state (bk_disk b) !! best_dir model_dir
        = checkpoint_state d0 !! best_dir model_dir ∧
      json_files (bk_disk b) !! best_json_path model_dir
        = json_files d0 !! best_json_path model_dir
  end.

(** A disk on which an earlier experiment has left its files. *)
Definition used_disk : Disk :=
  {| checkpoints := {[ ("experiments/base/last_weights"%string, "after-epoch"%string, 3%nat) ]};
     checkpoint_state :=
       {[ "experiments/base/last_weights"%string :=
            ("experiments/base/last_weights"%string, "after-epoch"%string, 3%nat) ]};
     json_files :=
       {[ "experiments/base/metrics_eval_last_weights.json"%string :=
            final_metrics (example_model [0.5%float]) 0 ]} |}.





(** * Properties *)

(** ** Vocabulary *)

(** The file is read to its end exactly when no line is empty and no
    line repeats an earlier one. *)
Lemma read_lines_Ok seen lines :
  read_lines seen lines = Ok () ↔
  NoDup lines ∧ Forall (λ key, key ≠ EmptyString ∧ key ∉ seen) lines.
Proof.
  revert seen. induction lines as [|key lines IH]; intros seen; simpl.
  - split; [intros _; split; [apply NoDup_nil_2|apply Forall_nil_2]|done].
  - destruct (decide (key = EmptyString)) as [He|He].
    { split; [done|]. intros [_ [[? _] _]%Forall_cons]. done. }
    destruct (decide (key ∈ seen)) as [Hs|Hs].
    { split; [done|]. intros [_ [[_ ?] _]%Forall_cons]. done. }
    rewrite IH, NoDup_cons, Forall_cons, !Forall_forall. split.
    + intros [Hnd Hall]. split_and!; try done.
      * intros Hin. destruct (Hall key Hin) as [_ Hnot]. apply Hnot. by left.
      * intros x Hx. destruct (Hall x Hx) as [? Hnot]. split; [done|].
        intros ?. apply Hnot. by right.
    + intros [[Hnotin Hnd] [_ Hall]]. split; [done|].
      intros x Hx. destruct (Hall x Hx) as [? Hnot]. split; [done|].
      intros [->|?]%elem_of_cons; done.
Qed.

Lemma index_table_from_file_succeeds fast_hash lines oov :
  NoDup lines → Forall (λ key, key ≠ EmptyString) lines →
  index_table_from_file fast_hash lines oov =
    Ok {| vocab := list_to_map (enumerate_lines lines);
          num_oov_buckets := Z.of_nat oov;
          default_value := -1;
          hasher := fast_hash |}.
Proof.
  intros Hnd Hne. unfold index_table_from_file.
  rewrite (proj2 (read_lines_Ok [] lines)); [done|].
  split; [done|]. eapply Forall_impl; [exact Hne|].
  intros key Hkey. split; [done|apply not_elem_of_nil].
Qed.

Lemma index_table_from_file_Ok fast_hash lines oov tb :
  index_table_from_file fast_hash lines oov = Ok tb →
  NoDup lines ∧
  vocab tb = list_to_map (enumerate_lines lines) ∧
  num_oov_buckets tb = Z.of_nat oov ∧
  default_value tb = -1.
Proof.
  unfold index_table_from_file.
  destruct (read_lines [] lines) as [[]|e] eqn:Hread; [|done].
  apply read_lines_Ok in Hread as [Hnd _]. simpl.
  by intros [= <-].
Qed.

Lemma index_table_from_file_lines fast_hash lines oov tb :
  index_table_from_file fast_hash lines oov = Ok tb →
  Forall (λ key, key ≠ EmptyString) lines.
Proof.
  unfold index_table_from_file.
  destruct (read_lines [] lines) as [[]|e] eqn:Hread; [|done].
  apply read_lines_Ok in Hread as [_ Hall]. intros _.
  eapply Forall_impl; [exact Hall|]. by intros key [? _].
Qed.

Lemma enumerate_lines_fst lines : (enumerate_lines lines).*1 = lines.
Proof.
  unfold enumerate_lines. apply fst_zip.
  by rewrite length_fmap, length_seq.
Qed.

Lemma enumerate_lines_hit lines key id :
  (list_to_map (enumerate_lines lines) : gmap string Z) !! key = Some id →
  key ∈ lines ∧ 0 ≤ id < Z.of_nat (length lines).
Proof.
  intros Hin%elem_of_list_to_map_2. split.
  - rewrite <-(enumerate_lines_fst lines). apply list_elem_of_fmap. by exists (key, id).
  - apply elem_of_zip_r in Hin. apply list_elem_of_fmap in Hin as (n & -> & Hn).
    apply elem_of_seq in Hn. lia.
Qed.

Lemma enumerate_lines_miss lines key :
  key ∉ lines →
  (list_to_map (enumerate_lines lines) : gmap string Z) !! key = None.
Proof.
  intros Hnot. apply not_elem_of_list_to_map_1. by rewrite enumerate_lines_fst.
Qed.

Lemma enumerate_lines_present lines key :
  key ∈ lines →
  is_Some ((list_to_map (enumerate_lines lines) : gmap string Z) !! key).
Proof.
  intros Hin. destruct (_ !! key) eqn:E; [by eexists|].
  apply not_elem_of_list_to_map_2 in E. by rewrite enumerate_lines_fst in E.
Qed.

Lemma enumerate_lines_size lines :
  NoDup lines →
  size (list_to_map (enumerate_lines lines) : gmap string Z) = length lines.
Proof.
  intros Hnd. rewrite <-length_map_to_list.
  rewrite map_to_list_to_map by (by rewrite enumerate_lines_fst).
  unfold enumerate_lines. rewrite length_zip, length_fmap, length_seq. lia.
Qed.

Lemma table_size_eq fast_hash lines oov tb :
  index_table_from_file fast_hash lines oov = Ok tb →
  table_size tb = Z.of_nat (length lines) + Z.of_nat oov.
Proof.
  intros (Hnd & Hv & Ho & _)%index_table_from_file_Ok.
  unfold table_size. by rewrite Hv, Ho, enumerate_lines_size.
Qed.

(** A token of the file gets its line number, whatever the buckets. *)
Lemma lookup_table_known fast_hash lines oov tb key :
  index_table_from_file fast_hash lines oov = Ok tb →
  key ∈ lines →
  0 ≤ lookup_table tb key < Z.of_nat (length lines).
Proof.
  intros (Hnd & Hv & Ho & _)%index_table_from_file_Ok Hin.
  unfold lookup_table. rewrite Hv.
  destruct (enumerate_lines_present lines key Hin) as [id Hid].
  rewrite Hid. by apply enumerate_lines_hit in Hid as [_ ?].
Qed.

(** With one bucket every unseen token gets the id after the last line. *)
Lemma lookup_table_oov_bucket fast_hash lines tb key :
  index_table_from_file fast_hash lines 1 = Ok tb →
  key ∉ lines →
  lookup_table tb key = Z.of_nat (length lines).
Proof.
  intros (Hnd & Hv & Ho & _)%index_table_from_file_Ok Hnot.
  unfold lookup_table. rewrite Hv, (enumerate_lines_miss lines key Hnot), Ho.
  rewrite enumerate_lines_size by done. simpl. rewrite Z.mod_1_r. lia.
Qed.

(** Without buckets every unseen token gets the default value. *)
Lemma lookup_table_default fast_hash lines tb key :
  index_table_from_file fast_hash lines 0 = Ok tb →
  key ∉ lines →
  lookup_table tb key = -1.
Proof.
  intros (Hnd & Hv & Ho & Hd)%index_table_from_file_Ok Hnot.
  unfold lookup_table. by rewrite Hv, (enumerate_lines_miss lines key Hnot), Ho, Hd.
Qed.

(** C2, counterexample: the tag vocabulary is built without
    out-of-vocabulary bucket, and a tag that is not in its file is looked
    up as -1, which is no id of [[0, size())]. *)
Lemma tag_lookup_leaves_range :
  ∃ tb, vocab_tags no_hash example_files = Ok tb ∧
        lookup_table tb "B-LOC" = -1 ∧
        table_size tb = 3 ∧
        ¬ lookup_in_range tb.
Proof.
  eexists. split; [reflexivity|].
  split; [reflexivity|]. split; [reflexivity|].
  intros H. specialize (H "B-LOC"%string).
  change (lookup_table _ _) with (-1) in H. lia.
Qed.

(** C2, amended: lookup never fails (it is a total function) on either
    vocabulary.  On the word vocabulary every token gets an id in
    [[0, size())], and every token that is not in the file gets the same
    reserved id, the last one.  On the tag vocabulary the tags of the file
    get an id in [[0, size())], and every tag that is not in the file
    gets the same value -1. *)
Theorem vocabulary_lookup (fast_hash : string → N) (files : DataFiles) (words tgs : Table) :
  vocab_words fast_hash files = Ok words →
  vocab_tags fast_hash files = Ok tgs →
  lookup_in_range words ∧
  (∀ key, key ∉ words_txt files → lookup_table words key = table_size words - 1) ∧
  (∀ key, key ∈ tags_txt files → 0 ≤ lookup_table tgs key < table_size tgs) ∧
  (∀ key, key ∉ tags_txt files → lookup_table tgs key = -1).
Proof.
  unfold vocab_words, vocab_tags. intros Hw Ht.
  pose proof (table_size_eq _ _ _ _ Hw) as Hsw.
  pose proof (table_size_eq _ _ _ _ Ht) as Hst.
  repeat split.
  - destruct (decide (key ∈ words_txt files)) as [Hin|Hnot].
    + pose proof (lookup_table_known _ _ _ _ key Hw Hin). lia.
    + rewrite (lookup_table_oov_bucket _ _ _ key Hw Hnot). lia.
  - destruct (decide (key ∈ words_txt files)) as [Hin|Hnot].
    + pose proof (lookup_table_known _ _ _ _ key Hw Hin). lia.
    + rewrite (lookup_table_oov_bucket _ _ _ key Hw Hnot). lia.
  - intros key Hnot. rewrite (lookup_table_oov_bucket _ _ _ key Hw Hnot). lia.
  - pose proof (lookup_table_known _ _ _ _ key Ht H). lia.
  - pose proof (lookup_table_known _ _ _ _ key Ht H). lia.
  - intros key Hnot. apply (lookup_table_default _ _ _ key Ht Hnot).
Qed.

Lemma vocabulary_lookup_witness :
  lookup_in_range example_words_table ∧
  (∀ key, key ∉ words_txt example_files →
          lookup_table example_words_table key = table_size example_words_table - 1) ∧
  (∀ key, key ∈ tags_txt example_files →
          0 ≤ lookup_table example_tags_table key < table_size example_tags_table) ∧
  (∀ key, key ∉ tags_txt example_files → lookup_table example_tags_table key = -1).
Proof.
  apply (vocabulary_lookup no_hash example_files); reflexivity.
Defined.

(** ** Windows and padding *)

Section BatchingFacts.
Context {A : Type}.
Implicit Types (ds : list A) (n k fuel : nat).

Lemma windows_nil fuel n : windows fuel n ([] : list A) = [].
Proof. by destruct fuel. Qed.

Lemma windows_cons fuel n x ds :
  windows (S fuel) n (x :: ds) = take n (x :: ds) :: windows fuel n (drop n (x :: ds)).
Proof. done. Qed.

(** The [k]-th window is the [k]-th slice of [n] elements, as long as the
    slice starts inside the list. *)
Lemma windows_lookup fuel n ds k :
  (0 < n)%nat → (length ds ≤ fuel)%nat →
  windows fuel n ds !! k =
    if decide (k * n < length ds)%nat then Some (take n (drop (k * n) ds)) else None.
Proof.
  intros Hn. revert ds k. induction fuel as [|fuel IH]; intros ds k Hlen.
  - destruct ds; [|simpl in Hlen; lia].
    rewrite decide_False by (simpl; lia). done.
  - destruct ds as [|x ds'].
    { rewrite decide_False by (simpl; lia). done. }
    rewrite windows_cons.
    destruct k as [|k].
    + rewrite decide_True by (simpl; lia). done.
    + rewrite lookup_cons. rewrite IH by (rewrite length_drop; simpl in *; lia).
      rewrite length_drop, drop_drop.
      replace (n + k * n)%nat with (S k * n)%nat by lia.
      repeat case_decide; try done; lia.
Qed.

Lemma ceil_div_step a n :
  (0 < n)%nat → (0 < a)%nat →
  ((a + n - 1) / n = S ((a - n + n - 1) / n))%nat.
Proof.
  intros Hn Ha. destruct (decide (n ≤ a)%nat) as [Hle|Hlt].
  - replace (a + n - 1)%nat with ((a - n + n - 1) + 1 * n)%nat by lia.
    rewrite Nat.div_add by lia. lia.
  - replace (a - n + n - 1)%nat with (n - 1)%nat by lia.
    rewrite (Nat.div_small (n - 1)) by lia.
    symmetry. apply (Nat.div_unique _ _ _ (a - 1)); lia.
Qed.

(** There are as many windows as [length ds / n] rounded up: what is left
    at the end makes a window of its own. *)
Lemma length_windows fuel n ds :
  (0 < n)%nat → (length ds ≤ fuel)%nat →
  length (windows fuel n ds) = ((length ds + n - 1) / n)%nat.
Proof.
  intros Hn. revert ds. induction fuel as [|fuel IH]; intros ds Hlen.
  - destruct ds; [|simpl in Hlen; lia]. simpl. by rewrite Nat.div_small by lia.
  - destruct ds as [|x ds'].
    { simpl. by rewrite Nat.div_small by lia. }
    rewrite windows_cons.
    rewrite length_cons, IH by (rewrite length_drop; simpl in *; lia).
    rewrite length_drop. symmetry. apply ceil_div_step; [done|simpl; lia].
Qed.

Lemma windows_elem fuel n ds w :
  (0 < n)%nat → (length ds ≤ fuel)%nat →
  w ∈ windows fuel n ds →
  ∃ k, (k * n < length ds)%nat ∧ w = take n (drop (k * n) ds).
Proof.
  intros Hn Hlen (k & Hk)%list_elem_of_lookup.
  rewrite windows_lookup in Hk by done. case_decide; [|done].
  exists k. split; [done|]. by injection Hk.
Qed.

Lemma slice_nonempty n k ds :
  (0 < n)%nat → (k * n < length ds)%nat → take n (drop (k * n) ds) ≠ [].
Proof.
  intros Hn Hk Hnil. apply (f_equal length) in Hnil.
  rewrite length_take, length_drop in Hnil. simpl in Hnil. lia.
Qed.

Lemma slice_subseteq n k ds x : x ∈ take n (drop (k * n) ds) → x ∈ ds.
Proof. intros Hx. by apply (subseteq_drop (k * n)), (subseteq_take n). Qed.
End BatchingFacts.

Lemma windows_fmap {A B} (f : A → B) fuel n (ds : list A) :
  windows fuel n (f <$> ds) = fmap (M:=list) f <$> windows fuel n ds.
Proof.
  revert ds. induction fuel as [|fuel IH]; intros ds; [done|].
  destruct ds as [|x ds']; [done|].
  rewrite fmap_cons, !windows_cons, <-(fmap_cons f), <-fmap_take, <-fmap_drop, IH.
  by rewrite fmap_cons.
Qed.

Lemma batch_Ok {A} batch_size (ds : list A) ws :
  batch batch_size ds = Ok ws →
  0 < batch_size ∧ ws = windows (length ds) (Z.to_nat batch_size) ds.
Proof.
  unfold batch. destruct (batch_size <=? 0) eqn:E; [done|].
  intros [= <-]. split; [lia|done].
Qed.

Section PaddingFacts.
Context {A : Type}.
Implicit Types (pad : A) (row : list A) (rows : list (list A)).

Lemma length_pad_to L pad row :
  (length row ≤ L)%nat → length (pad_to L pad row) = L.
Proof. intros. unfold pad_to. rewrite length_app, length_replicate. lia. Qed.

Lemma row_le_max rows row :
  row ∈ rows → (length row ≤ max_list (length <$> rows))%nat.
Proof. intros Hin. apply max_list_elem_of_le, list_elem_of_fmap. by exists row. Qed.

(** All the rows of a padded window have the length of its longest row. *)
Lemma pad_rows_length pad rows :
  Forall (λ row, length row = max_list (length <$> rows)) (pad_rows pad rows).
Proof.
  unfold pad_rows. apply Forall_fmap, Forall_forall. intros row Hin. simpl.
  by apply length_pad_to, row_le_max.
Qed.

(** A padded row starts with the original row, and the rest is padding. *)
Lemma pad_to_unchanged L pad row :
  take (length row) (pad_to L pad row) = row ∧
  drop (length row) (pad_to L pad row) = replicate (L - length row) pad.
Proof.
  unfold pad_to. split.
  - by rewrite take_app_length.
  - by rewrite drop_app_length.
Qed.

Lemma length_pad_rows pad rows : length (pad_rows pad rows) = length rows.
Proof. unfold pad_rows. by rewrite length_fmap. Qed.
End PaddingFacts.

(** ** Iterators over a shuffled pipeline *)

Section IteratorFacts.
Context {B : Type}.
Implicit Types (it : Iterator B) (st : IterState B) (b : B).

(** Handing out slot [idx] and moving the front element there keeps the
    buffered elements. *)
Lemma pick_permutation (front : B) rest idx :
  (idx < length (front :: rest))%nat →
  nth idx (front :: rest) front :: tail (<[idx := front]> (front :: rest))
    ≡ₚ front :: rest.
Proof.
  destruct idx as [|i]; [done|]. simpl. intros Hi.
  destruct (lookup_lt_is_Some_2 rest i) as [x Hx]; [lia|].
  rewrite (nth_lookup_Some _ _ _ _ Hx).
  rewrite insert_take_drop by lia.
  rewrite <-(take_drop_middle rest i x Hx) at 3.
  rewrite <-!Permutation_middle. apply Permutation_swap.
Qed.

Lemma get_next_Ok it b it' :
  get_next it = Ok (b, it') →
  ∃ st st', it_state it = Some st ∧ it_state it' = Some st' ∧
    it_pipeline it' = it_pipeline it ∧
    it_draws it' = it_draws it ∧
    it_drawn it' = S (it_drawn it) ∧
    upstream st' =
      drop (pl_buffer_size (it_pipeline it) - length (buffer st)) (upstream st) ∧
    b ∈ filled it st ∧
    b :: buffer st' ≡ₚ filled it st.
Proof.
  unfold get_next, filled, fill. destruct (it_state it) as [st|]; [|done].
  remember (buffer st ++ take _ (upstream st)) as buf eqn:Hbuf.
  destruct buf as [|front rest]; [done|].
  set (idx := (_ mod _)%nat).
  assert (idx < length (front :: rest))%nat as Hidx
    by (apply Nat.mod_upper_bound; done).
  clearbody idx. intros Heq.
  assert (b = nth idx (front :: rest) front) as -> by congruence.
  assert (it_state it' = Some {| upstream :=
            drop (pl_buffer_size (it_pipeline it) - length (buffer st)) (upstream st);
            buffer := tail (<[idx := front]> (front :: rest)) |} ∧
          it_pipeline it' = it_pipeline it ∧ it_draws it' = it_draws it ∧
          it_drawn it' = S (it_drawn it)) as (Hst' & ? & ? & ?).
  { injection Heq as <-. done. }
  exists st. eexists. split; [done|]. split; [exact Hst'|].
  cbn [upstream buffer]. rewrite <-Hbuf. repeat split; try done.
  - by apply nth_elem_of.
  - by apply pick_permutation.
Qed.

Lemma get_next_remaining it b it' :
  get_next it = Ok (b, it') → S (remaining it') = remaining it.
Proof.
  intros (st & st' & Hst & Hst' & _ & _ & _ & Hup & _ & Hperm)%get_next_Ok.
  unfold remaining. rewrite Hst, Hst', Hup.
  apply Permutation_length in Hperm. unfold filled in Hperm.
  rewrite length_cons, length_app, length_take in Hperm.
  rewrite length_drop. lia.
Qed.

Lemma get_next_progress it :
  is_Some (it_state it) → (0 < pl_buffer_size (it_pipeline it))%nat →
  (0 < remaining it)%nat →
  ∃ b it', get_next it = Ok (b, it').
Proof.
  intros [st Hst] HN Hrem. unfold remaining in Hrem. unfold get_next, fill.
  rewrite Hst in *.
  destruct (buffer st ++ _) as [|front rest] eqn:Hbuf; [|by eauto].
  apply (f_equal length) in Hbuf.
  rewrite length_app, length_take in Hbuf. simpl in Hbuf. lia.
Qed.

Lemma get_next_exhausted it :
  is_Some (it_state it) → remaining it = 0%nat →
  get_next it = Raise OutOfRangeError.
Proof.
  intros [st Hst] Hrem. unfold remaining in Hrem. unfold get_next, fill.
  rewrite Hst in *.
  destruct (buffer st) as [|x buf]; [|simpl in Hrem; lia].
  destruct (upstream st) as [|x up]; [|simpl in Hrem; lia].
  by rewrite take_nil.
Qed.

Lemma initializer_remaining it :
  remaining (initializer it) = length (pl_input (it_pipeline it)).
Proof. done. Qed.

(** A pass hands out every element of the pipeline's input once: the
    batches of a pass are a permutation of the batched dataset. *)
Lemma drain_permutation fuel it st :
  it_state it = Some st → (0 < pl_buffer_size (it_pipeline it))%nat →
  (remaining it ≤ fuel)%nat →
  drain fuel it ≡ₚ buffer st ++ upstream st.
Proof.
  revert it st. induction fuel as [|fuel IH]; intros it st Hst HN Hfuel.
  - unfold remaining in Hfuel. rewrite Hst in Hfuel.
    destruct (buffer st), (upstream st); simpl in *; try lia. done.
  - simpl. destruct (get_next it) as [[b it']|e] eqn:Hnext.
    + pose proof (get_next_remaining _ _ _ Hnext) as Hrem.
      apply get_next_Ok in Hnext
        as (st0 & st' & Hst0 & Hst' & Hpl & _ & _ & Hup & _ & Hperm).
      rewrite Hst in Hst0. injection Hst0 as <-.
      rewrite (IH it' st') by (rewrite ?Hpl; done || lia).
      rewrite Hup, app_comm_cons, Hperm. unfold filled.
      by rewrite <-(assoc_L (++)), take_drop.
    + destruct (decide (remaining it = 0)%nat) as [Hz|Hnz].
      * unfold remaining in Hz. rewrite Hst in Hz.
        destruct (buffer st), (upstream st); simpl in *; try lia. done.
      * destruct (get_next_progress it) as (b & it' & Hok); [by eauto|done|lia|].
        congruence.
Qed.

Lemma epoch_batches_permutation it :
  (0 < pl_buffer_size (it_pipeline it))%nat →
  epoch_batches it ≡ₚ pl_input (it_pipeline it).
Proof.
  intros HN. unfold epoch_batches.
  by rewrite (drain_permutation _ (initializer it) _ eq_refl).
Qed.

(** With a buffer of one element the shuffle cannot reorder: whatever the
    draws, a pass hands out the input in its order. *)
Lemma drain_unshuffled fuel it up :
  it_state it = Some {| upstream := up; buffer := [] |} →
  pl_buffer_size (it_pipeline it) = 1%nat →
  drain fuel it = take fuel up.
Proof.
  revert it up. induction fuel as [|fuel IH]; intros it up Hst HN; [done|].
  cbn [drain]. unfold get_next, fill. rewrite Hst, HN.
  destruct up as [|x up]; [done|].
  cbn [buffer upstream length Nat.sub app take drop].
  rewrite Nat.mod_1_r. cbn [nth insert list_insert tail take].
  f_equal. by apply IH.
Qed.

Lemma epoch_batches_unshuffled it :
  pl_buffer_size (it_pipeline it) = 1%nat →
  epoch_batches it = pl_input (it_pipeline it).
Proof.
  intros HN. unfold epoch_batches.
  rewrite (drain_unshuffled _ _ (pl_input (it_pipeline it))) by done.
  by rewrite firstn_all.
Qed.
End IteratorFacts.

(** ** The pipeline of [input_fn] *)

Section InputFnFacts.
Context {W G : Type}.
Implicit Types (sentences : Dataset (list W)) (tags : option (Dataset (list G))).

Lemma input_fn_Ok draws is_training sentences tags batch_size pad_word pad_tag inputs :
  input_fn draws is_training sentences tags batch_size pad_word pad_tag = Ok inputs →
  0 < batch_size ∧
  iterator inputs =
    make_initializable_iterator draws
      {| pl_input := padded_windows sentences tags (Z.to_nat batch_size) pad_word pad_tag;
         pl_buffer_size := if is_training then 100%nat else 1%nat |}.
Proof.
  unfold input_fn, padded_batch_zip, padded_batch, padded_windows.
  destruct tags as [tgs|].
  - destruct (batch batch_size (dataset_zip sentences tgs)) as [ws|e] eqn:Hb; [|done].
    apply batch_Ok in Hb as [Hpos ->]. simpl. intros [= <-]. simpl.
    split; [done|]. unfold make_initializable_iterator, shuffle, prefetch.
    do 2 f_equal. rewrite <-list_fmap_compose. done.
  - destruct (batch batch_size sentences) as [ws|e] eqn:Hb; [|done].
    apply batch_Ok in Hb as [Hpos ->]. simpl. intros [= <-]. simpl.
    split; [done|]. unfold make_initializable_iterator, shuffle, prefetch.
    do 2 f_equal. rewrite <-list_fmap_compose. done.
Qed.

Lemma input_fn_succeeds draws is_training sentences tags batch_size pad_word pad_tag :
  0 < batch_size →
  ∃ inputs,
    input_fn draws is_training sentences tags batch_size pad_word pad_tag = Ok inputs.
Proof.
  intros Hpos. unfold input_fn, padded_batch_zip, padded_batch, batch.
  destruct (batch_size <=? 0) eqn:E; [lia|].
  destruct tags; simpl; eauto.
Qed.

Lemma input_fn_Raise draws is_training sentences tags batch_size pad_word pad_tag e :
  input_fn draws is_training sentences tags batch_size pad_word pad_tag = Raise e →
  batch_size ≤ 0.
Proof.
  intros Hraise. destruct (decide (0 < batch_size)) as [Hpos|]; [|lia].
  destruct (input_fn_succeeds draws is_training sentences tags batch_size
              pad_word pad_tag Hpos) as [inputs Hok].
  congruence.
Qed.

(** The sentence rows of the batched dataset are the padded windows of the
    examples. *)
Lemma padded_windows_sentences sentences tags n pad_word pad_tag :
  sentence <$> padded_windows sentences tags n pad_word pad_tag =
  pad_rows pad_word
    <$> windows (length (examples sentences tags)) n (examples sentences tags).
Proof.
  unfold padded_windows, examples. destruct tags as [tgs|].
  - rewrite windows_fmap, length_fmap, <-!list_fmap_compose. done.
  - rewrite <-list_fmap_compose. apply list_fmap_ext. done.
Qed.

(** The batches of the batched dataset are the windows of the examples,
    sentences and tag sequences padded each on their own. *)
Lemma padded_windows_elem sentences (tgs : option (Dataset (list G))) n pad_word pad_tag
    (b : Batch W G) :
  (0 < n)%nat →
  b ∈ padded_windows sentences tgs n pad_word pad_tag ↔
  ∃ k, (k * n < length (examples sentences tgs))%nat ∧
       sentence b = pad_rows pad_word (take n (drop (k * n) (examples sentences tgs))) ∧
       tags b =
         match tgs with
         | Some _ => Some (pad_rows pad_tag
                             (take n (drop (k * n) (tag_examples sentences tgs))))
         | None => None
         end.
Proof.
  intros Hn. unfold padded_windows, examples, tag_examples.
  destruct tgs as [tg|].
  - set (zipped := dataset_zip sentences tg).
    rewrite list_elem_of_fmap. split.
    + intros (w & -> & Hw). apply windows_elem in Hw as (k & Hk & ->); [|done..].
      exists k. rewrite length_fmap. split; [done|]. simpl.
      by rewrite !fmap_take, !fmap_drop.
    + intros (k & Hk & Hs & Ht). rewrite length_fmap in Hk.
      exists (take n (drop (k * n) zipped)). split.
      * destruct b as [s t]. simpl in *. subst.
        by rewrite !fmap_take, !fmap_drop.
      * apply list_elem_of_lookup. exists k.
        rewrite windows_lookup by done. by rewrite decide_True.
  - rewrite list_elem_of_fmap. split.
    + intros (w & -> & Hw). apply windows_elem in Hw as (k & Hk & ->); [|done..].
      by exists k.
    + intros (k & Hk & Hs & Ht).
      exists (take n (drop (k * n) sentences)). split.
      * destruct b as [s t]. simpl in *. by subst.
      * apply list_elem_of_lookup. exists k.
        rewrite windows_lookup by done. by rewrite decide_True.
Qed.

Lemma length_tag_examples sentences (tgs : option (Dataset (list G))) :
  is_Some tgs → length (tag_examples sentences tgs) = length (examples sentences tgs).
Proof. intros [tg ->]. unfold tag_examples, examples. by rewrite !length_fmap. Qed.

Lemma produced_iff draws is_training sentences tags batch_size pad_word pad_tag inputs b :
  input_fn draws is_training sentences tags batch_size pad_word pad_tag = Ok inputs →
  b ∈ epoch_batches (iterator inputs) ↔
  b ∈ padded_windows sentences tags (Z.to_nat batch_size) pad_word pad_tag.
Proof.
  intros [_ ->]%input_fn_Ok.
  rewrite epoch_batches_permutation; [done|]. simpl. destruct is_training; lia.
Qed.
End InputFnFacts.

Lemma end_to_end_scenario_holds : end_to_end_scenario.
Proof.
  split; [reflexivity|]. intros draws is_training.
  destruct (input_fn_succeeds (G:=Z) draws is_training example_sentences None 2 5 0)
    as [inputs Hin]; [lia|].
  exists inputs. split; [done|].
  apply input_fn_Ok in Hin as [_ Hit].
  apply Permutation_singleton_r. rewrite Hit.
  rewrite epoch_batches_permutation by (simpl; destruct is_training; lia).
  reflexivity.
Qed.

(** C1: every batch [input_fn] produces is one window of the examples.
    Its sentence rows are the sentences of the window, each extended on the
    right by [pad_word], and by nothing else, to the length of the longest
    sentence of the window; when the pipeline was built with tags, its tag
    rows are the tag sequences of the same window, each extended on the
    right by [pad_tag], and by nothing else, to the length of the longest of
    them.  Every window is produced, the last one also when it has fewer
    than [batch_size] examples; and the scenario of the specification comes
    out as one batch with rows [0;1;2] and [3;4;5]. *)
Theorem padded_batcher {W G : Type} (draws : nat → nat) (is_training : bool)
    (sentences : Dataset (list W)) (tgs : option (Dataset (list G)))
    (batch_size : Z) (pad_word : W) (pad_tag : G) (inputs : Inputs W G) :
  input_fn draws is_training sentences tgs batch_size pad_word pad_tag = Ok inputs →
  let n := Z.to_nat batch_size in
  let exs := examples sentences tgs in
  let tag_exs := tag_examples sentences tgs in
  let window k := take n (drop (k * n) exs) in
  let tag_window k := take n (drop (k * n) tag_exs) in
  let L k := max_list (length <$> window k) in
  let LT k := max_list (length <$> tag_window k) in
  let padded_tags k :=
    match tgs with
    | Some _ =>
        Some ((λ row, row ++ replicate (LT k - length row) pad_tag) <$> tag_window k)
    | None => None
    end in
  let produced := epoch_batches (iterator inputs) in
  (∀ b, b ∈ produced →
     ∃ k, (k * n < length exs)%nat ∧ window k ≠ [] ∧
          sentence b = (λ row, row ++ replicate (L k - length row) pad_word) <$> window k ∧
          Forall (λ row, length row = L k) (sentence b) ∧
          tags b = padded_tags k ∧
          Forall (λ row, length row = LT k) (default [] (tags b))) ∧
  (∀ k, (k * n < length exs)%nat →
     ∃ b, b ∈ produced ∧ sentence b = pad_rows pad_word (window k) ∧
          tags b = padded_tags k ∧
          length (sentence b) = (n `min` (length exs - k * n))%nat ∧
          (is_Some tgs → length (default [] (tags b)) = length (sentence b))) ∧
  length produced = ((length exs + n - 1) / n)%nat ∧
  (is_Some tgs → length tag_exs = length exs) ∧
  end_to_end_scenario.
Proof.
  intros Hin n exs tag_exs window tag_window L LT padded_tags produced.
  pose proof (input_fn_Ok _ _ _ _ _ _ _ _ Hin) as [Hpos Hit].
  assert (0 < n)%nat as Hn by lia.
  assert (∀ k, padded_tags k =
            match tgs with
            | Some _ => Some (pad_rows pad_tag (tag_window k))
            | None => None
            end) as Htags by done.
  split_and!.
  - intros b Hb. apply (produced_iff _ _ _ _ _ _ _ _ _ Hin) in Hb.
    apply padded_windows_elem in Hb as (k & Hk & Hs & Ht); [|done].
    exists k. split; [done|]. split; [by apply slice_nonempty|].
    split; [done|]. split; [rewrite Hs; apply pad_rows_length|].
    split; [by rewrite Htags|]. rewrite Ht.
    destruct tgs; simpl; [apply pad_rows_length|done].
  - intros k Hk.
    assert ({| sentence := pad_rows pad_word (window k);
               tags := match tgs with
                       | Some _ => Some (pad_rows pad_tag (tag_window k))
                       | None => None
                       end |} ∈ padded_windows sentences tgs n pad_word pad_tag) as Hb.
    { apply padded_windows_elem; [done|]. by exists k. }
    eexists. split; [by apply (produced_iff _ _ _ _ _ _ _ _ _ Hin)|].
    cbn [sentence tags]. split; [done|]. split; [by rewrite Htags|].
    rewrite length_pad_rows. unfold window. rewrite length_take, length_drop.
    split; [done|]. intros Hsome.
    pose proof (length_tag_examples sentences tgs Hsome) as Hlen.
    destruct tgs as [tg|]; [|by destruct Hsome]. simpl.
    rewrite length_pad_rows. unfold tag_window, tag_exs.
    rewrite length_take, length_drop, Hlen. done.
  - unfold produced. rewrite Hit.
    rewrite epoch_batches_permutation by (simpl; destruct is_training; lia).
    simpl. fold n. rewrite <-(length_fmap sentence), padded_windows_sentences, length_fmap.
    by apply length_windows.
  - apply length_tag_examples.
  - apply end_to_end_scenario_holds.
Qed.

Lemma padded_batcher_witness :
  let inputs : Inputs Z Z :=
    {| iterator := make_initializable_iterator (λ _, 0%nat)
         (shuffle 1 [ {| sentence := [[0; 1; 2]; [3; 4; 5]];
                         tags := Some [[0; 0; 1]; [2; 0; 0]] |} ]) |} in
  let tgs : option (Dataset (list Z)) := Some example_tags in
  let exs := examples example_sentences tgs in
  let tag_exs := tag_examples example_sentences tgs in
  let window k := take 2 (drop (k * 2) exs) in
  let tag_window k := take 2 (drop (k * 2) tag_exs) in
  let L k := max_list (length <$> window k) in
  let LT k := max_list (length <$> tag_window k) in
  let padded_tags k :=
    Some ((λ row, row ++ replicate (LT k - length row) 0) <$> tag_window k) in
  let produced := epoch_batches (iterator inputs) in
  (∀ b, b ∈ produced →
     ∃ k, (k * 2 < length exs)%nat ∧ window k ≠ [] ∧
          sentence b = (λ row, row ++ replicate (L k - length row) 5) <$> window k ∧
          Forall (λ row, length row = L k) (sentence b) ∧
          tags b = padded_tags k ∧
          Forall (λ row, length row = LT k) (default [] (tags b))) ∧
  (∀ k, (k * 2 < length exs)%nat →
     ∃ b, b ∈ produced ∧ sentence b = pad_rows 5 (window k) ∧
          tags b = padded_tags k ∧
          length (sentence b) = (2 `min` (length exs - k * 2))%nat ∧
          (is_Some tgs → length (default [] (tags b)) = length (sentence b))) ∧
  length produced = ((length exs + 2 - 1) / 2)%nat ∧
  (is_Some tgs → length tag_exs = length exs) ∧
  end_to_end_scenario.
Proof.
  apply (padded_batcher (λ _, 0%nat) false example_sentences (Some example_tags) 2 5 0).
  reflexivity.
Defined.

(** ** Sentences and tags of a batch *)

Lemma lengths_agree {W G} (w : list (list W * list G)) :
  Forall (λ ex, length ex.1 = length ex.2) w →
  length <$> w.*1 = length <$> w.*2.
Proof.
  induction 1 as [|ex w Hex _ IH]; [done|].
  rewrite !fmap_cons. by f_equal.
Qed.

(** C8: when every zipped example has as many tags as words, every batch
    has as many tag rows as sentence rows, and all of these rows, of both
    kinds, have one and the same length. *)
Theorem sentence_tag_lengths {W G : Type} (draws : nat → nat) (is_training : bool)
    (sentences : Dataset (list W)) (tgs : Dataset (list G))
    (batch_size : Z) (pad_word : W) (pad_tag : G) (inputs : Inputs W G) :
  input_fn draws is_training sentences (Some tgs) batch_size pad_word pad_tag = Ok inputs →
  Forall (λ ex, length ex.1 = length ex.2) (dataset_zip sentences tgs) →
  Forall (λ b,
    ∃ rows L, tags b = Some rows ∧
      length (sentence b) = length rows ∧
      Forall (λ row, length row = L) (sentence b) ∧
      Forall (λ row, length row = L) rows ∧
      Forall2 (λ s t, length s = length t) (sentence b) rows)
    (epoch_batches (iterator inputs)).
Proof.
  intros Hin Heq. apply Forall_forall. intros b Hb.
  apply (produced_iff _ _ _ _ _ _ _ _ _ Hin) in Hb.
  pose proof (input_fn_Ok _ _ _ _ _ _ _ _ Hin) as [Hpos _].
  unfold padded_windows in Hb.
  apply list_elem_of_fmap in Hb as (w & -> & Hw).
  apply windows_elem in Hw as (k & Hk & ->); [|lia|done].
  set (w := take _ _).
  assert (Forall (λ ex, length ex.1 = length ex.2) w) as Hw.
  { apply Forall_forall. intros ex Hex%slice_subseteq.
    by apply (proj1 (Forall_forall _ _) Heq). }
  pose proof (lengths_agree w Hw) as Hlen.
  exists (pad_rows pad_tag (w.*2)), (max_list (length <$> w.*1)). simpl.
  split; [done|]. split; [by rewrite !length_pad_rows, !length_fmap|].
  split; [apply pad_rows_length|].
  split; [rewrite Hlen; apply pad_rows_length|].
  apply Forall2_same_length_lookup_2.
  { by rewrite !length_pad_rows, !length_fmap. }
  intros i s t Hs Ht.
  pose proof (proj1 (Forall_lookup _ _) (pad_rows_length pad_word (w.*1)) i s Hs) as ->.
  pose proof (proj1 (Forall_lookup _ _) (pad_rows_length pad_tag (w.*2)) i t Ht) as ->.
  by rewrite Hlen.
Qed.

Lemma sentence_tag_lengths_witness :
  let inputs : Inputs Z Z :=
    {| iterator := make_initializable_iterator (λ _, 0%nat)
         (shuffle 100 [ {| sentence := [[0; 1; 2]; [3; 4; 5]];
                           tags := Some [[0; 0; 1]; [2; 0; 0]] |} ]) |} in
  Forall (λ b,
    ∃ rows L, tags b = Some rows ∧
      length (sentence b) = length rows ∧
      Forall (λ row, length row = L) (sentence b) ∧
      Forall (λ row, length row = L) rows ∧
      Forall2 (λ s t, length s = length t) (sentence b) rows)
    (epoch_batches (iterator inputs)).
Proof.
  apply (sentence_tag_lengths (λ _, 0%nat) true example_sentences example_tags 2 5 0).
  - reflexivity.
  - repeat constructor.
Defined.

(** ** Restarting the evaluation pipeline *)

Lemma advance_pipeline {B} n (it : Iterator B) :
  it_pipeline (advance n it) = it_pipeline it.
Proof.
  revert it. induction n as [|n IH]; intros it; [done|]. simpl.
  destruct (get_next it) as [[b it']|e] eqn:Hnext; [|done].
  rewrite IH. by apply get_next_Ok in Hnext as (_ & _ & _ & _ & -> & _).
Qed.

(** C7: the evaluation pipeline ([is_training = False], buffer of size 1)
    built twice over the same data hands out the same batches in the same
    order, whatever the random draws; and after any number of batches has
    been consumed, initialising the iterator again replays the same
    batches from the start. *)
Theorem evaluation_restarts {W G : Type} (draws1 draws2 : nat → nat)
    (sentences : Dataset (list W)) (tags : option (Dataset (list G)))
    (batch_size : Z) (pad_word : W) (pad_tag : G) (in1 in2 : Inputs W G) (n : nat) :
  input_fn draws1 false sentences tags batch_size pad_word pad_tag = Ok in1 →
  input_fn draws2 false sentences tags batch_size pad_word pad_tag = Ok in2 →
  epoch_batches (iterator in1) =
    padded_windows sentences tags (Z.to_nat batch_size) pad_word pad_tag ∧
  epoch_batches (iterator in2) = epoch_batches (iterator in1) ∧
  epoch_batches (advance n (initializer (iterator in1))) = epoch_batches (iterator in1).
Proof.
  intros [_ H1]%input_fn_Ok [_ H2]%input_fn_Ok.
  rewrite !epoch_batches_unshuffled; rewrite ?advance_pipeline, ?H1, ?H2; done.
Qed.

Lemma evaluation_restarts_witness :
  let batches : list (Batch Z Z) :=
    [ {| sentence := [[0; 1; 2]]; tags := Some [[0; 0; 1]] |};
      {| sentence := [[3; 4]]; tags := Some [[2; 0]] |} ] in
  let in1 := {| iterator := make_initializable_iterator (λ _, 0%nat) (shuffle 1 batches) |} in
  let in2 := {| iterator := make_initializable_iterator (λ k, k) (shuffle 1 batches) |} in
  epoch_batches (iterator in1) = batches ∧
  epoch_batches (iterator in2) = epoch_batches (iterator in1) ∧
  epoch_batches (advance 1 (initializer (iterator in1))) = epoch_batches (iterator in1).
Proof.
  apply (evaluation_restarts (λ _, 0%nat) (λ k, k) example_sentences (Some example_tags)
           1 5 0 _ _ 1); reflexivity.
Defined.

(** ** The window of the shuffle *)

(** C4, counterexample: with the buffer of 100 batches that [input_fn]
    uses for training and three batches upstream, draws that pick slot 2
    hand out the batches of positions 2, 1, 0: the batch at output
    position 2 comes from upstream position 0. *)
Lemma shuffle_reaches_back :
  shuffled (λ _, 2%nat) 100 (tagged ["x"; "y"; "z"]%string)
    = [(2%nat, "z"); (1%nat, "y"); (0%nat, "x")]%string ∧
  ¬ within_window (λ _, 2%nat) 100 ["x"; "y"; "z"]%string.
Proof.
  split; [reflexivity|].
  intros H. specialize (H 2%nat 0%nat "x"%string eq_refl). lia.
Qed.

Section ShuffleWindow.
Context {B : Type}.
Implicit Types (ds : list B) (it : Iterator (nat * B)).

Lemma tagged_lookup ds j e : tagged ds !! j = Some e → e.1 = j ∧ ds !! j = Some e.2.
Proof.
  unfold tagged. rewrite list_lookup_imap.
  destruct (ds !! j) as [b|]; [|done]. by intros [= <-].
Qed.

Lemma tagged_elem ds e : e ∈ tagged ds → ds !! e.1 = Some e.2.
Proof.
  intros (j & Hj)%list_elem_of_lookup.
  by apply tagged_lookup in Hj as [-> ?].
Qed.

Lemma window_inv_step ds k it e it' :
  window_inv ds k it →
  get_next it = Ok (e, it') →
  (e.1 < k + pl_buffer_size (it_pipeline it))%nat ∧ window_inv ds (S k) it'.
Proof.
  intros (st & pulled & Hst & Hup & Hpulled & Hlen & Hbuf) Hnext.
  apply get_next_Ok in Hnext
    as (st0 & st' & Hst0 & Hst' & Hpl & _ & _ & Hup' & Hin & Hperm).
  rewrite Hst in Hst0. injection Hst0 as <-.
  set (N := pl_buffer_size (it_pipeline it)) in *.
  set (m := (N - length (buffer st))%nat) in *.
  set (pulled' := (pulled + length (take m (upstream st)))%nat).
  assert (Forall (λ e, e.1 < pulled')%nat (filled it st)) as Hfilled.
  { unfold filled. fold N m. apply Forall_app. split.
    - eapply Forall_impl; [exact Hbuf|]. simpl. intros. unfold pulled'. lia.
    - apply Forall_lookup. intros q x Hq.
      pose proof (lookup_lt_Some _ _ _ Hq) as Hlt.
      rewrite lookup_take_Some in Hq. destruct Hq as [Hq Hqm].
      rewrite Hup, lookup_drop in Hq. apply tagged_lookup in Hq as [-> _].
      unfold pulled'. lia. }
  assert (length (filled it st) ≤ N)%nat as Hfl.
  { unfold filled. fold N m. rewrite length_app, length_take. lia. }
  assert (pulled' = k + length (filled it st))%nat as Hp'.
  { unfold pulled', filled. fold N m. rewrite length_app. lia. }
  pose proof (Permutation_length Hperm) as Hplen. rewrite length_cons in Hplen.
  split.
  - pose proof (proj1 (Forall_forall _ _) Hfilled e Hin). simpl in *. lia.
  - exists st', pulled'. split; [done|]. split; [|split; [|split]].
    + rewrite Hup'. fold N m. rewrite Hup. unfold pulled'.
      rewrite length_take, drop_drop, Hup, length_drop.
      destruct (decide (m ≤ length (tagged ds) - pulled)%nat).
      * f_equal. lia.
      * rewrite !drop_ge; [done|lia..].
    + lia.
    + rewrite Hpl. fold N. lia.
    + rewrite <-Hperm in Hfilled. by apply Forall_cons in Hfilled as [_ ?].
Qed.

Lemma drain_window ds fuel k it i e :
  window_inv ds k it →
  drain fuel it !! i = Some e →
  (e.1 < k + i + pl_buffer_size (it_pipeline it))%nat.
Proof.
  revert k it i. induction fuel as [|fuel IH]; intros k it i Hinv; [done|].
  simpl. destruct (get_next it) as [[e0 it']|err] eqn:Hnext; [|done].
  destruct (window_inv_step _ _ _ _ _ Hinv Hnext) as [Hlt Hinv'].
  apply get_next_Ok in Hnext as (_ & _ & _ & _ & Hpl & _).
  destruct i as [|i]; simpl.
  - intros [= <-]. lia.
  - intros He. pose proof (IH _ _ _ Hinv' He) as H. rewrite Hpl in H. lia.
Qed.
End ShuffleWindow.

Lemma tagged_snd {B} (ds : list B) : (tagged ds).*2 = ds.
Proof.
  apply list_eq. intros i. unfold tagged.
  rewrite list_lookup_fmap, list_lookup_imap. by destruct (ds !! i).
Qed.

Lemma drain_fmap {A B} (f : A → B) fuel (it : Iterator A) (it' : Iterator B) stA :
  it_state it = Some stA →
  it_state it' = Some {| upstream := f <$> upstream stA; buffer := f <$> buffer stA |} →
  it_draws it' = it_draws it → it_drawn it' = it_drawn it →
  pl_buffer_size (it_pipeline it') = pl_buffer_size (it_pipeline it) →
  drain fuel it' = f <$> drain fuel it.
Proof.
  revert it it' stA. induction fuel as [|fuel IH]; intros it it' stA Hst Hst' Hd Hn HN; [done|].
  cbn [drain]. unfold get_next, fill. rewrite Hst, Hst', Hd, Hn, HN.
  cbn [upstream buffer]. rewrite length_fmap, <-fmap_take, <-fmap_drop, <-fmap_app.
  destruct (buffer stA ++ _) as [|front rest] eqn:Hbuf; [done|].
  rewrite fmap_cons, <-(fmap_cons f), length_fmap.
  set (idx := (_ mod _)%nat).
  etrans; [|symmetry; apply fmap_cons]. f_equal.
  - rewrite !nth_lookup, list_lookup_fmap.
    by destruct (_ !! idx).
  - eapply IH; cbn [it_state it_draws it_drawn it_pipeline]; try done.
    cbn [upstream buffer]. do 2 f_equal.
    rewrite <-list_fmap_insert. by destruct (<[idx:=front]> _).
Qed.

(** C4, amended: the batches a pass hands out are those upstream, each
    once, and the batch at output position [i] comes from an upstream
    position of at most [i + N - 1]: the shuffle never runs more than
    [N - 1] positions ahead.  It may hand out a batch from any earlier
    position. *)
Theorem shuffle_window {B : Type} (draws : nat → nat) (N : nat) (ds : list B) :
  (0 < N)%nat →
  shuffled draws N ds = snd <$> shuffled draws N (tagged ds) ∧
  shuffled draws N ds ≡ₚ ds ∧
  ∀ i j b, shuffled draws N (tagged ds) !! i = Some (j, b) →
           ds !! j = Some b ∧ (j ≤ i + N - 1)%nat.
Proof.
  intros HN. split; [|split].
  - unfold shuffled, epoch_batches. cbn [it_pipeline make_initializable_iterator
      shuffle pl_input].
    replace (length (tagged ds)) with (length ds)
      by (unfold tagged; by rewrite length_imap).
    eapply drain_fmap; cbn [it_state initializer it_pipeline pl_input
      make_initializable_iterator shuffle upstream buffer]; try done.
    cbn [upstream buffer]. by rewrite (tagged_snd ds).
  - unfold shuffled. by rewrite epoch_batches_permutation.
  - intros i j b Hi. split.
    + assert ((j, b) ∈ tagged ds) as Hin.
      { unfold shuffled in Hi. apply list_elem_of_lookup_2 in Hi.
        by rewrite epoch_batches_permutation in Hi. }
      by apply tagged_elem in Hin.
    + unfold shuffled, epoch_batches in Hi.
      eapply (drain_window ds _ 0) in Hi; [simpl in *; lia|].
      eexists _, 0%nat. cbn [it_state initializer upstream buffer it_pipeline
        make_initializable_iterator shuffle pl_input pl_buffer_size].
      repeat split; try done. simpl. lia.
Qed.

Lemma shuffle_window_witness :
  let ds := ["x"; "y"; "z"]%string in
  shuffled (λ _, 2%nat) 100 ds = snd <$> shuffled (λ _, 2%nat) 100 (tagged ds) ∧
  shuffled (λ _, 2%nat) 100 ds ≡ₚ ds ∧
  ∀ i j b, shuffled (λ _, 2%nat) 100 (tagged ds) !! i = Some (j, b) →
           ds !! j = Some b ∧ (j ≤ i + 100 - 1)%nat.
Proof.
  apply (shuffle_window (λ _, 2%nat) 100 ["x"; "y"; "z"]%string). lia.
Defined.

(** ** The step loops *)

Section LoopFacts.
Context {W G : Type}.
Implicit Types (it : Iterator (Batch W G)) (sess : Session) (params : Params).

Lemma ready_initializer it :
  (0 < pl_buffer_size (it_pipeline it))%nat → ready (initializer it).
Proof. intros HN. split; [by eexists|done]. Qed.

Lemma get_next_ready it b it' : ready it → get_next it = Ok (b, it') → ready it'.
Proof.
  intros [_ HN] (_ & st' & _ & Hst' & Hpl & _)%get_next_Ok.
  split; [by eexists|by rewrite Hpl].
Qed.

Lemma evaluate_loop_Ok n it :
  ready it → (n ≤ remaining it)%nat →
  ∃ it', evaluate_loop n it = Ok it' ∧
         it_drawn it' = (it_drawn it + n)%nat ∧
         it_pipeline it' = it_pipeline it.
Proof.
  revert it. induction n as [|n IH]; intros it Hready Hn.
  - exists it. by rewrite Nat.add_0_r.
  - destruct Hready as [Hst HN].
    destruct (get_next_progress it Hst HN) as (b & it1 & Hnext); [lia|].
    pose proof (get_next_remaining _ _ _ Hnext) as Hrem.
    destruct (IH it1) as (it' & Hloop & Hd & Hpl);
      [by eapply get_next_ready|lia|].
    apply get_next_Ok in Hnext as Hfacts.
    destruct Hfacts as (_ & _ & _ & _ & Hpl1 & _ & Hd1 & _).
    exists it'. simpl. rewrite Hnext. simpl. split; [done|].
    rewrite Hd, Hd1, Hpl, Hpl1. split; [lia|done].
Qed.

Lemma evaluate_loop_exhausted n it :
  ready it → (remaining it < n)%nat →
  evaluate_loop n it = Raise OutOfRangeError.
Proof.
  revert it. induction n as [|n IH]; intros it Hready Hn; [lia|].
  simpl. destruct (decide (remaining it = 0)%nat) as [Hz|Hnz].
  - rewrite get_next_exhausted; [done|apply Hready|done].
  - destruct Hready as [Hst HN].
    destruct (get_next_progress it Hst HN) as (b & it1 & Hnext); [lia|].
    pose proof (get_next_remaining _ _ _ Hnext) as Hrem.
    rewrite Hnext. simpl. apply IH; [by eapply get_next_ready|lia].
Qed.

Lemma evaluate_loop_drawn n it it' :
  evaluate_loop n it = Ok it' → it_drawn it' = (it_drawn it + n)%nat.
Proof.
  revert it. induction n as [|n IH]; intros it; simpl.
  - intros [= <-]. lia.
  - destruct (get_next it) as [[b it1]|e] eqn:Hnext; [|done]. simpl.
    intros ->%IH.
    apply get_next_Ok in Hnext as (_ & _ & _ & _ & _ & _ & -> & _). lia.
Qed.

Lemma train_loop_Ok params i n sess it writer :
  save_summary_steps params ≠ 0 →
  ready it → (n ≤ remaining it)%nat →
  ∃ sess' it' writer',
    train_loop params i n sess it writer = Ok (sess', it', writer') ∧
    it_pipeline it' = it_pipeline it ∧
    evaluations sess' = evaluations sess.
Proof.
  intros Hsss. revert i sess it writer.
  induction n as [|n IH]; intros i sess it writer Hready Hn.
  - by exists sess, it, writer.
  - destruct Hready as [Hst HN].
    destruct (get_next_progress it Hst HN) as (b & it1 & Hnext); [lia|].
    pose proof (get_next_remaining _ _ _ Hnext) as Hrem.
    simpl. unfold pymod. rewrite (proj2 (Z.eqb_neq _ _) Hsss). simpl.
    rewrite Hnext. simpl.
    edestruct (IH (S i)) as (sess' & it' & writer' & Hloop & Hpl & Hev);
      [by eapply get_next_ready|lia|].
    exists sess', it', writer'. split; [exact Hloop|].
    apply get_next_Ok in Hnext as (_ & _ & _ & _ & Hpl1 & _).
    split; [by rewrite Hpl, Hpl1|by rewrite Hev].
Qed.

Lemma train_loop_exhausted params i n sess it writer :
  save_summary_steps params ≠ 0 →
  ready it → (remaining it < n)%nat →
  train_loop params i n sess it writer = Raise OutOfRangeError.
Proof.
  intros Hsss. revert i sess it writer.
  induction n as [|n IH]; intros i sess it writer Hready Hn; [lia|].
  simpl. unfold pymod. rewrite (proj2 (Z.eqb_neq _ _) Hsss). simpl.
  destruct (decide (remaining it = 0)%nat) as [Hz|Hnz].
  - rewrite get_next_exhausted; [done|apply Hready|done].
  - destruct Hready as [Hst HN].
    destruct (get_next_progress it Hst HN) as (b & it1 & Hnext); [lia|].
    pose proof (get_next_remaining _ _ _ Hnext) as Hrem.
    rewrite Hnext. simpl. apply IH; [by eapply get_next_ready|lia].
Qed.

(** Every step of the training loop pulls one batch and advances the
    global step. *)
Lemma train_loop_counts params i n sess it writer sess' it' writer' :
  train_loop params i n sess it writer = Ok (sess', it', writer') →
  global_step sess' = (global_step sess + n)%nat ∧
  it_drawn it' = (it_drawn it + n)%nat ∧
  evaluations sess' = evaluations sess.
Proof.
  revert i sess it writer. induction n as [|n IH]; intros i sess it writer; simpl.
  - intros [= <- <- <-]. lia.
  - destruct (pymod _ _) as [r|e]; [|done]. simpl.
    destruct (get_next it) as [[b it1]|e] eqn:Hnext; [|done]. simpl.
    intros (Hg & Hd & He)%IH. simpl in *.
    apply get_next_Ok in Hnext as (_ & _ & _ & _ & _ & _ & Hd1 & _).
    rewrite Hg, Hd, Hd1, He. lia.
Qed.
End LoopFacts.

(** ** One epoch *)

Section EpochFacts.
Context {W G : Type}.
Implicit Types (r : Run (W:=W) (G:=G)) (params : Params) (model : Model).

Lemma final_metrics_accuracy model k :
  final_metrics model k !! "accuracy"%string = Some (eval_accuracy model k).
Proof. unfold final_metrics. apply lookup_insert_eq. Qed.

Lemma evaluate_Ok model sess (spec : ModelSpec W G) num_steps writer sess' spec' metrics :
  evaluate model sess spec num_steps writer = Ok (sess', spec', metrics) →
  evaluate_loop (Z.to_nat num_steps) (initializer (spec_iterator spec))
    = Ok (spec_iterator spec') ∧
  metrics = final_metrics model (evaluations sess) ∧
  evaluations sess' = S (evaluations sess) ∧
  global_step sess' = global_step sess.
Proof.
  unfold evaluate. destruct (evaluate_loop _ _) as [it'|e]; [|done]. simpl.
  by intros [= <- <- <-].
Qed.

Lemma train_Ok sess (spec : ModelSpec W G) params num_steps writer sess' spec' writer' :
  train sess spec params num_steps writer = Ok (sess', spec', writer') →
  train_loop params 0 (Z.to_nat num_steps) sess (initializer (spec_iterator spec)) writer
    = Ok (sess', spec_iterator spec', writer').
Proof.
  unfold train. destruct (train_loop _ _ _ _ _ _) as [[[s i] w]|e]; [|done]. simpl.
  by intros [= <- <- <-].
Qed.

(** A successful epoch: the two phases ran with their step counts, and
    the checkpoint state moved by [book_step]. *)
Lemma epoch_body_Ok model model_dir params epoch r r' :
  epoch_body model model_dir params epoch r = Ok r' →
  let k := evaluations (run_sess r) in
  batch_size params ≠ 0 ∧
  (∃ sess1 writer1,
     train (run_sess r) (run_train_spec r) params (train_steps params) (run_train_writer r)
       = Ok (sess1, run_train_spec r', writer1) ∧
     evaluate model sess1 (run_eval_spec r) (eval_steps params) (run_eval_writer r)
       = Ok (run_sess r', run_eval_spec r', final_metrics model k)) ∧
  evaluations (run_sess r') = S k ∧
  book_of r' = book_step model_dir epoch (final_metrics model k) (eval_accuracy model k)
                 (book_of r).
Proof.
  unfold epoch_body, floordiv, train_steps, eval_steps.
  destruct (batch_size params =? 0) eqn:Hbs; [done|]. simpl.
  destruct (train _ _ _ _ _) as [[[sess1 tspec] tw]|e] eqn:Htrain; [|done]. simpl.
  destruct (saver_save (last_saver r) _ _) as [ls d1] eqn:Hlast.
  destruct (evaluate _ _ _ _ _) as [[[sess2 espec] metrics]|e] eqn:Heval; [|done]. simpl.
  pose proof (evaluate_Ok _ _ _ _ _ _ _ _ Heval) as (_ & -> & Hev & _).
  pose proof (train_loop_counts _ _ _ _ _ _ _ _ _ (train_Ok _ _ _ _ _ _ _ _ Htrain))
    as (_ & _ & Hev1).
  rewrite final_metrics_accuracy. simpl. rewrite Hev1.
  unfold book_step, book_of. cbn [bk_last bk_best bk_disk bk_acc].
  rewrite Hlast. cbn [fst snd].
  destruct (best_eval_acc r <=? _)%float eqn:Hcmp.
  - destruct (saver_save (best_saver r) d1 _) as [bs d2] eqn:Hbest.
    intros [= <-]. simpl. rewrite <-Hev1.
    split; [by apply Z.eqb_neq|]. split; [by eauto|]. split; [by rewrite Hev, Hev1|done].
  - intros [= <-]. simpl. rewrite <-Hev1.
    split; [by apply Z.eqb_neq|]. split; [by eauto|]. split; [by rewrite Hev, Hev1|done].
Qed.

Lemma epoch_body_succeeds model model_dir params epoch r sess1 tspec writer1 sess2 espec m :
  batch_size params ≠ 0 →
  train (run_sess r) (run_train_spec r) params (train_steps params) (run_train_writer r)
    = Ok (sess1, tspec, writer1) →
  evaluate model sess1 (run_eval_spec r) (eval_steps params) (run_eval_writer r)
    = Ok (sess2, espec, m) →
  ∃ r', epoch_body model model_dir params epoch r = Ok r' ∧
        run_train_spec r' = tspec ∧ run_eval_spec r' = espec.
Proof.
  intros Hbs Htrain Heval.
  unfold epoch_body, floordiv. fold (train_steps params) (eval_steps params).
  rewrite (proj2 (Z.eqb_neq _ _) Hbs). simpl. rewrite Htrain. simpl.
  destruct (saver_save (last_saver r) _ _) as [ls d1].
  rewrite Heval. simpl.
  pose proof (evaluate_Ok _ _ _ _ _ _ _ _ Heval) as (_ & -> & _).
  rewrite final_metrics_accuracy. simpl.
  destruct (best_eval_acc r <=? _)%float.
  - destruct (saver_save (best_saver r) d1 _) as [bs d2]. by eexists.
  - by eexists.
Qed.
End EpochFacts.

(** ** Paths *)

Lemma path_join_relative a b :
  starts_with_slash b = false → path_join a b = join_prefix a +:+ b.
Proof.
  intros Hb. unfold path_join, join_prefix. rewrite Hb.
  destruct (decide (a = EmptyString)) as [|Ha]; [done|].
  destruct (ends_with_slash a); [done|].
  clear Ha. induction a as [|c a IH]; [done|].
  change (String c (a +:+ "/" +:+ b) = String c ((a +:+ "/") +:+ b)). by f_equal.
Qed.

Lemma path_join_inj a b c :
  starts_with_slash b = false → starts_with_slash c = false →
  path_join a b = path_join a c → b = c.
Proof.
  intros Hb Hc. rewrite !path_join_relative by done.
  apply (inj (String.app (join_prefix a))).
Qed.

Lemma last_dir_best_dir model_dir : last_dir model_dir ≠ best_dir model_dir.
Proof. intros H. by apply path_join_inj in H. Qed.

Lemma best_json_last_json model_dir : best_json_path model_dir ≠ last_json_path model_dir.
Proof. intros H. by apply path_join_inj in H. Qed.

(** ** The savers *)

Section SaverFacts.
Implicit Types (sv : Saver) (d : Disk) (p q : CheckpointPath).

Lemma saver_save_unfold sv d p :
  saver_save sv d p =
    if decide (max_to_keep sv ≠ 0%nat ∧ (max_to_keep sv < length (recent_of sv p))%nat)
    then ({| max_to_keep := max_to_keep sv; last_checkpoints := tail (recent_of sv p) |},
          {| checkpoints := (checkpoints d ∪ {[ p ]}) ∖ {[ default p (head (recent_of sv p)) ]};
             checkpoint_state := <[ p.1.1 := p ]> (checkpoint_state d);
             json_files := json_files d |})
    else ({| max_to_keep := max_to_keep sv; last_checkpoints := recent_of sv p |},
          {| checkpoints := checkpoints d ∪ {[ p ]};
             checkpoint_state := <[ p.1.1 := p ]> (checkpoint_state d);
             json_files := json_files d |}).
Proof.
  unfold saver_save. fold (recent_of sv p).
  destruct (recent_of sv p) as [|oldest rest] eqn:Hrec; [|done].
  unfold recent_of in Hrec. by destruct (filter _ _).
Qed.

Lemma saver_save_json sv d p : json_files (saver_save sv d p).2 = json_files d.
Proof. rewrite saver_save_unfold. by case_decide. Qed.

Lemma saver_save_max sv d p : max_to_keep (saver_save sv d p).1 = max_to_keep sv.
Proof. rewrite saver_save_unfold. by case_decide. Qed.

Lemma recent_of_fresh sv p :
  p ∉ last_checkpoints sv → recent_of sv p = last_checkpoints sv ++ [p].
Proof.
  intros Hp. unfold recent_of. f_equal.
  induction (last_checkpoints sv) as [|q l IH]; [done|].
  apply not_elem_of_cons in Hp as [Hne Hp].
  rewrite filter_cons_True by done. f_equal. by apply IH.
Qed.

Lemma recent_of_NoDup sv p : NoDup (last_checkpoints sv) → NoDup (recent_of sv p).
Proof.
  intros Hnd. unfold recent_of. apply NoDup_app. split; [by apply NoDup_filter|].
  split; [|apply NoDup_singleton].
  intros q [Hq _]%list_elem_of_filter ->%list_elem_of_singleton. done.
Qed.

Lemma recent_of_last sv p : last (recent_of sv p) = Some p.
Proof. unfold recent_of. apply last_snoc. Qed.

(** A save writes its checkpoint, and never deletes it at once. *)
Lemma saver_save_written sv d p :
  p ∈ checkpoints (saver_save sv d p).2 ∧
  last (last_checkpoints (saver_save sv d p).1) = Some p.
Proof.
  rewrite saver_save_unfold.
  pose proof (recent_of_last sv p) as Hlast. unfold recent_of in *.
  case_decide as Hfull; simpl;
    [|split; [by apply elem_of_union_r, elem_of_singleton|done]].
  destruct (filter (λ q, q ≠ p) (last_checkpoints sv)) as [|oldest rest] eqn:Hfilter.
  { simpl in Hfull. lia. }
  assert (oldest ≠ p) as Hne.
  { assert (oldest ∈ filter (λ q, q ≠ p) (last_checkpoints sv)) as Hin
      by (rewrite Hfilter; apply list_elem_of_here).
    by apply list_elem_of_filter in Hin as [? _]. }
  simpl. split.
  - apply elem_of_difference. split; [by apply elem_of_union_r, elem_of_singleton|].
    rewrite elem_of_singleton. congruence.
  - simpl in Hlast. by destruct rest.
Qed.

Lemma elem_of_recent_of sv p q :
  q ∈ recent_of sv p ↔ q ∈ last_checkpoints sv ∨ q = p.
Proof.
  unfold recent_of. rewrite elem_of_app, list_elem_of_filter, list_elem_of_singleton.
  destruct (decide (q = p)); tauto.
Qed.

(** What a save leaves on disk: what was there and the new checkpoint,
    less the checkpoint that left the list. *)
Lemma saver_save_disk sv d p q :
  NoDup (last_checkpoints sv) →
  q ∈ checkpoints (saver_save sv d p).2 ↔
  (q ∈ checkpoints d ∨ q = p) ∧
  (q ∈ recent_of sv p → q ∈ last_checkpoints (saver_save sv d p).1).
Proof.
  intros Hnd. pose proof (recent_of_NoDup sv p Hnd) as Hrnd.
  rewrite saver_save_unfold.
  case_decide as Hfull; cbn [fst snd checkpoints last_checkpoints].
  - destruct (recent_of sv p) as [|oldest rest] eqn:Hrec; [simpl in Hfull; lia|]. simpl.
    apply NoDup_cons in Hrnd as [Hnotin _].
    rewrite elem_of_difference, elem_of_union, !elem_of_singleton, elem_of_cons.
    split.
    + intros [Hq Hne]. split; [done|]. by intros [?|?].
    + intros [Hq Himp]. split; [done|]. intros ->. apply Hnotin, Himp. by left.
  - rewrite elem_of_union, elem_of_singleton. tauto.
Qed.
End SaverFacts.

(** ** The checkpoint policy *)

#[global] Instance last_path_inj model_dir : Inj (=) (=) (last_path model_dir).
Proof. by intros n m [= ->]. Qed.

Lemma last_kept_snoc k :
  last_kept k ++ [S k] =
    if decide (5 ≤ k)%nat then S (k - 5) :: last_kept (S k) else last_kept (S k).
Proof.
  unfold last_kept. case_decide.
  - rewrite !Nat.min_r by lia.
    replace [S k] with [(S (k - 5) + 5)%nat] by (f_equal; lia).
    rewrite <-seq_S. replace (S k - 5)%nat with (S (k - 5)) by lia. done.
  - rewrite !Nat.min_l by lia.
    replace (k - k)%nat with 0%nat by lia.
    replace (S k - S k)%nat with 0%nat by lia.
    by rewrite seq_S.
Qed.

Lemma best_so_far_kept acc k e : (best_so_far acc k).2 = Some e → (1 ≤ e ≤ k)%nat.
Proof.
  revert e. induction k as [|k IH]; intros e; [done|]. simpl.
  destruct (best_so_far acc k) as [best kept].
  destruct (best <=? acc k)%float; simpl.
  - intros [= <-]. lia.
  - intros He. specialize (IH e He). lia.
Qed.

Section Policy.
Context (model_dir : string).
Implicit Types (sv : Saver) (d : Disk).

Lemma last_list_step sv d k :
  max_to_keep sv = 5%nat →
  last_checkpoints sv = last_path model_dir <$> last_kept k →
  last_checkpoints (saver_save sv d (last_path model_dir (S k))).1
    = last_path model_dir <$> last_kept (S k).
Proof.
  intros Hmax Hlist.
  assert (recent_of sv (last_path model_dir (S k))
          = last_path model_dir <$> (last_kept k ++ [S k])) as Hrec.
  { rewrite recent_of_fresh, Hlist, fmap_app; [done|].
    rewrite Hlist. intros (n & [= Hn] & Hin)%list_elem_of_fmap.
    unfold last_kept in Hin. apply elem_of_seq in Hin. lia. }
  assert (length (last_kept k) = k `min` 5)%nat as Hlen
    by (unfold last_kept; apply length_seq).
  rewrite saver_save_unfold, Hrec, Hmax, length_fmap, length_app, Hlen, last_kept_snoc.
  cbn [length].
  destruct (decide (5 ≤ k)%nat).
  - rewrite decide_True by lia. done.
  - rewrite decide_False by lia. done.
Qed.

Lemma best_list_step sv d k kept :
  max_to_keep sv = 1%nat →
  last_checkpoints sv = best_path model_dir <$> option_list kept →
  (∀ e, kept = Some e → (e ≤ k)%nat) →
  last_checkpoints (saver_save sv d (best_path model_dir (S k))).1
    = [best_path model_dir (S k)].
Proof.
  intros Hmax Hlist Hkept.
  rewrite saver_save_unfold, recent_of_fresh, Hlist, Hmax.
  - destruct kept as [e|]; simpl; by repeat case_decide.
  - rewrite Hlist. destruct kept as [e|]; simpl; [|by apply not_elem_of_nil].
    intros [= He]%list_elem_of_singleton. specialize (Hkept e eq_refl). lia.
Qed.

End Policy.

(** ** What a run does to the disk *)

Lemma saver_save_state sv d p :
  checkpoint_state (saver_save sv d p).2 = <[ p.1.1 := p ]> (checkpoint_state d).
Proof. rewrite saver_save_unfold. by case_decide. Qed.

(** A save adds its checkpoint and nothing else, to the list and to the
    disk, and deletes from the disk nothing that is not in the list. *)
Lemma saver_save_effect sv d p :
  (∀ q, q ∈ last_checkpoints (saver_save sv d p).1 → q ∈ last_checkpoints sv ∨ q = p) ∧
  (∀ q, q ∈ checkpoints (saver_save sv d p).2 → q ∈ checkpoints d ∨ q = p) ∧
  (∀ q, q ∈ checkpoints d → q ∉ last_checkpoints sv → q ∈ checkpoints (saver_save sv d p).2).
Proof.
  assert (∀ q, q ∈ recent_of sv p → q ∈ last_checkpoints sv ∨ q = p) as Hrec.
  { unfold recent_of. intros q [[_ ?]%list_elem_of_filter|?%list_elem_of_singleton]%elem_of_app;
      [by left|by right]. }
  rewrite saver_save_unfold. case_decide as Hfull; cbn [fst snd last_checkpoints checkpoints].
  - split_and!.
    + intros q Hq. apply Hrec. destruct (recent_of sv p); [done|]. by right.
    + intros q [Hq _]%elem_of_difference.
      apply elem_of_union in Hq as [?|?%elem_of_singleton]; [by left|by right].
    + intros q Hq Hnot. apply elem_of_difference. split; [by apply elem_of_union_l|].
      rewrite elem_of_singleton. intros ->.
      unfold recent_of in Hfull.
      destruct (filter (λ q, q ≠ p) (last_checkpoints sv)) as [|oldest rest] eqn:Hf.
      { simpl in Hfull. lia. }
      unfold recent_of in Hnot. rewrite Hf in Hnot. simpl in Hnot.
      apply Hnot. assert (oldest ∈ oldest :: rest) as Hin by apply list_elem_of_here.
      rewrite <-Hf in Hin. by apply list_elem_of_filter in Hin as [_ ?].
  - split_and!.
    + intros q Hq. by apply Hrec.
    + intros q Hq. apply elem_of_union in Hq as [?|?%elem_of_singleton]; [by left|by right].
    + intros q Hq _. by apply elem_of_union_l.
Qed.

Lemma own_checkpoint_mono model_dir k q :
  own_checkpoint model_dir k q → own_checkpoint model_dir (S k) q.
Proof. intros (e & He & Hq). exists e. split; [lia|done]. Qed.

Lemma last_path_best_path model_dir e e' : last_path model_dir e ≠ best_path model_dir e'.
Proof. intros [= H _]. by apply last_dir_best_dir in H. Qed.

Lemma written_S model model_dir k q :
  written model model_dir (S k) q ↔
  written model model_dir k q ∨ q = last_path model_dir (S k) ∨
  (q = best_path model_dir (S k) ∧
   ((best_so_far (eval_accuracy model) k).1 <=? eval_accuracy model k)%float = true).
Proof.
  unfold written. split.
  - intros (e & He & Hq). destruct (decide (e = k)) as [->|Hne]; [tauto|].
    left. exists e. split; [lia|done].
  - intros [(e & He & Hq)|Hq]; [exists e; split; [lia|done]|].
    exists k. split; [lia|done].
Qed.

(** The epoch whose best checkpoint is kept had an accuracy of at least
    the best recorded before it. *)
Lemma best_so_far_improved acc k e :
  (best_so_far acc k).2 = Some (S e) →
  (e < k)%nat ∧ ((best_so_far acc e).1 <=? acc e)%float = true.
Proof.
  induction k as [|k IH]; [done|]. cbn [best_so_far].
  destruct (best_so_far acc k) as [best kept] eqn:Hbsf.
  destruct (best <=? acc k)%float eqn:Hle; simpl.
  - intros [= <-]. split; [lia|]. by rewrite Hbsf.
  - intros Hk. destruct (IH Hk). split; [lia|done].
Qed.

Section RunInvariant.
Context (model : Model) (model_dir : string) (d0 : Disk).

Lemma run_inv_step k b :
  run_inv model model_dir d0 k b →
  run_inv model model_dir d0 (S k)
    (book_step model_dir k (final_metrics model k) (eval_accuracy model k) b).
Proof.
  intros (Hlast & Hmax & Hbest & Hacc & Hnew & Hold & Hjson & Hstate & _ & Hkept).
  pose proof (last_dir_best_dir model_dir) as Hdirs.
  pose proof (best_json_last_json model_dir) as Hjsons.
  unfold book_step. fold (last_path model_dir (S k)) (best_path model_dir (S k)).
  destruct (saver_save_effect (bk_last b) (bk_disk b) (last_path model_dir (S k)))
    as (Hl1 & Hl2 & Hl3).
  destruct (saver_save_written (bk_last b) (bk_disk b) (last_path model_dir (S k)))
    as [Hlw _].
  pose proof (saver_save_json (bk_last b) (bk_disk b) (last_path model_dir (S k))) as Hlj.
  pose proof (saver_save_state (bk_last b) (bk_disk b) (last_path model_dir (S k))) as Hls.
  set (ls := saver_save (bk_last b) (bk_disk b) (last_path model_dir (S k))) in *.
  destruct (saver_save_effect (bk_best b) ls.2 (best_path model_dir (S k)))
    as (Hb1 & Hb2 & Hb3).
  destruct (saver_save_written (bk_best b) ls.2 (best_path model_dir (S k))) as [Hbw _].
  pose proof (saver_save_json (bk_best b) ls.2 (best_path model_dir (S k))) as Hbj.
  pose proof (saver_save_state (bk_best b) ls.2 (best_path model_dir (S k))) as Hbs.
  pose proof (saver_save_max (bk_best b) ls.2 (best_path model_dir (S k))) as Hbm.
  pose proof (best_list_step model_dir (bk_best b) ls.2 k _ Hmax Hbest) as Hbl.
  set (bs := saver_save (bk_best b) ls.2 (best_path model_dir (S k))) in *.
  assert (∀ q, q ∈ last_checkpoints (bk_last b) → own_checkpoint model_dir k q) as Hlown.
  { intros q Hq. destruct (proj1 (Forall_forall _ _) Hlast q Hq) as (e & He & ->).
    exists e. split; [done|by left]. }
  assert (∀ q, q ∈ last_checkpoints (bk_best b) → own_checkpoint model_dir k q) as Hbown.
  { intros q Hq. rewrite Hbest in Hq.
    pose proof (best_so_far_kept (eval_accuracy model) k) as Hle.
    destruct (best_so_far (eval_accuracy model) k).2 as [e|]; simpl in Hq.
    - apply list_elem_of_singleton in Hq as ->.
      exists e. split; [by apply Hle|by right].
    - by apply not_elem_of_nil in Hq. }
  assert (Forall (λ q, ∃ e, (1 ≤ e ≤ S k)%nat ∧ q = last_path model_dir e)
            (last_checkpoints ls.1)) as Hlast'.
  { apply Forall_forall. intros q [Hq| ->]%Hl1.
    - destruct (proj1 (Forall_forall _ _) Hlast q Hq) as (e & He & ->).
      exists e. split; [lia|done].
    - exists (S k). split; [lia|done]. }
  assert (∀ q, q ∈ checkpoints ls.2 → q ∈ checkpoints d0 ∨ own_checkpoint model_dir (S k) q)
    as Hnew1.
  { intros q [Hq| ->]%Hl2.
    - destruct (Hnew q Hq) as [?|?]; [by left|right; by apply own_checkpoint_mono].
    - right. exists (S k). split; [lia|by left]. }
  assert (∀ q, q ∈ checkpoints d0 → ¬ own_checkpoint model_dir (S k) q → q ∈ checkpoints ls.2)
    as Hold1.
  { intros q Hq Hnot. apply Hl3.
    - apply Hold; [done|]. intros Hown. by apply Hnot, own_checkpoint_mono.
    - intros Hin. by apply Hnot, own_checkpoint_mono, Hlown. }
  assert (last_path model_dir (S k) ∉ last_checkpoints (bk_best b)) as Hlnotb.
  { rewrite Hbest. intros (e & He & _)%list_elem_of_fmap.
    by apply last_path_best_path in He. }
  unfold run_inv. cbn [best_so_far].
  destruct (best_so_far (eval_accuracy model) k) as [best kept] eqn:Hbsf.
  simpl in Hacc, Hbest, Hkept, Hbl. rewrite Hacc.
  destruct (best <=? eval_accuracy model k)%float;
    cbn [bk_last bk_best bk_disk bk_acc fst snd save_dict_to_json checkpoints
         json_files checkpoint_state].
  - split_and!; try done.
    + by rewrite Hbm.
    + apply Hbl. intros e He.
      pose proof (best_so_far_kept (eval_accuracy model) k e) as Hle.
      rewrite Hbsf in Hle. specialize (Hle He). lia.
    + intros q [Hq| ->]%Hb2; [by apply Hnew1|].
      right. exists (S k). split; [lia|by right].
    + intros q Hq Hnot. apply Hb3; [by apply Hold1|].
      intros Hin. by apply Hnot, own_checkpoint_mono, Hbown.
    + intros path H1 H2. by rewrite !lookup_insert_ne, Hbj, Hlj, Hjson.
    + intros dir H1 H2. rewrite Hbs, Hls, !lookup_insert_ne; [by apply Hstate|done..].
    + intros _. split_and!.
      * rewrite Hbs, Hls, lookup_insert_ne, lookup_insert_eq; done.
      * by apply Hb3.
      * by rewrite lookup_insert_eq.
    + rewrite Hbs. by rewrite lookup_insert_eq.
    + by rewrite lookup_insert_ne, lookup_insert_eq.
  - split_and!; try done.
    + intros path H1 H2. by rewrite !lookup_insert_ne, Hlj, Hjson.
    + intros dir H1 H2. rewrite Hls, !lookup_insert_ne; [by apply Hstate|done..].
    + intros _. split_and!.
      * by rewrite Hls, lookup_insert_eq.
      * done.
      * by rewrite lookup_insert_eq.
    + destruct kept as [e|].
      * destruct Hkept as (Hks & Hkin & Hkj). split_and!.
        -- rewrite Hls, lookup_insert_ne; [done|]. simpl. done.
        -- apply Hl3; [done|]. intros Hin.
           destruct (proj1 (Forall_forall _ _) Hlast _ Hin) as (e' & _ & He').
           symmetry in He'. by apply last_path_best_path in He'.
        -- by rewrite lookup_insert_ne, Hlj.
      * destruct Hkept as (Hks & Hkj). split.
        -- rewrite Hls, lookup_insert_ne; [done|]. simpl. done.
        -- by rewrite lookup_insert_ne, Hlj.
Qed.

Lemma policy_inv_step k b :
  policy_inv model model_dir d0 k b →
  policy_inv model model_dir d0 (S k)
    (book_step model_dir k (final_metrics model k) (eval_accuracy model k) b).
Proof.
  intros (Hmax5 & Hmax1 & Hlast & Hbest & Hacc & Hdisk).
  pose proof (last_dir_best_dir model_dir) as Hdirs.
  assert (NoDup (last_checkpoints (bk_last b))) as Hndl.
  { rewrite Hlast. apply NoDup_fmap_2; [apply _|apply NoDup_seq]. }
  assert (NoDup (last_checkpoints (bk_best b))) as Hndb.
  { rewrite Hbest. destruct (best_so_far _ k).2; simpl;
      [apply NoDup_singleton|apply NoDup_nil_2]. }
  assert (∀ q, q ∈ last_checkpoints (bk_last b) →
            q.1.1 = last_dir model_dir ∧ q ≠ last_path model_dir (S k) ∧
            written model model_dir k q) as Hlin.
  { intros q. rewrite Hlast. intros (e & -> & He)%list_elem_of_fmap.
    unfold last_kept in He. apply elem_of_seq in He.
    split; [done|]. split; [intros [= ?]; lia|].
    exists (pred e). split; [lia|]. left. f_equal. lia. }
  assert (∀ q, q ∈ last_checkpoints (bk_best b) →
            q.1.1 = best_dir model_dir ∧ q ≠ best_path model_dir (S k) ∧
            written model model_dir k q) as Hbin.
  { intros q. rewrite Hbest.
    destruct (best_so_far (eval_accuracy model) k).2 as [e|] eqn:Hkept; simpl;
      [|by intros ?%not_elem_of_nil].
    intros ->%list_elem_of_singleton.
    pose proof (best_so_far_kept _ _ _ Hkept) as He.
    destruct e as [|e]; [lia|].
    apply best_so_far_improved in Hkept as [Hlt Himp].
    split; [done|]. split; [intros [= ?]; lia|].
    exists e. split; [done|]. by right. }
  pose proof (last_list_step model_dir (bk_last b) (bk_disk b) k Hmax5 Hlast) as Hlast1.
  pose proof (saver_save_max (bk_last b) (bk_disk b) (last_path model_dir (S k))) as Hm1.
  pose proof (λ q, saver_save_disk (bk_last b) (bk_disk b) (last_path model_dir (S k)) q Hndl)
    as Hd1.
  destruct (saver_save_effect (bk_last b) (bk_disk b) (last_path model_dir (S k)))
    as (Hl1 & _ & _).
  destruct (saver_save_written (bk_last b) (bk_disk b) (last_path model_dir (S k)))
    as [_ Hpl%last_Some_elem_of].
  unfold book_step. fold (last_path model_dir (S k)) (best_path model_dir (S k)).
  set (ls := saver_save (bk_last b) (bk_disk b) (last_path model_dir (S k))) in *.
  pose proof (best_list_step model_dir (bk_best b) ls.2 k _ Hmax1 Hbest) as Hbest2.
  pose proof (saver_save_max (bk_best b) ls.2 (best_path model_dir (S k))) as Hm2.
  pose proof (λ q, saver_save_disk (bk_best b) ls.2 (best_path model_dir (S k)) q Hndb)
    as Hd2.
  set (bs := saver_save (bk_best b) ls.2 (best_path model_dir (S k))) in *.
  unfold policy_inv. cbn [best_so_far].
  destruct (best_so_far (eval_accuracy model) k) as [best kept] eqn:Hbsf.
  simpl in Hacc, Hbest, Hbest2. rewrite Hacc.
  destruct (best <=? eval_accuracy model k)%float eqn:Himp;
    cbn [bk_last bk_best bk_disk bk_acc fst snd save_dict_to_json checkpoints].
  - assert (last_checkpoints bs.1 = [best_path model_dir (S k)]) as Hblist.
    { apply Hbest2. intros e He.
      pose proof (best_so_far_kept (eval_accuracy model) k e) as Hle.
      rewrite Hbsf in Hle. specialize (Hle He). lia. }
    split_and!; [by rewrite Hm1|by rewrite Hm2|done|done|done|].
    intros q. rewrite Hd2, Hd1, !elem_of_recent_of, Hdisk, written_S, Hbsf, Hblist,
      list_elem_of_singleton.
    specialize (Hlin q). specialize (Hbin q). specialize (Hl1 q).
    assert (q = last_path model_dir (S k) → q.1.1 = last_dir model_dir) as Hp1
      by (by intros ->).
    assert (q = best_path model_dir (S k) → q.1.1 = best_dir model_dir) as Hp2
      by (by intros ->).
    assert (q = last_path model_dir (S k) → q ∈ last_checkpoints ls.1) as Hp3
      by (by intros ->).
    assert (q.1.1 = last_dir model_dir → q.1.1 = best_dir model_dir → False) as Hp4
      by (intros H1 H2; apply Hdirs; congruence).
    simpl.
    destruct (decide (q = last_path model_dir (S k)));
      destruct (decide (q = best_path model_dir (S k))); tauto.
  - split_and!; [by rewrite Hm1|done|done|done|done|].
    intros q. rewrite Hd1, !elem_of_recent_of, Hdisk, written_S, Hbsf. simpl. rewrite Himp.
    specialize (Hlin q). specialize (Hbin q). specialize (Hl1 q).
    assert (q = last_path model_dir (S k) → q.1.1 = last_dir model_dir) as Hp1
      by (by intros ->).
    assert (q = last_path model_dir (S k) → q ∈ last_checkpoints ls.1) as Hp3
      by (by intros ->).
    assert (q.1.1 = last_dir model_dir → q.1.1 = best_dir model_dir → False) as Hp4
      by (intros H1 H2; apply Hdirs; congruence).
    assert (¬ (q = best_path model_dir (S k) ∧ false = true)) as Hno by (by intros [_ ?]).
    simpl.
    destruct (decide (q = last_path model_dir (S k))); tauto.
Qed.

Lemma epochs_from_run_inv {W G} params epoch n (r r' : Run (W:=W) (G:=G)) :
  run_inv model model_dir d0 epoch (book_of r) →
  evaluations (run_sess r) = epoch →
  epochs_from model model_dir params epoch n r = Ok r' →
  run_inv model model_dir d0 (epoch + n) (book_of r').
Proof.
  revert epoch r. induction n as [|n IH]; intros epoch r Hinv Hev; simpl.
  - intros [= <-]. by rewrite Nat.add_0_r.
  - destruct (epoch_body _ _ _ _ r) as [r1|e] eqn:Hbody; [|done]. simpl.
    apply epoch_body_Ok in Hbody as (_ & _ & Hev1 & Hbook).
    rewrite Hev in Hev1, Hbook.
    intros Hrest. replace (epoch + S n)%nat with (S epoch + n)%nat by lia.
    apply (IH (S epoch) r1); [|done|done].
    rewrite Hbook. by apply run_inv_step.
Qed.
Lemma epochs_from_policy {W G} params epoch n (r r' : Run (W:=W) (G:=G)) :
  policy_inv model model_dir d0 epoch (book_of r) →
  evaluations (run_sess r) = epoch →
  epochs_from model model_dir params epoch n r = Ok r' →
  policy_inv model model_dir d0 (epoch + n) (book_of r').
Proof.
  revert epoch r. induction n as [|n IH]; intros epoch r Hinv Hev; simpl.
  - intros [= <-]. by rewrite Nat.add_0_r.
  - destruct (epoch_body _ _ _ _ r) as [r1|e] eqn:Hbody; [|done]. simpl.
    apply epoch_body_Ok in Hbody as (_ & _ & Hev1 & Hbook).
    rewrite Hev in Hev1, Hbook.
    intros Hrest. replace (epoch + S n)%nat with (S epoch + n)%nat by lia.
    apply (IH (S epoch) r1); [|done|done].
    rewrite Hbook. by apply policy_inv_step.
Qed.
End RunInvariant.

Lemma train_and_evaluate_run_inv {W G} model disk (train_spec eval_spec : ModelSpec W G)
    model_dir params restore_dir r :
  train_and_evaluate model disk train_spec eval_spec model_dir params restore_dir = Ok r →
  run_inv model model_dir disk (Z.to_nat (num_epochs params)) (book_of r).
Proof.
  unfold train_and_evaluate. intros Hrun.
  destruct (match restore_dir with Some dir => _ | None => _ end) as [[]|e]; [|done].
  simpl in Hrun.
  eapply (epochs_from_run_inv _ _ _ _ 0) in Hrun; [exact Hrun| |done].
  unfold run_inv, book_of. simpl.
  split_and!; try done.
  - by left.
  - lia.
Qed.

Lemma train_and_evaluate_policy {W G} model disk (train_spec eval_spec : ModelSpec W G)
    model_dir params restore_dir r :
  train_and_evaluate model disk train_spec eval_spec model_dir params restore_dir = Ok r →
  policy_inv model model_dir disk (Z.to_nat (num_epochs params)) (book_of r).
Proof.
  unfold train_and_evaluate. intros Hrun.
  destruct (match restore_dir with Some dir => _ | None => _ end) as [[]|e]; [|done].
  simpl in Hrun.
  eapply (epochs_from_policy _ _ _ _ 0) in Hrun; [exact Hrun| |done].
  unfold policy_inv, book_of. simpl.
  split_and!; try done.
  intros q. split; [|by intros [?%not_elem_of_nil|[?%not_elem_of_nil|[? _]]]].
  intros Hq. right. right. split; [done|]. intros (e & He & _). lia.
Qed.


(** ** A whole run *)

Section RunFacts.
Context {W G : Type}.
Implicit Types (r : Run (W:=W) (G:=G)) (params : Params) (model : Model)
  (spec : ModelSpec W G).

Lemma train_succeeds sess spec params num_steps writer :
  save_summary_steps params ≠ 0 →
  (0 < pl_buffer_size (it_pipeline (spec_iterator spec)))%nat →
  (Z.to_nat num_steps ≤ length (pl_input (it_pipeline (spec_iterator spec))))%nat →
  ∃ sess' spec' writer',
    train sess spec params num_steps writer = Ok (sess', spec', writer') ∧
    it_pipeline (spec_iterator spec') = it_pipeline (spec_iterator spec).
Proof.
  intros Hsss HN Hn. unfold train.
  destruct (train_loop_Ok params 0 (Z.to_nat num_steps) sess
              (initializer (spec_iterator spec)) writer)
    as (sess' & it' & writer' & Hloop & Hpl & _);
    [done|by apply ready_initializer|by rewrite initializer_remaining|].
  rewrite Hloop. simpl. by eexists _, _, _.
Qed.

(** More steps than batches: the training loop runs out of batches. *)
Lemma train_exhausts sess spec params num_steps writer :
  save_summary_steps params ≠ 0 →
  (0 < pl_buffer_size (it_pipeline (spec_iterator spec)))%nat →
  (length (pl_input (it_pipeline (spec_iterator spec))) < Z.to_nat num_steps)%nat →
  train sess spec params num_steps writer = Raise OutOfRangeError.
Proof.
  intros Hsss HN Hn. unfold train.
  rewrite train_loop_exhausted;
    [done|done|by apply ready_initializer|by rewrite initializer_remaining].
Qed.

Lemma evaluate_succeeds model sess spec num_steps writer :
  (0 < pl_buffer_size (it_pipeline (spec_iterator spec)))%nat →
  (Z.to_nat num_steps ≤ length (pl_input (it_pipeline (spec_iterator spec))))%nat →
  ∃ sess' spec',
    evaluate model sess spec num_steps writer
      = Ok (sess', spec', final_metrics model (evaluations sess)) ∧
    it_pipeline (spec_iterator spec') = it_pipeline (spec_iterator spec).
Proof.
  intros HN Hn. unfold evaluate.
  destruct (evaluate_loop_Ok (Z.to_nat num_steps) (initializer (spec_iterator spec)))
    as (it' & Hloop & _ & Hpl);
    [by apply ready_initializer|by rewrite initializer_remaining|].
  rewrite Hloop. simpl. by eexists _, _.
Qed.

Lemma epoch_succeeds model model_dir params epoch r :
  feasible params (run_train_spec r) (run_eval_spec r) →
  ∃ r', epoch_body model model_dir params epoch r = Ok r' ∧
        feasible params (run_train_spec r') (run_eval_spec r').
Proof.
  intros (Hbs & Hsss & HNt & HNe & Ht & He).
  destruct (train_succeeds (run_sess r) (run_train_spec r) params (train_steps params)
              (run_train_writer r)) as (sess1 & tspec & w1 & Htrain & Hplt); [done..|].
  destruct (evaluate_succeeds model sess1 (run_eval_spec r) (eval_steps params)
              (run_eval_writer r)) as (sess2 & espec & Heval & Hple); [done..|].
  destruct (epoch_body_succeeds model model_dir params epoch r _ _ _ _ _ _
              Hbs Htrain Heval) as (r' & Hr' & Hts & Hes).
  exists r'. split; [done|]. unfold feasible. by rewrite Hts, Hes, Hplt, Hple.
Qed.

Lemma epochs_succeed model model_dir params epoch n r :
  feasible params (run_train_spec r) (run_eval_spec r) →
  ∃ r', epochs_from model model_dir params epoch n r = Ok r'.
Proof.
  revert epoch r. induction n as [|n IH]; intros epoch r Hf; [by eexists|].
  destruct (epoch_succeeds model model_dir params epoch r Hf) as (r1 & Hr1 & Hf1).
  simpl. rewrite Hr1. simpl. by apply IH.
Qed.

Lemma train_and_evaluate_succeeds model disk train_spec eval_spec model_dir params restore_dir :
  feasible params train_spec eval_spec →
  restorable disk restore_dir →
  ∃ r, train_and_evaluate model disk train_spec eval_spec model_dir params restore_dir = Ok r.
Proof.
  intros Hf Hrest. unfold train_and_evaluate.
  assert (match restore_dir with Some dir => saver_restore disk dir | None => Ok () end
          = Ok ()) as -> by (by destruct restore_dir).
  simpl. by apply epochs_succeed.
Qed.
End RunFacts.

(** ** Last checkpoints *)







(** ** Best checkpoint *)

Lemma scenario_best_so_far (acc : nat → float) :
  acc 0%nat = 0.5%float → acc 1%nat = 0.7%float → acc 2%nat = 0.6%float →
  acc 3%nat = 0.9%float → acc 4%nat = 0.8%float →
  best_so_far acc 4 = (0.9%float, Some 4%nat) ∧
  best_so_far acc 5 = (0.9%float, Some 4%nat).
Proof.
  intros H0 H1 H2 H3 H4. cbn [best_so_far]. rewrite H0, H1, H2, H3, H4.
  split; vm_compute; reflexivity.
Qed.

(** In the scenario the run writes the best checkpoints of the epochs 1,
    2 and 4, and no others. *)
Lemma scenario_written (model : Model) model_dir e :
  eval_accuracy model 0%nat = 0.5%float → eval_accuracy model 1%nat = 0.7%float →
  eval_accuracy model 2%nat = 0.6%float → eval_accuracy model 3%nat = 0.9%float →
  eval_accuracy model 4%nat = 0.8%float →
  written model model_dir 5 (best_path model_dir e) ↔ e = 1%nat ∨ e = 2%nat ∨ e = 4%nat.
Proof.
  intros H0 H1 H2 H3 H4.
  assert (∀ k, (k < 5)%nat →
            ((best_so_far (eval_accuracy model) k).1 <=? eval_accuracy model k)%float = true
            ↔ k = 0%nat ∨ k = 1%nat ∨ k = 3%nat) as Himp.
  { intros k Hk.
    destruct k as [|[|[|[|[|k]]]]]; [| | | | |lia];
      cbn [best_so_far]; rewrite ?H0, ?H1, ?H2, ?H3, ?H4; vm_compute;
      (split; [intros; try done; lia|intros; try done; lia]). }
  unfold written. split.
  - intros (k & Hk & [Hl|[[= ->] Hle]]);
      [symmetry in Hl; by apply last_path_best_path in Hl|].
    apply Himp in Hle; lia.
  - intros He. exists (pred e). split; [lia|]. right.
    split; [f_equal; lia|]. apply Himp; lia.
Qed.

(** The best saver, the checkpoints of best_weights and the files that go
    with them after a run of [n] epochs, on any disk. *)
Lemma best_weights_after_run {W G} model disk (train_spec eval_spec : ModelSpec W G)
    model_dir params restore_dir r :
  train_and_evaluate model disk train_spec eval_spec model_dir params restore_dir = Ok r →
  let n := Z.to_nat (num_epochs params) in
  let kept := (best_so_far (eval_accuracy model) n).2 in
  best_eval_acc r = (best_so_far (eval_accuracy model) n).1 ∧
  last_checkpoints (best_saver r) = best_path model_dir <$> option_list kept ∧
  (∀ q, q.1.1 = best_dir model_dir →
        q ∈ checkpoints (run_disk r) ↔
        q ∈ best_path model_dir <$> option_list kept ∨
        (q ∈ checkpoints disk ∧ ¬ written model model_dir n q)) ∧
  checkpoint_state (run_disk r) !! best_dir model_dir =
    match kept with
    | Some e => Some (best_path model_dir e)
    | None => checkpoint_state disk !! best_dir model_dir
    end ∧
  json_files (run_disk r) !! best_json_path model_dir =
    match kept with
    | Some e => Some (final_metrics model (pred e))
    | None => json_files disk !! best_json_path model_dir
    end.
Proof.
  intros Hrun n kept.
  pose proof (train_and_evaluate_policy _ _ _ _ _ _ _ _ Hrun)
    as (_ & _ & Hlast & Hbest & Hacc & Hdisk).
  pose proof (train_and_evaluate_run_inv _ _ _ _ _ _ _ _ Hrun)
    as (_ & _ & _ & _ & _ & _ & _ & _ & _ & Hkept).
  simpl in Hlast, Hbest, Hacc, Hdisk, Hkept.
  fold n in Hlast, Hbest, Hacc, Hdisk, Hkept. fold kept in Hbest, Hkept.
  pose proof (last_dir_best_dir model_dir) as Hdirs.
  split_and!; try done.
  - intros q Hq. rewrite Hdisk, Hbest, Hlast. split; [|tauto].
    intros [(e & -> & _)%list_elem_of_fmap|?]; [|done].
    destruct Hdirs. done.
  - destruct kept; by destruct Hkept as (? & _).
  - by destruct kept; [destruct Hkept as (_ & _ & ?)|destruct Hkept as (_ & ?)].
Qed.

(** C3: in every epoch the best checkpoint is saved, with the metrics
    written to metrics_eval_best_weights.json, exactly when the accuracy of
    the epoch is at least the best recorded so far, which it then replaces.
    On any disk a run ends with the best saver holding the checkpoint of
    the last epoch that reached the best so far; it is the checkpoint the
    checkpoint file of best_weights names; and of the checkpoints the run
    wrote into best_weights it is the only one left.  For the accuracies
    0.5, 0.7, 0.6, 0.9, 0.8 this is the checkpoint of epoch 4, after four
    epochs as after five: epoch 5 writes no best checkpoint. *)
Theorem best_checkpoint_policy {W G : Type} (model : Model) (disk : Disk)
    (train_spec eval_spec : ModelSpec W G) (model_dir : string) (params : Params)
    (restore_dir : option string) :
  feasible params train_spec eval_spec →
  restorable disk restore_dir →
  (∀ epoch (r r' : Run (W:=W) (G:=G)),
     epoch_body model model_dir params epoch r = Ok r' →
     let k := evaluations (run_sess r) in
     if (best_eval_acc r <=? eval_accuracy model k)%float
     then best_eval_acc r' = eval_accuracy model k ∧
          best_path model_dir (S epoch) ∈ checkpoints (run_disk r') ∧
          last (last_checkpoints (best_saver r')) = Some (best_path model_dir (S epoch)) ∧
          json_files (run_disk r') !! best_json_path model_dir = Some (final_metrics model k)
     else best_eval_acc r' = best_eval_acc r ∧
          best_saver r' = best_saver r ∧
          json_files (run_disk r') !! best_json_path model_dir
            = json_files (run_disk r) !! best_json_path model_dir) ∧
  ∃ r, train_and_evaluate model disk train_spec eval_spec model_dir params restore_dir = Ok r ∧
    let n := Z.to_nat (num_epochs params) in
    let kept := (best_so_far (eval_accuracy model) n).2 in
    best_eval_acc r = (best_so_far (eval_accuracy model) n).1 ∧
    last_checkpoints (best_saver r) = best_path model_dir <$> option_list kept ∧
    (∀ q, q.1.1 = best_dir model_dir →
          q ∈ checkpoints (run_disk r) ↔
          q ∈ best_path model_dir <$> option_list kept ∨
          (q ∈ checkpoints disk ∧ ¬ written model model_dir n q)) ∧
    (fresh_disk model_dir disk →
       ∀ q, q.1.1 = best_dir model_dir →
            q ∈ checkpoints (run_disk r) ↔ q ∈ best_path model_dir <$> option_list kept) ∧
    checkpoint_state (run_disk r) !! best_dir model_dir =
      match kept with
      | Some e => Some (best_path model_dir e)
      | None => checkpoint_state disk !! best_dir model_dir
      end ∧
    json_files (run_disk r) !! best_json_path model_dir =
      match kept with
      | Some e => Some (final_metrics model (pred e))
      | None => json_files disk !! best_json_path model_dir
      end ∧
    (num_epochs params = 5 →
     eval_accuracy model 0%nat = 0.5%float → eval_accuracy model 1%nat = 0.7%float →
     eval_accuracy model 2%nat = 0.6%float → eval_accuracy model 3%nat = 0.9%float →
     eval_accuracy model 4%nat = 0.8%float →
       best_so_far (eval_accuracy model) 4 = (0.9%float, Some 4%nat) ∧
       best_eval_acc r = 0.9%float ∧
       last_checkpoints (best_saver r) = [best_path model_dir 4] ∧
       checkpoint_state (run_disk r) !! best_dir model_dir = Some (best_path model_dir 4) ∧
       best_path model_dir 4 ∈ checkpoints (run_disk r) ∧
       (best_path model_dir 1 ∉ checkpoints (run_disk r)) ∧
       (best_path model_dir 2 ∉ checkpoints (run_disk r)) ∧
       ¬ written model model_dir 5 (best_path model_dir 5) ∧
       (best_path model_dir 5 ∈ checkpoints (run_disk r)
          ↔ best_path model_dir 5 ∈ checkpoints disk) ∧
       (fresh_disk model_dir disk →
          ∀ q, q.1.1 = best_dir model_dir →
               q ∈ checkpoints (run_disk r) ↔ q = best_path model_dir 4) ∧
       json_files (run_disk r) !! best_json_path model_dir = Some (final_metrics model 3)).
Proof.
  intros Hf Hrest. split.
  - intros epoch r r' Hbody k.
    apply epoch_body_Ok in Hbody as (_ & _ & _ & Hbook). fold k in Hbook.
    pose proof (f_equal bk_acc Hbook) as Hacc.
    pose proof (f_equal bk_best Hbook) as Hbest.
    pose proof (f_equal bk_disk Hbook) as Hdisk.
    unfold book_step in Hacc, Hbest, Hdisk. simpl in Hacc, Hbest, Hdisk.
    pose proof (best_json_last_json model_dir) as Hjsons.
    destruct (best_eval_acc r <=? eval_accuracy model k)%float;
      simpl in Hacc, Hbest, Hdisk; rewrite Hdisk, Hbest.
    + split; [done|]. simpl.
      rewrite lookup_insert_ne, lookup_insert_eq by done.
      split_and!; try done; apply saver_save_written.
    + split; [done|]. split; [done|]. simpl.
      by rewrite lookup_insert_ne, saver_save_json.
  - destruct (train_and_evaluate_succeeds model disk train_spec eval_spec model_dir
                params restore_dir Hf Hrest) as [r Hrun].
    exists r. split; [done|].
    destruct (best_weights_after_run _ _ _ _ _ _ _ _ Hrun)
      as (Hacc & Hlist & Hdisk & Hstate & Hjson).
    intros n kept. fold n in Hacc, Hlist, Hdisk, Hstate, Hjson.
    fold kept in Hlist, Hdisk, Hstate, Hjson.
    assert (fresh_disk model_dir disk →
            ∀ q, q.1.1 = best_dir model_dir →
                 q ∈ checkpoints (run_disk r) ↔ q ∈ best_path model_dir <$> option_list kept)
      as Hfresh.
    { intros Hfresh q Hq. rewrite (Hdisk q Hq). split; [|tauto].
      intros [?|[[_ Hno]%Hfresh _]]; done. }
    split_and!; try done.
    intros H5 H0 H1 H2 H3 H4.
    destruct (scenario_best_so_far _ H0 H1 H2 H3 H4) as [Hfour Hfive].
    pose proof (λ e, scenario_written model model_dir e H0 H1 H2 H3 H4) as Hw.
    assert (n = 5%nat) as Hn by (unfold n; rewrite H5; done).
    unfold kept in *. rewrite Hn, Hfive in *. simpl in *.
    split_and!; try done.
    + apply Hdisk; [done|]. left. apply list_elem_of_singleton. done.
    + rewrite Hdisk, list_elem_of_singleton, Hw by done.
      intros [[=]|[_ Hno]]. apply Hno. tauto.
    + rewrite Hdisk, list_elem_of_singleton, Hw by done.
      intros [[=]|[_ Hno]]. apply Hno. tauto.
    + rewrite Hw. lia.
    + rewrite Hdisk, list_elem_of_singleton, Hw by done. split.
      * intros [[=]|[? _]]. done.
      * intros Hin. right. split; [done|lia].
    + intros Hfr q Hq. rewrite (Hfresh Hfr q Hq). apply list_elem_of_singleton.
Qed.

Lemma best_checkpoint_policy_witness :
  let model := example_model scenario_accuracies in
  let model_dir := "experiments/test"%string in
  let params := example_params 5 in
  let disk := earlier_run_disk in
  (∀ epoch (r r' : Run (W:=Z) (G:=Z)),
     epoch_body model model_dir params epoch r = Ok r' →
     let k := evaluations (run_sess r) in
     if (best_eval_acc r <=? eval_accuracy model k)%float
     then best_eval_acc r' = eval_accuracy model k ∧
          best_path model_dir (S epoch) ∈ checkpoints (run_disk r') ∧
          last (last_checkpoints (best_saver r')) = Some (best_path model_dir (S epoch)) ∧
          json_files (run_disk r') !! best_json_path model_dir = Some (final_metrics model k)
     else best_eval_acc r' = best_eval_acc r ∧
          best_saver r' = best_saver r ∧
          json_files (run_disk r') !! best_json_path model_dir
            = json_files (run_disk r) !! best_json_path model_dir) ∧
  ∃ r, train_and_evaluate model disk (example_spec 100) (example_spec 1)
         model_dir params (Some (last_dir model_dir)) = Ok r ∧
    let n := Z.to_nat (num_epochs params) in
    let kept := (best_so_far (eval_accuracy model) n).2 in
    best_eval_acc r = (best_so_far (eval_accuracy model) n).1 ∧
    last_checkpoints (best_saver r) = best_path model_dir <$> option_list kept ∧
    (∀ q, q.1.1 = best_dir model_dir →
          q ∈ checkpoints (run_disk r) ↔
          q ∈ best_path model_dir <$> option_list kept ∨
          (q ∈ checkpoints disk ∧ ¬ written model model_dir n q)) ∧
    (fresh_disk model_dir disk →
       ∀ q, q.1.1 = best_dir model_dir →
            q ∈ checkpoints (run_disk r) ↔ q ∈ best_path model_dir <$> option_list kept) ∧
    checkpoint_state (run_disk r) !! best_dir model_dir =
      match kept with
      | Some e => Some (best_path model_dir e)
      | None => checkpoint_state disk !! best_dir model_dir
      end ∧
    json_files (run_disk r) !! best_json_path model_dir =
      match kept with
      | Some e => Some (final_metrics model (pred e))
      | None => json_files disk !! best_json_path model_dir
      end ∧
    (num_epochs params = 5 →
     eval_accuracy model 0%nat = 0.5%float → eval_accuracy model 1%nat = 0.7%float →
     eval_accuracy model 2%nat = 0.6%float → eval_accuracy model 3%nat = 0.9%float →
     eval_accuracy model 4%nat = 0.8%float →
       best_so_far (eval_accuracy model) 4 = (0.9%float, Some 4%nat) ∧
       best_eval_acc r = 0.9%float ∧
       last_checkpoints (best_saver r) = [best_path model_dir 4] ∧
       checkpoint_state (run_disk r) !! best_dir model_dir = Some (best_path model_dir 4) ∧
       best_path model_dir 4 ∈ checkpoints (run_disk r) ∧
       (best_path model_dir 1 ∉ checkpoints (run_disk r)) ∧
       (best_path model_dir 2 ∉ checkpoints (run_disk r)) ∧
       ¬ written model model_dir 5 (best_path model_dir 5) ∧
       (best_path model_dir 5 ∈ checkpoints (run_disk r)
          ↔ best_path model_dir 5 ∈ checkpoints disk) ∧
       (fresh_disk model_dir disk →
          ∀ q, q.1.1 = best_dir model_dir →
               q ∈ checkpoints (run_disk r) ↔ q = best_path model_dir 4) ∧
       json_files (run_disk r) !! best_json_path model_dir = Some (final_metrics model 3)).
Proof.
  apply (best_checkpoint_policy (example_model scenario_accuracies) earlier_run_disk
           (example_spec 100) (example_spec 1) "experiments/test" (example_params 5)
           (Some (last_dir "experiments/test"))).
  - unfold feasible. simpl. split_and!; try done; vm_compute; lia.
  - vm_compute. reflexivity.
Defined.

(** ** The initial best accuracy *)






(** ** Steps per epoch *)

(** C5: an epoch runs [(train_size + 1) // batch_size] training steps and
    [(eval_size + 1) // batch_size] evaluation steps, each step pulling one
    batch from the iterator of its phase and each training step advancing
    the global step; with [train_size = 11] and [batch_size = 5] these are
    2 training steps. *)
Theorem steps_per_epoch {W G : Type} (model : Model) (model_dir : string)
    (params : Params) (epoch : nat) (r r' : Run (W:=W) (G:=G)) :
  epoch_body model model_dir params epoch r = Ok r' →
  let train_num_steps := (train_size params + 1) / batch_size params in
  let eval_num_steps := (eval_size params + 1) / batch_size params in
  batch_size params ≠ 0 ∧
  global_step (run_sess r') = (global_step (run_sess r) + Z.to_nat train_num_steps)%nat ∧
  it_drawn (spec_iterator (run_train_spec r'))
    = (it_drawn (spec_iterator (run_train_spec r)) + Z.to_nat train_num_steps)%nat ∧
  it_drawn (spec_iterator (run_eval_spec r'))
    = (it_drawn (spec_iterator (run_eval_spec r)) + Z.to_nat eval_num_steps)%nat ∧
  (train_size params = 11 → batch_size params = 5 →
     train_num_steps = 2 ∧
     global_step (run_sess r') = (global_step (run_sess r) + 2)%nat).
Proof.
  intros Hbody train_num_steps eval_num_steps.
  apply epoch_body_Ok in Hbody as (Hbs & (sess1 & w1 & Htrain & Heval) & _ & _).
  apply train_Ok, train_loop_counts in Htrain as (Hg1 & Hd1 & _).
  apply evaluate_Ok in Heval as (Hloop & _ & _ & Hg2).
  apply evaluate_loop_drawn in Hloop. simpl in Hd1, Hloop.
  unfold train_steps in Hg1, Hd1. unfold eval_steps in Hloop.
  fold train_num_steps in Hg1, Hd1. fold eval_num_steps in Hloop.
  split_and!; try done; [by rewrite Hg2, Hg1|].
  intros H11 H5.
  assert (train_num_steps = 2) as H2 by (unfold train_num_steps; rewrite H11, H5; done).
  split; [done|]. rewrite Hg2, Hg1, H2. done.
Qed.

Lemma steps_per_epoch_witness :
  let train_num_steps := (train_size steps_params + 1) / batch_size steps_params in
  let eval_num_steps := (eval_size steps_params + 1) / batch_size steps_params in
  batch_size steps_params ≠ 0 ∧
  global_step (run_sess steps_run_after)
    = (global_step (run_sess steps_run_before) + Z.to_nat train_num_steps)%nat ∧
  it_drawn (spec_iterator (run_train_spec steps_run_after))
    = (it_drawn (spec_iterator (run_train_spec steps_run_before))
       + Z.to_nat train_num_steps)%nat ∧
  it_drawn (spec_iterator (run_eval_spec steps_run_after))
    = (it_drawn (spec_iterator (run_eval_spec steps_run_before))
       + Z.to_nat eval_num_steps)%nat ∧
  (train_size steps_params = 11 → batch_size steps_params = 5 →
     train_num_steps = 2 ∧
     global_step (run_sess steps_run_after)
       = (global_step (run_sess steps_run_before) + 2)%nat).
Proof.
  apply (steps_per_epoch (example_model []) "experiments/test" steps_params 0
           steps_run_before steps_run_after).
  vm_compute. reflexivity.
Defined.

(** ** Steps and batches *)

(** For batches of at least two examples the step count stays within the
    number of batches, [datasetSize / batchSize] rounded up. *)
Lemma steps_within_batches (d b : Z) :
  0 ≤ d → 2 ≤ b →
  (Z.to_nat ((d + 1) / b) ≤ (Z.to_nat d + Z.to_nat b - 1) / Z.to_nat b)%nat.
Proof.
  intros Hd Hb.
  replace (Z.to_nat d + Z.to_nat b - 1)%nat with (Z.to_nat (d + b - 1)) by lia.
  rewrite <-Z2Nat.inj_div by lia. apply Z2Nat.inj_le.
  - apply Z.div_pos; lia.
  - apply Z.div_pos; lia.
  - apply Z.div_le_mono; lia.
Qed.

(** For batches of one example it is one more than the number of batches. *)
Lemma steps_beyond_batches (d : Z) :
  0 ≤ d →
  Z.to_nat ((d + 1) / 1) = S ((Z.to_nat d + Z.to_nat 1 - 1) / Z.to_nat 1).
Proof.
  intros Hd. rewrite Z.div_1_r. change (Z.to_nat 1) with 1%nat.
  rewrite Nat.div_1_r. lia.
Qed.

Lemma length_padded_windows {W G} (sentences : Dataset (list W))
    (tags : option (Dataset (list G))) n pad_word pad_tag :
  (0 < n)%nat →
  length (padded_windows sentences tags n pad_word pad_tag)
    = ((length (examples sentences tags) + n - 1) / n)%nat.
Proof.
  intros Hn.
  rewrite <-(length_fmap sentence), padded_windows_sentences, length_fmap.
  by apply length_windows.
Qed.

(** When the pipeline batches by the batch size of the parameters and the
    configured size is the number of examples, the training loop finds its
    batches for every batch size of at least 2, and runs out of batches for
    batch size 1. *)
Lemma train_with_matching_batch_size {W G} draws is_training
    (sentences : Dataset (list W)) (tags : option (Dataset (list G)))
    pad_word pad_tag (inputs : Inputs W G) params sess writer :
  input_fn draws is_training sentences tags (batch_size params) pad_word pad_tag
    = Ok inputs →
  Z.of_nat (length (examples sentences tags)) = train_size params →
  save_summary_steps params ≠ 0 →
  (2 ≤ batch_size params →
     ∃ out, train sess (model_fn is_training inputs params) params (train_steps params) writer
              = Ok out) ∧
  (batch_size params = 1 →
     train sess (model_fn is_training inputs params) params (train_steps params) writer
       = Raise OutOfRangeError).
Proof.
  intros Hin Hsize Hsss.
  apply input_fn_Ok in Hin as [Hpos Hit].
  assert (0 < pl_buffer_size (it_pipeline (spec_iterator
            (model_fn is_training inputs params))))%nat as HN.
  { simpl. rewrite Hit. simpl. destruct is_training; lia. }
  assert (length (pl_input (it_pipeline (spec_iterator
            (model_fn is_training inputs params))))
          = ((Z.to_nat (train_size params) + Z.to_nat (batch_size params) - 1)
             / Z.to_nat (batch_size params))%nat) as Hlen.
  { simpl. rewrite Hit. simpl. rewrite length_padded_windows by lia.
    rewrite <-Hsize, Nat2Z.id. done. }
  split.
  - intros Hb.
    destruct (train_succeeds sess (model_fn is_training inputs params) params
                (train_steps params) writer) as (s & sp & w & Hok & _); [done|done| |by eauto].
    rewrite Hlen. apply steps_within_batches; lia.
  - intros Hb. apply train_exhausts; [done|done|].
    rewrite Hlen. unfold train_steps. rewrite Hb.
    rewrite steps_beyond_batches by lia. lia.
Qed.

(** The script builds both pipelines with the default batch size of
    [input_fn], whatever [params.batch_size] is: when the parameters ask
    for more training steps than there are batches of 5, the first epoch
    runs out of batches. *)
Lemma main_exhausts fast_hash model train_draws eval_draws files disk model_dir
    restore_dir params :
  NoDup (words_txt files) → NoDup (tags_txt files) →
  Forall (λ key, key ≠ EmptyString) (words_txt files) →
  Forall (λ key, key ≠ EmptyString) (tags_txt files) →
  restorable disk restore_dir →
  save_summary_steps params ≠ 0 → batch_size params ≠ 0 → 0 < num_epochs params →
  ((length (train_sentences_txt files) `min` length (train_tags_txt files) + 5 - 1) / 5
     < Z.to_nat (train_steps params))%nat →
  main fast_hash model train_draws eval_draws files disk model_dir restore_dir params
    = Raise OutOfRangeError.
Proof.
  intros Hw Ht Hwe Hte Hrest Hsss Hbs Hep Hsteps.
  assert (match restore_dir with Some dir => saver_restore disk dir | None => Ok () end
          = Ok ()) as Hrestore by (by destruct restore_dir).
  unfold main, vocab_words, vocab_tags.
  rewrite Hrestore, !index_table_from_file_succeeds by done. cbn -[input_fn].
  destruct (input_fn train_draws true _ _ _ _ _) as [train_inputs|e] eqn:Htrain;
    [|apply input_fn_Raise in Htrain; unfold default_batch_size in Htrain; lia].
  cbn -[input_fn].
  destruct (input_fn eval_draws false _ _ _ _ _) as [eval_inputs|e] eqn:Heval;
    [|apply input_fn_Raise in Heval; unfold default_batch_size in Heval; lia].
  cbn -[input_fn].
  unfold train_and_evaluate. rewrite Hrestore.
  simpl.
  destruct (Z.to_nat (num_epochs params)) as [|n] eqn:Hn; [lia|].
  cbn [epochs_from]. unfold epoch_body, floordiv. cbn [train_size batch_size].
  rewrite (proj2 (Z.eqb_neq _ _) Hbs). cbn -[train].
  rewrite train_exhausts; [done|done|..].
  - cbn [model_fn spec_iterator]. apply input_fn_Ok in Htrain as [_ ->].
    cbn [it_pipeline make_initializable_iterator pl_buffer_size]. lia.
  - cbn [model_fn spec_iterator]. apply input_fn_Ok in Htrain as [_ ->].
    cbn [it_pipeline make_initializable_iterator pl_input].
    rewrite length_padded_windows by (unfold default_batch_size; lia).
    unfold examples, dataset_zip, dataset_map.
    rewrite length_fmap, length_zip, !length_fmap.
    exact Hsteps.
Qed.

(** C9, on the script: with 10 training sentences and [batch_size = 2] in
    the parameters the epoch asks for [(10 + 1) // 2 = 5] training steps, no
    more than the [ceil(10 / 2) = 5] batches the claim counts on; but the
    script builds the pipeline with the default batch size 5 of [input_fn],
    which gives 2 batches, and the first epoch runs out of batches. *)
Theorem steps_exceed_default_batches :
  train_steps mismatch_params = 5 ∧
  ((Z.to_nat (train_size mismatch_params) + Z.to_nat (batch_size mismatch_params) - 1)
     / Z.to_nat (batch_size mismatch_params) = 5)%nat ∧
  ((length (train_sentences_txt mismatch_files) + Z.to_nat default_batch_size - 1)
     / Z.to_nat default_batch_size = 2)%nat ∧
  main no_hash (example_model []) (λ k, k) (λ k, k) mismatch_files empty_disk
    "experiments/test" None mismatch_params = Raise OutOfRangeError.
Proof. split_and!; vm_compute; reflexivity. Qed.

(** * Further properties of the code *)

(** ** Tokens *)

Lemma append_cons c (s1 s2 : string) : String c s1 +:+ s2 = String c (s1 +:+ s2).
Proof. done. Qed.

Lemma append_empty_r (s : string) : s +:+ EmptyString = s.
Proof. induction s as [|c s IH]; [done|]. by rewrite append_cons, IH. Qed.

Lemma append_assoc (s1 s2 s3 : string) : (s1 +:+ s2) +:+ s3 = s1 +:+ s2 +:+ s3.
Proof. induction s1 as [|c s1 IH]; [done|]. by rewrite !append_cons, IH. Qed.

Lemma no_space_snoc tok c :
  no_space tok = true → Ascii.eqb c " "%char = false →
  no_space (tok +:+ String c EmptyString) = true.
Proof.
  intros Htok Hc. induction tok as [|c' tok IH]; simpl.
  - by rewrite Hc.
  - simpl in Htok. apply andb_true_iff in Htok as [-> Htok].
    simpl. by apply IH.
Qed.

Lemma snoc_not_empty tok c : tok +:+ String c EmptyString ≠ EmptyString.
Proof. by destruct tok. Qed.

Lemma string_split_go_tokens s tok :
  no_space tok = true → Forall is_token (string_split_go tok s).
Proof.
  revert tok. induction s as [|c s IH]; intros tok Htok; simpl.
  - case_decide; [done|]. by apply Forall_singleton.
  - destruct (Ascii.eqb c " "%char) eqn:Hc.
    + case_decide; [by apply IH|]. apply Forall_cons. split; [done|by apply IH].
    + apply IH. by apply no_space_snoc.
Qed.

(** A run of characters without space is read into the current token. *)
Lemma string_split_go_app t tok s :
  no_space t = true →
  string_split_go tok (t +:+ s) = string_split_go (tok +:+ t) s.
Proof.
  revert tok. induction t as [|c t IH]; intros tok Ht.
  - by rewrite append_empty_r.
  - simpl in Ht. apply andb_true_iff in Ht as [Hc Ht].
    apply negb_true_iff in Hc. rewrite append_cons. simpl. rewrite Hc.
    rewrite IH by done. f_equal. by rewrite append_assoc.
Qed.

Lemma string_split_join tokens :
  Forall is_token tokens → string_split (join_tokens tokens) = tokens.
Proof.
  unfold string_split. induction 1 as [|t rest [Hne Ht] Hrest IH]; [done|].
  destruct rest as [|t2 rest].
  - simpl. rewrite <-(append_empty_r t) at 1.
    rewrite string_split_go_app by done. simpl. by rewrite decide_False.
  - change (join_tokens (t :: t2 :: rest))
      with (t +:+ String " "%char (join_tokens (t2 :: rest))).
    rewrite string_split_go_app by done.
    cbn [string_split_go append]. change (Ascii.eqb " " " ") with true. cbn iota.
    rewrite decide_False by done. by rewrite IH.
Qed.

Lemma string_split_spaces n : string_split (spaces n) = [].
Proof. unfold string_split. induction n as [|n IH]; [done|]. simpl. exact IH. Qed.

(** X1: [load_dataset_from_text] without vocabulary yields one example for
    every line of the file, and every token of every example is non-empty
    and holds no space. *)
Theorem dataset_tokens (path_txt : list string) :
  length (load_dataset_from_text path_txt None : Dataset (list string)) = length path_txt ∧
  Forall (Forall is_token) (load_dataset_from_text path_txt None : Dataset (list string)).
Proof.
  unfold load_dataset_from_text, dataset_map. split; [by rewrite length_fmap|].
  apply Forall_fmap, Forall_forall. intros line _. simpl.
  by apply string_split_go_tokens.
Qed.

(** X2: writing sentences as lines of space-separated tokens and loading
    the file gives the sentences back; with a vocabulary it gives the ids
    of their tokens. *)
Theorem dataset_round_trip (sentences : list (list string)) (tb : Table) :
  Forall (Forall is_token) sentences →
  (load_dataset_from_text (join_tokens <$> sentences) None : Dataset (list string))
    = sentences ∧
  (load_dataset_from_text (join_tokens <$> sentences) (Some tb) : Dataset (list Z))
    = fmap (M:=list) (lookup_table tb) <$> sentences.
Proof.
  intros Htok.
  assert (string_split <$> (join_tokens <$> sentences) = sentences) as Hsplit.
  { induction Htok as [|tokens rest Ht _ IH]; [done|].
    rewrite !fmap_cons, IH. f_equal. by apply string_split_join. }
  unfold load_dataset_from_text, dataset_map. cbv zeta.
  split; [exact Hsplit|].
  exact (f_equal (fmap (M:=list) (fmap (M:=list) (lookup_table tb))) Hsplit).
Qed.

Lemma dataset_round_trip_witness :
  (load_dataset_from_text (join_tokens <$> [["a"; "b"; "c"]; []; ["d"]]%string) None
     : Dataset (list string))
    = [["a"; "b"; "c"]; []; ["d"]]%string ∧
  (load_dataset_from_text (join_tokens <$> [["a"; "b"; "c"]; []; ["d"]]%string)
     (Some example_words_table) : Dataset (list Z))
    = fmap (M:=list) (lookup_table example_words_table)
        <$> [["a"; "b"; "c"]; []; ["d"]]%string.
Proof.
  apply (dataset_round_trip [["a"; "b"; "c"]; []; ["d"]]%string example_words_table).
  repeat constructor; done.
Defined.

(** X3: a line that is empty or holds only spaces is not skipped, wherever
    it stands in the file: it yields an example without tokens at its own
    position, and the lines before and after it yield the examples they
    yield without it, with or without vocabulary. *)
Theorem blank_lines_give_empty_examples (pre post : list string) (n : nat)
    (vocab : option Table) :
  load_dataset_from_text (pre ++ spaces n :: post) vocab
    = load_dataset_from_text pre vocab ++ [] :: load_dataset_from_text post vocab ∧
  load_dataset_from_text (pre ++ spaces n :: post) vocab !! length pre = Some [] ∧
  length (load_dataset_from_text (pre ++ spaces n :: post) vocab)
    = length (pre ++ spaces n :: post).
Proof.
  assert (load_dataset_from_text (pre ++ spaces n :: post) vocab
          = load_dataset_from_text pre vocab ++ [] :: load_dataset_from_text post vocab)
    as Heq.
  { unfold load_dataset_from_text, dataset_map, Dataset. cbv zeta.
    destruct vocab as [tb|];
      rewrite !fmap_app, !fmap_cons, string_split_spaces; done. }
  assert (length (load_dataset_from_text pre vocab) = length pre) as Hpre.
  { unfold load_dataset_from_text, dataset_map, Dataset. cbv zeta.
    destruct vocab as [tb|]; by rewrite !length_fmap. }
  assert (length (load_dataset_from_text post vocab) = length post) as Hpost.
  { unfold load_dataset_from_text, dataset_map, Dataset. cbv zeta.
    destruct vocab as [tb|]; by rewrite !length_fmap. }
  split_and!; [done| |].
  - rewrite Heq. unfold Dataset in *. rewrite <-Hpre. apply list_lookup_middle. done.
  - rewrite Heq. unfold Dataset in *.
    rewrite !length_app. simpl. by rewrite Hpre, Hpost.
Qed.

(** ** What the batches hold *)

Lemma join_windows {A} fuel n (ds : list A) :
  (0 < n)%nat → (length ds ≤ fuel)%nat → mjoin (windows fuel n ds) = ds.
Proof.
  intros Hn. revert ds. induction fuel as [|fuel IH]; intros ds Hlen.
  - by destruct ds; [|simpl in Hlen; lia].
  - destruct ds as [|x ds']; [done|].
    rewrite windows_cons.
    transitivity (take n (x :: ds') ++ mjoin (windows fuel n (drop n (x :: ds'))));
      [done|].
    rewrite IH by (rewrite length_drop; simpl in *; lia).
    apply take_drop.
Qed.

Lemma pad_rows_padding {A} (pad : A) (rows : list (list A)) :
  Forall2 (is_padding_of pad) (pad_rows pad rows) rows.
Proof.
  unfold pad_rows. apply Forall2_fmap_l, Forall_Forall2_diag, Forall_forall.
  intros row _. by eexists.
Qed.

Lemma padded_join {A} (pad : A) (ws : list (list (list A))) :
  Forall2 (is_padding_of pad) (mjoin (pad_rows pad <$> ws)) (mjoin ws).
Proof.
  apply Forall2_join, Forall2_fmap_l, Forall_Forall2_diag, Forall_forall.
  intros w _. apply pad_rows_padding.
Qed.

Lemma examples_subseteq {W G} (sentences : Dataset (list W))
    (tags : option (Dataset (list G))) ex :
  ex ∈ examples sentences tags → ex ∈ sentences.
Proof.
  unfold examples, dataset_zip. destruct tags as [tgs|]; [|done].
  intros ([s t] & -> & Hin)%list_elem_of_fmap. by apply elem_of_zip_l in Hin.
Qed.

Lemma length_examples {W G} (sentences : Dataset (list W))
    (tags : option (Dataset (list G))) :
  length (examples sentences tags) =
    match tags with
    | Some tgs => (length sentences `min` length tgs)%nat
    | None => length sentences
    end.
Proof.
  unfold examples, dataset_zip. destruct tags as [tgs|]; [|done].
  by rewrite length_fmap, length_zip.
Qed.

Lemma lookup_table_bucket_range fast_hash lines tb key :
  index_table_from_file fast_hash lines 1 = Ok tb →
  0 ≤ lookup_table tb key < table_size tb.
Proof.
  intros Htb. rewrite (table_size_eq _ _ _ _ Htb).
  destruct (decide (key ∈ lines)) as [Hin|Hnot].
  - pose proof (lookup_table_known _ _ _ _ key Htb Hin). lia.
  - rewrite (lookup_table_oov_bucket _ _ _ key Htb Hnot). lia.
Qed.

(** The sentence rows of a produced batch are the padded rows of one
    window of the examples. *)
Lemma produced_sentence {W G} draws is_training (sentences : Dataset (list W))
    (tags : option (Dataset (list G))) batch_size pad_word pad_tag (inputs : Inputs W G) b :
  input_fn draws is_training sentences tags batch_size pad_word pad_tag = Ok inputs →
  b ∈ epoch_batches (iterator inputs) →
  ∃ k, (k * Z.to_nat batch_size < length (examples sentences tags))%nat ∧
       sentence b = pad_rows pad_word
         (take (Z.to_nat batch_size) (drop (k * Z.to_nat batch_size) (examples sentences tags))).
Proof.
  intros Hin Hb. pose proof (input_fn_Ok _ _ _ _ _ _ _ _ Hin) as [Hpos _].
  apply (produced_iff _ _ _ _ _ _ _ _ _ Hin) in Hb.
  assert (sentence b ∈ sentence <$>
            padded_windows sentences tags (Z.to_nat batch_size) pad_word pad_tag) as Hsb
    by (apply list_elem_of_fmap; by exists b).
  rewrite padded_windows_sentences in Hsb.
  apply list_elem_of_fmap in Hsb as (w & Hw & Hin_w).
  apply windows_elem in Hin_w as (k & Hk & ->); [|lia|done].
  by exists k.
Qed.

(** X4: when the sentences are looked up in a vocabulary with one
    out-of-vocabulary bucket and padded with the id of "<pad>" from that
    vocabulary, every id of every batch is an id of the vocabulary, in
    [[0, size())], padding included. *)
Theorem batch_ids_in_range {G : Type} (fast_hash : string → N)
    (vocab_lines path_txt : list string) (tb : Table) (draws : nat → nat)
    (is_training : bool) (tags : option (Dataset (list G))) (batch_size : Z)
    (pad_tag : G) (inputs : Inputs Z G) :
  index_table_from_file fast_hash vocab_lines 1 = Ok tb →
  input_fn draws is_training
    (load_dataset_from_text path_txt (Some tb) : Dataset (list Z)) tags batch_size
    (lookup_table tb "<pad>") pad_tag = Ok inputs →
  Forall (λ b, Forall (Forall (λ id, 0 ≤ id < table_size tb)) (sentence b))
    (epoch_batches (iterator inputs)).
Proof.
  intros Htb Hin. apply Forall_forall. intros b Hb.
  destruct (produced_sentence _ _ _ _ _ _ _ _ _ Hin Hb) as (k & _ & ->).
  unfold pad_rows. apply Forall_fmap, Forall_forall. intros row Hrow. simpl.
  apply slice_subseteq, examples_subseteq in Hrow.
  unfold pad_to. apply Forall_app. split.
  - unfold load_dataset_from_text, dataset_map in Hrow. cbv zeta in Hrow.
    apply list_elem_of_fmap in Hrow as (tokens & -> & _).
    apply Forall_fmap, Forall_forall. intros token _. simpl.
    by eapply lookup_table_bucket_range.
  - apply Forall_replicate. by eapply lookup_table_bucket_range.
Qed.

Lemma batch_ids_in_range_witness :
  Forall (λ b : Batch Z Z, Forall (Forall (λ id, 0 ≤ id < table_size example_words_table))
                 (sentence b))
    (epoch_batches (iterator
       {| iterator := make_initializable_iterator (λ k, k)
            (shuffle 100 [ {| sentence := [[0; 1; 5]; [5; 5; 5]]; tags := None |} ]) |})).
Proof.
  apply (batch_ids_in_range (G:=Z) no_hash (words_txt example_files) ["a b zz"; "<pad>"]%string
           example_words_table (λ k, k) true None 2 0); reflexivity.
Defined.

(** X5: the evaluation pipeline loses, repeats and reorders nothing: the
    sentence rows of its batches, read in order, are the examples in their
    order, each followed by padding only. *)
Theorem evaluation_keeps_examples {W G : Type} (draws : nat → nat)
    (sentences : Dataset (list W)) (tags : option (Dataset (list G)))
    (batch_size : Z) (pad_word : W) (pad_tag : G) (inputs : Inputs W G) :
  input_fn draws false sentences tags batch_size pad_word pad_tag = Ok inputs →
  Forall2 (is_padding_of pad_word)
    (mjoin (sentence <$> epoch_batches (iterator inputs)))
    (examples sentences tags).
Proof.
  intros [Hpos Hit]%input_fn_Ok.
  rewrite epoch_batches_unshuffled by (by rewrite Hit).
  rewrite Hit. cbn [it_pipeline make_initializable_iterator pl_input].
  rewrite padded_windows_sentences.
  rewrite <-(join_windows (length (examples sentences tags)) (Z.to_nat batch_size)
               (examples sentences tags)) at 3 by lia.
  apply padded_join.
Qed.

Lemma evaluation_keeps_examples_witness :
  Forall2 (is_padding_of 5)
    (mjoin (sentence <$> epoch_batches (iterator
       ({| iterator := make_initializable_iterator (λ k, k)
            (shuffle 1 [ {| sentence := [[0; 1; 2]; [3; 4; 5]];
                            tags := Some [[0; 0; 1]; [2; 0; 0]] |} ]) |}
        : Inputs Z Z))))
    (examples example_sentences (Some example_tags)).
Proof.
  apply (evaluation_keeps_examples (λ k, k) example_sentences (Some example_tags) 2 5 0).
  reflexivity.
Defined.

(** X6: training or not, the batches of a pass hold one row for every
    example that reached the batcher: for every sentence when there are no
    tags, and with tags for as many as the shorter of the two files has,
    the surplus of the longer one being dropped. *)
Theorem batches_hold_every_example {W G : Type} (draws : nat → nat) (is_training : bool)
    (sentences : Dataset (list W)) (tags : option (Dataset (list G)))
    (batch_size : Z) (pad_word : W) (pad_tag : G) (inputs : Inputs W G) :
  input_fn draws is_training sentences tags batch_size pad_word pad_tag = Ok inputs →
  length (mjoin (sentence <$> epoch_batches (iterator inputs))) =
    match tags with
    | Some tgs => (length sentences `min` length tgs)%nat
    | None => length sentences
    end.
Proof.
  intros Hin. pose proof (input_fn_Ok _ _ _ _ _ _ _ _ Hin) as [Hpos Hit].
  rewrite <-length_examples.
  assert (epoch_batches (iterator inputs)
          ≡ₚ padded_windows sentences tags (Z.to_nat batch_size) pad_word pad_tag) as ->.
  { rewrite Hit. rewrite epoch_batches_permutation; [done|].
    simpl. destruct is_training; lia. }
  rewrite padded_windows_sentences.
  rewrite (Forall2_length _ _ _ (padded_join pad_word _)).
  by rewrite join_windows by lia.
Qed.

Lemma batches_hold_every_example_witness :
  length (mjoin (sentence <$> epoch_batches (iterator
     ({| iterator := make_initializable_iterator (λ k, k)
          (shuffle 100 [ {| sentence := [[0; 1; 2]]; tags := Some [[0; 0; 1]] |} ]) |}
      : Inputs Z Z)))) =
    (length example_sentences `min` length (take 1 example_tags))%nat.
Proof.
  apply (batches_hold_every_example (λ k, k) true example_sentences
           (Some (take 1 example_tags)) 2 5 0).
  reflexivity.
Defined.

Lemma pad_rows_singleton {A} (pad : A) (row : list A) : pad_rows pad [row] = [row].
Proof.
  unfold pad_rows, pad_to. simpl.
  rewrite Nat.max_0_r, Nat.sub_diag. simpl. by rewrite app_nil_r.
Qed.

(** X7: with [batch_size = 1] nothing is ever padded: every batch is one
    example, its sentence unchanged and, when the pipeline was built with
    tags, its tag sequence unchanged, and there are as many batches as
    examples. *)
Theorem batch_size_one_never_pads {W G : Type} (draws : nat → nat) (is_training : bool)
    (sentences : Dataset (list W)) (tgs : option (Dataset (list G)))
    (pad_word : W) (pad_tag : G) (inputs : Inputs W G) :
  input_fn draws is_training sentences tgs 1 pad_word pad_tag = Ok inputs →
  Forall (λ b, ∃ k ex,
            examples sentences tgs !! k = Some ex ∧ sentence b = [ex] ∧
            match tgs with
            | Some _ => ∃ tag_ex, tag_examples sentences tgs !! k = Some tag_ex ∧
                                  tags b = Some [tag_ex]
            | None => tags b = None
            end)
    (epoch_batches (iterator inputs)) ∧
  length (epoch_batches (iterator inputs)) = length (examples sentences tgs).
Proof.
  intros Hin. split.
  - apply Forall_forall. intros b Hb.
    apply (produced_iff _ _ _ _ _ _ _ _ _ Hin) in Hb.
    change (Z.to_nat 1) with 1%nat in Hb.
    apply padded_windows_elem in Hb as (k & Hk & Hs & Ht); [|lia].
    rewrite Nat.mul_1_r in *.
    destruct (lookup_lt_is_Some_2 (examples sentences tgs) k Hk) as [ex Hex].
    exists k, ex. split; [done|].
    rewrite (drop_S _ _ _ Hex) in Hs. cbn [take] in Hs. rewrite take_0 in Hs.
    rewrite pad_rows_singleton in Hs. split; [done|].
    destruct tgs as [tg|]; [|done].
    rewrite <-(length_tag_examples sentences (Some tg)) in Hk by done.
    destruct (lookup_lt_is_Some_2 (tag_examples sentences (Some tg)) k Hk) as [tag_ex Htag].
    exists tag_ex. split; [done|].
    rewrite (drop_S _ _ _ Htag) in Ht. cbn [take] in Ht. rewrite take_0 in Ht.
    by rewrite pad_rows_singleton in Ht.
  - pose proof (input_fn_Ok _ _ _ _ _ _ _ _ Hin) as [_ Hit]. rewrite Hit.
    rewrite epoch_batches_permutation by (simpl; destruct is_training; lia).
    cbn [it_pipeline make_initializable_iterator pl_input].
    rewrite length_padded_windows by (change (Z.to_nat 1) with 1%nat; lia).
    change (Z.to_nat 1) with 1%nat. rewrite Nat.div_1_r. lia.
Qed.

Lemma batch_size_one_never_pads_witness :
  let inputs : Inputs Z Z :=
    {| iterator := make_initializable_iterator (λ k, k)
         (shuffle 100 [ {| sentence := [[0; 1; 2]]; tags := Some [[0; 0; 1]] |};
                        {| sentence := [[3; 4]]; tags := Some [[2; 0]] |} ]) |} in
  let tgs : option (Dataset (list Z)) := Some example_tags in
  Forall (λ b, ∃ k ex,
            examples example_sentences tgs !! k = Some ex ∧ sentence b = [ex] ∧
            ∃ tag_ex, tag_examples example_sentences tgs !! k = Some tag_ex ∧
                      tags b = Some [tag_ex])
    (epoch_batches (iterator inputs)) ∧
  length (epoch_batches (iterator inputs)) = length (examples example_sentences tgs).
Proof.
  apply (batch_size_one_never_pads (λ k, k) true example_sentences (Some example_tags) 5 0).
  reflexivity.
Defined.

(** X8: [input_fn] returns for every positive batch size, whatever the
    datasets hold.  The iterator it returns has not been initialised:
    asking it for a batch before the init op has run fails; and after the
    init op, when no example reaches the batcher, the first request already
    runs off the end, and otherwise it is served. *)
Theorem input_fn_edge_cases {W G : Type} (draws : nat → nat) (is_training : bool)
    (sentences : Dataset (list W)) (tags : option (Dataset (list G)))
    (batch_size : Z) (pad_word : W) (pad_tag : G) :
  (0 < batch_size →
     ∃ inputs, input_fn draws is_training sentences tags batch_size pad_word pad_tag
                 = Ok inputs) ∧
  (∀ inputs,
     input_fn draws is_training sentences tags batch_size pad_word pad_tag = Ok inputs →
     get_next (iterator inputs) = Raise FailedPreconditionError ∧
     (examples sentences tags = [] →
        get_next (initializer (iterator inputs)) = Raise OutOfRangeError) ∧
     (examples sentences tags ≠ [] →
        ∃ b it', get_next (initializer (iterator inputs)) = Ok (b, it'))).
Proof.
  split; [apply input_fn_succeeds|].
  intros inputs Hin. pose proof (input_fn_Ok _ _ _ _ _ _ _ _ Hin) as [Hpos Hit].
  assert (length (pl_input (it_pipeline (iterator inputs)))
          = ((length (examples sentences tags) + Z.to_nat batch_size - 1)
             / Z.to_nat batch_size)%nat) as Hlen.
  { rewrite Hit. cbn [it_pipeline make_initializable_iterator pl_input].
    apply length_padded_windows. lia. }
  split_and!.
  - by rewrite Hit.
  - intros Hnil. apply get_next_exhausted; [by eexists|].
    rewrite initializer_remaining, Hlen, Hnil. simpl.
    apply Nat.div_small. lia.
  - intros Hne. apply get_next_progress; [by eexists| |].
    + rewrite Hit. simpl. destruct is_training; lia.
    + rewrite initializer_remaining, Hlen.
      destruct (examples sentences tags) as [|ex exs]; [done|]. simpl.
      apply Nat.div_str_pos. lia.
Qed.

(** ** The training loop *)

(** The multiples of [s] below [i + 1] are those below [i], and [i] when
    it is one. *)
Lemma multiples_step (s i : Z) :
  0 < s → 0 ≤ i →
  (i + 1 + s - 1) / s = (i + s - 1) / s + (if i mod s =? 0 then 1 else 0).
Proof.
  intros Hs Hi.
  pose proof (Z.div_mod i s ltac:(lia)) as Hdm.
  pose proof (Z.mod_pos_bound i s Hs) as Hr.
  destruct (i mod s =? 0) eqn:Hz.
  - apply Z.eqb_eq in Hz.
    rewrite <-(Z.div_unique (i + 1 + s - 1) s (i / s + 1) 0) by lia.
    rewrite <-(Z.div_unique (i + s - 1) s (i / s) (s - 1)) by lia. lia.
  - apply Z.eqb_neq in Hz.
    rewrite <-(Z.div_unique (i + 1 + s - 1) s (i / s + 1) (i mod s)) by lia.
    rewrite <-(Z.div_unique (i + s - 1) s (i / s + 1) (i mod s - 1)) by lia. lia.
Qed.

Lemma train_loop_summaries {W G} params i n sess (it : Iterator (Batch W G)) writer
    sess' it' writer' :
  0 < save_summary_steps params →
  train_loop params i n sess it writer = Ok (sess', it', writer') →
  Z.of_nat writer' =
    Z.of_nat writer
    + ((Z.of_nat (i + n) + save_summary_steps params - 1) / save_summary_steps params
       - (Z.of_nat i + save_summary_steps params - 1) / save_summary_steps params).
Proof.
  intros Hs. revert i sess it writer.
  induction n as [|n IH]; intros i sess it writer; simpl.
  - intros [= <- <- <-]. rewrite Nat.add_0_r. lia.
  - unfold pymod. rewrite (proj2 (Z.eqb_neq _ _)) by lia. simpl.
    destruct (get_next it) as [[b it1]|e]; [|done]. simpl.
    intros Hloop%IH.
    replace (Z.of_nat (i + S n)) with (Z.of_nat (S i + n)) by lia.
    replace (Z.of_nat (S i)) with (Z.of_nat i + 1) in Hloop by lia.
    rewrite (multiples_step _ (Z.of_nat i)) in Hloop by lia.
    destruct (Z.of_nat i mod save_summary_steps params =? 0); lia.
Qed.


(** X9: a training phase with [save_summary_steps = s > 0] hands the
    writer a summary at the steps 0, s, 2s, ...: after [num_steps] steps
    the writer has received [num_steps / s] rounded up more summaries, and
    the global step has advanced by [num_steps]. *)
Theorem train_writes_summaries {W G : Type} (sess : Session) (model_spec : ModelSpec W G)
    (params : Params) (num_steps : Z) (writer : Writer)
    (sess' : Session) (model_spec' : ModelSpec W G) (writer' : Writer) :
  0 < save_summary_steps params →
  train sess model_spec params num_steps writer = Ok (sess', model_spec', writer') →
  Z.of_nat writer' =
    Z.of_nat writer
    + (Z.max 0 num_steps + save_summary_steps params - 1) / save_summary_steps params ∧
  Z.of_nat (global_step sess') = Z.of_nat (global_step sess) + Z.max 0 num_steps.
Proof.
  intros Hs Htrain%train_Ok.
  pose proof (train_loop_summaries _ _ _ _ _ _ _ _ _ Hs Htrain) as Hw.
  apply train_loop_counts in Htrain as (Hg & _).
  replace (Z.of_nat (0 + Z.to_nat num_steps)) with (Z.max 0 num_steps) in Hw by lia.
  replace ((Z.of_nat 0 + save_summary_steps params - 1) / save_summary_steps params)
    with 0 in Hw by (symmetry; apply Z.div_small; lia).
  split; lia.
Qed.

Lemma train_writes_summaries_witness :
  let out := train {| global_step := 0; evaluations := 0 |} (example_spec 100)
               steps_params 2 0%nat in
  Z.of_nat (match out with Ok (_, _, w) => w | Raise _ => 0%nat end) =
    Z.of_nat 0%nat
    + (Z.max 0 2 + save_summary_steps steps_params - 1) / save_summary_steps steps_params ∧
  Z.of_nat (global_step (match out with Ok (s, _, _) => s
                         | Raise _ => {| global_step := 0; evaluations := 0 |} end)) =
    Z.of_nat (global_step {| global_step := 0; evaluations := 0 |}) + Z.max 0 2.
Proof.
  apply (train_writes_summaries {| global_step := 0; evaluations := 0 |} (example_spec 100)
           steps_params 2 0%nat _
           (match train {| global_step := 0; evaluations := 0 |} (example_spec 100)
                    steps_params 2 0%nat with
            | Ok (_, sp, _) => sp | Raise _ => example_spec 100 end)).
  - reflexivity.
  - vm_compute. reflexivity.
Defined.

(** X10: with [save_summary_steps = 0] the first training step divides by
    zero, before any batch is pulled, whatever the pipeline holds; and
    with [num_steps <= 0] the phase runs no step: it only initialises the
    iterator, and leaves session and writer as they were. *)
Theorem train_edge_cases {W G : Type} (sess : Session) (model_spec : ModelSpec W G)
    (params : Params) (num_steps : Z) (writer : Writer) :
  (save_summary_steps params = 0 ∧ 0 < num_steps →
     train sess model_spec params num_steps writer = Raise ZeroDivisionError) ∧
  (num_steps ≤ 0 →
     train sess model_spec params num_steps writer
       = Ok (sess, {| spec_iterator := initializer (spec_iterator model_spec) |}, writer)).
Proof.
  split.
  - intros [Hs Hn]. unfold train.
    destruct (Z.to_nat num_steps) as [|n] eqn:E; [lia|].
    simpl. unfold pymod. by rewrite Hs.
  - intros Hn. unfold train.
    replace (Z.to_nat num_steps) with 0%nat by lia. done.
Qed.



(** ** The order of the accuracies

    The comparisons of binary64, on the specification of the primitive
    floats: a NaN compares with nothing. *)

Lemma SFcompare_lt_trans a b c o :
  SFcompare a b = Some o → o ≠ Gt → SFcompare b c = Some Lt → SFcompare a c = Some Lt.
Proof.
  destruct a as [sa|sa| |sa ma ea], b as [sb|sb| |sb mb eb], c as [sc|sc| |sc mc ec];
    simpl; try done;
    try (destruct sa); try (destruct sb); try (destruct sc); simpl;
    intros Hab Ho Hbc; try congruence;
    rewrite ?Pos.compare_cont_spec in *; simpl in *;
    destruct (Z.compare_spec ea eb), (Z.compare_spec eb ec), (Z.compare_spec ea ec);
    try lia; try congruence; subst;
    destruct (Pos.compare_spec ma mb), (Pos.compare_spec mb mc), (Pos.compare_spec ma mc);
    simpl in *; try lia; try congruence.
Qed.

Lemma SFcompare_le_trans a b c o o' :
  SFcompare a b = Some o → o ≠ Gt → SFcompare b c = Some o' → o' ≠ Gt →
  ∃ o'', SFcompare a c = Some o'' ∧ o'' ≠ Gt.
Proof.
  destruct a as [sa|sa| |sa ma ea], b as [sb|sb| |sb mb eb], c as [sc|sc| |sc mc ec];
    simpl; try done;
    try (destruct sa); try (destruct sb); try (destruct sc); simpl;
    intros Hab Ho Hbc Ho'; try congruence; eexists; (split; [reflexivity|]); try done;
    rewrite ?Pos.compare_cont_spec in *; simpl in *;
    destruct (Z.compare_spec ea eb), (Z.compare_spec eb ec), (Z.compare_spec ea ec);
    try lia; try congruence; subst;
    destruct (Pos.compare_spec ma mb), (Pos.compare_spec mb mc), (Pos.compare_spec ma mc);
    simpl in *; try lia; try congruence.
Qed.

Lemma leb_ltb_trans (a b c : float) :
  (a <=? b)%float = true → (b <? c)%float = true → (a <? c)%float = true.
Proof.
  rewrite leb_spec, !ltb_spec. unfold SFleb, SFltb.
  destruct (SFcompare (Prim2SF a) (Prim2SF b)) as [o|] eqn:Hab; [|done].
  destruct (SFcompare (Prim2SF b) (Prim2SF c)) as [[]|] eqn:Hbc; try done.
  intros Ho _. rewrite (SFcompare_lt_trans _ _ _ o Hab); [done| |done].
  by destruct o.
Qed.

Lemma leb_trans (a b c : float) :
  (a <=? b)%float = true → (b <=? c)%float = true → (a <=? c)%float = true.
Proof.
  rewrite !leb_spec. unfold SFleb.
  destruct (SFcompare (Prim2SF a) (Prim2SF b)) as [o|] eqn:Hab; [|done].
  destruct (SFcompare (Prim2SF b) (Prim2SF c)) as [o'|] eqn:Hbc; [|by destruct o].
  intros Ho Ho'.
  destruct (SFcompare_le_trans _ _ (Prim2SF c) o o' Hab) as (o'' & -> & Ho'');
    [by destruct o|done|by destruct o'|by destruct o''].
Qed.

Lemma ltb_irrefl (a : float) : (a <? a)%float = false.
Proof.
  rewrite ltb_spec. unfold SFltb.
  destruct (Prim2SF a) as [s|s| |s m e]; simpl; try done; try by destruct s.
  rewrite Z.compare_refl, Pos.compare_cont_spec, Pos.compare_refl. by destruct s.
Qed.

Lemma ltb_leb (a b : float) : (a <? b)%float = true → (a <=? b)%float = true.
Proof.
  rewrite ltb_spec, leb_spec. unfold SFltb, SFleb.
  by destruct (SFcompare _ _) as [[]|].
Qed.

(** The recorded best is the accuracy of the epoch whose checkpoint is
    kept. *)
Lemma best_so_far_value acc n e :
  (best_so_far acc n).2 = Some e → (best_so_far acc n).1 = acc (pred e).
Proof.
  induction n as [|n IH]; [done|]. cbn [best_so_far].
  destruct (best_so_far acc n) as [best kept].
  destruct (best <=? acc n)%float; simpl; [by intros [= <-]|done].
Qed.

(** No checkpoint is kept only when no accuracy reached 0.0. *)
Lemma best_so_far_none acc n :
  (best_so_far acc n).2 = None →
  (best_so_far acc n).1 = 0.0%float ∧ ∀ k, (k < n)%nat → (0.0 <=? acc k)%float = false.
Proof.
  induction n as [|n IH]; [split; [done|lia]|]. cbn [best_so_far].
  destruct (best_so_far acc n) as [best kept].
  destruct (best <=? acc n)%float eqn:Hle; simpl; [done|].
  intros Hkept. destruct (IH Hkept) as [Hbest Hall]. simpl in Hbest. subst best.
  split; [done|]. intros k Hk.
  destruct (decide (k = n)) as [->|]; [done|]. apply Hall. lia.
Qed.

Lemma best_so_far_ge_zero acc n : (0.0 <=? (best_so_far acc n).1)%float = true.
Proof.
  induction n as [|n IH]; [done|]. cbn [best_so_far].
  destruct (best_so_far acc n) as [best kept]. simpl in IH.
  destruct (best <=? acc n)%float eqn:Hle; simpl; [|done].
  by apply (leb_trans _ best).
Qed.

Lemma best_so_far_upper acc n k :
  (k < n)%nat → ((best_so_far acc n).1 <? acc k)%float = false.
Proof.
  induction n as [|n IH]; [lia|]. intros Hk. cbn [best_so_far].
  destruct (best_so_far acc n) as [best kept]. simpl in IH.
  destruct (best <=? acc n)%float eqn:Hle; simpl.
  - destruct (decide (k = n)) as [->|Hne]; [apply ltb_irrefl|].
    destruct (acc n <? acc k)%float eqn:Hlt; [|done].
    rewrite <-IH by lia. symmetry. by apply (leb_ltb_trans _ (acc n)).
  - destruct (decide (k = n)) as [->|Hne]; [|apply IH; lia].
    destruct (best <? acc n)%float eqn:Hlt; [|done].
    apply ltb_leb in Hlt. congruence.
Qed.

(** ** A run on a disk that is in use *)

(** X12: whatever the disk holds when a run starts, the run adds and
    deletes only checkpoints named after-epoch-e of its own last_weights and
    best_weights directories, for the epochs [e] of the run: every other
    checkpoint, every JSON file other than its two metrics files, and the
    checkpoint state of every other directory are after the run as they
    were before. *)
Theorem run_touches_only_its_files {W G : Type} (model : Model) (disk : Disk)
    (train_spec eval_spec : ModelSpec W G) (model_dir : string) (params : Params)
    (restore_dir : option string) :
  feasible params train_spec eval_spec →
  restorable disk restore_dir →
  ∃ r, train_and_evaluate model disk train_spec eval_spec model_dir params restore_dir = Ok r ∧
    let n := Z.to_nat (num_epochs params) in
    (∀ q, ¬ own_checkpoint model_dir n q →
          q ∈ checkpoints (run_disk r) ↔ q ∈ checkpoints disk) ∧
    (∀ path, path ≠ best_json_path model_dir → path ≠ last_json_path model_dir →
             json_files (run_disk r) !! path = json_files disk !! path) ∧
    (∀ dir, dir ≠ last_dir model_dir → dir ≠ best_dir model_dir →
            checkpoint_state (run_disk r) !! dir = checkpoint_state disk !! dir).
Proof.
  intros Hf Hrest.
  destruct (train_and_evaluate_succeeds model disk train_spec eval_spec model_dir
              params restore_dir Hf Hrest) as [r Hrun].
  exists r. split; [done|].
  pose proof (train_and_evaluate_run_inv _ _ _ _ _ _ _ _ Hrun)
    as (_ & _ & _ & _ & Hnew & Hold & Hjson & Hstate & _).
  simpl in Hnew, Hold, Hjson, Hstate. intros n.
  split_and!; try done.
  intros q Hq. split; [|by intros ?; apply Hold].
  by intros [?|?]%Hnew.
Qed.

Lemma run_touches_only_its_files_witness :
  ∃ r, train_and_evaluate (example_model scenario_accuracies) used_disk (example_spec 100)
         (example_spec 1) "experiments/test" (example_params 5)
         (Some "experiments/base/last_weights"%string) = Ok r ∧
    let n := Z.to_nat (num_epochs (example_params 5)) in
    (∀ q, ¬ own_checkpoint "experiments/test" n q →
          q ∈ checkpoints (run_disk r) ↔ q ∈ checkpoints used_disk) ∧
    (∀ path, path ≠ best_json_path "experiments/test" →
             path ≠ last_json_path "experiments/test" →
             json_files (run_disk r) !! path = json_files used_disk !! path) ∧
    (∀ dir, dir ≠ last_dir "experiments/test" → dir ≠ best_dir "experiments/test" →
            checkpoint_state (run_disk r) !! dir = checkpoint_state used_disk !! dir).
Proof.
  apply (run_touches_only_its_files (example_model scenario_accuracies) used_disk
           (example_spec 100) (example_spec 1) "experiments/test" (example_params 5)
           (Some "experiments/base/last_weights"%string)).
  - unfold feasible. simpl. split_and!; try done; vm_compute; lia.
  - vm_compute. reflexivity.
Defined.

(** X13: after a run of at least one epoch the checkpoint file of
    last_weights names the checkpoint of the last epoch, which is on disk:
    restoring from that directory succeeds, and a second run started with
    it as [restore_dir] succeeds as well.  Restoring from best_weights
    succeeds when some epoch had an accuracy of at least 0.0. *)
Theorem run_can_be_resumed {W G : Type} (model : Model) (disk : Disk)
    (train_spec eval_spec : ModelSpec W G) (model_dir : string) (params : Params)
    (restore_dir : option string) :
  feasible params train_spec eval_spec →
  restorable disk restore_dir →
  0 < num_epochs params →
  ∃ r, train_and_evaluate model disk train_spec eval_spec model_dir params restore_dir = Ok r ∧
    let n := Z.to_nat (num_epochs params) in
    checkpoint_state (run_disk r) !! last_dir model_dir = Some (last_path model_dir n) ∧
    saver_restore (run_disk r) (last_dir model_dir) = Ok () ∧
    ((∃ k, (k < n)%nat ∧ (0.0 <=? eval_accuracy model k)%float = true) →
       saver_restore (run_disk r) (best_dir model_dir) = Ok ()) ∧
    ∃ r', train_and_evaluate model (run_disk r) train_spec eval_spec model_dir params
            (Some (last_dir model_dir)) = Ok r'.
Proof.
  intros Hf Hrest Hpos.
  destruct (train_and_evaluate_succeeds model disk train_spec eval_spec model_dir
              params restore_dir Hf Hrest) as [r Hrun].
  exists r. split; [done|].
  pose proof (train_and_evaluate_run_inv _ _ _ _ _ _ _ _ Hrun)
    as (_ & _ & _ & _ & _ & _ & _ & _ & Hlast & Hkept).
  simpl in Hlast, Hkept. intros n. fold n in Hlast, Hkept.
  destruct Hlast as (Hstate & Hin & _); [lia|].
  assert (saver_restore (run_disk r) (last_dir model_dir) = Ok ()) as Hrestore.
  { unfold saver_restore. rewrite Hstate. by rewrite decide_True. }
  split_and!; try done.
  - intros (k & Hk & Hacc).
    destruct (best_so_far (eval_accuracy model) n).2 as [e|] eqn:Hbest.
    + destruct Hkept as (Hbs & Hbin & _).
      unfold saver_restore. rewrite Hbs. by rewrite decide_True.
    + apply best_so_far_none in Hbest as [_ Hall]. rewrite (Hall k Hk) in Hacc. done.
  - by apply train_and_evaluate_succeeds.
Qed.

Lemma run_can_be_resumed_witness :
  let model := example_model scenario_accuracies in
  ∃ r, train_and_evaluate model used_disk (example_spec 100) (example_spec 1)
         "experiments/test" (example_params 5) None = Ok r ∧
    let n := Z.to_nat (num_epochs (example_params 5)) in
    checkpoint_state (run_disk r) !! last_dir "experiments/test"
      = Some (last_path "experiments/test" n) ∧
    saver_restore (run_disk r) (last_dir "experiments/test") = Ok () ∧
    ((∃ k, (k < n)%nat ∧ (0.0 <=? eval_accuracy model k)%float = true) →
       saver_restore (run_disk r) (best_dir "experiments/test") = Ok ()) ∧
    ∃ r', train_and_evaluate model (run_disk r) (example_spec 100) (example_spec 1)
            "experiments/test" (example_params 5)
            (Some (last_dir "experiments/test")) = Ok r'.
Proof.
  apply (run_can_be_resumed (example_model scenario_accuracies) used_disk
           (example_spec 100) (example_spec 1) "experiments/test" (example_params 5) None).
  - unfold feasible. simpl. split_and!; try done; vm_compute; lia.
  - exact I.
  - reflexivity.
Defined.

(** X14: the best accuracy a run ends with is at least 0.0 and no epoch
    of the run had an accuracy above it, on any disk.  When some epoch had
    an accuracy of at least 0.0 it is the accuracy recorded in
    metrics_eval_best_weights.json, and the best saver holds one
    checkpoint; when none had, it is 0.0 and the file is as it was before
    the run. *)
Theorem best_accuracy_is_maximal {W G : Type} (model : Model) (disk : Disk)
    (train_spec eval_spec : ModelSpec W G) (model_dir : string) (params : Params)
    (restore_dir : option string) :
  feasible params train_spec eval_spec →
  restorable disk restore_dir →
  ∃ r, train_and_evaluate model disk train_spec eval_spec model_dir params restore_dir = Ok r ∧
    let n := Z.to_nat (num_epochs params) in
    (0.0 <=? best_eval_acc r)%float = true ∧
    Forall (λ k, (best_eval_acc r <? eval_accuracy model k)%float = false) (seq 0 n) ∧
    ((∃ k, (k < n)%nat ∧ (0.0 <=? eval_accuracy model k)%float = true) →
       length (last_checkpoints (best_saver r)) = 1%nat ∧
       ∃ metrics,
         json_files (run_disk r) !! best_json_path model_dir = Some metrics ∧
         metrics !! "accuracy"%string = Some (best_eval_acc r)) ∧
    ((∀ k, (k < n)%nat → (0.0 <=? eval_accuracy model k)%float = false) →
       best_eval_acc r = 0.0%float ∧
       last_checkpoints (best_saver r) = [] ∧
       json_files (run_disk r) !! best_json_path model_dir
         = json_files disk !! best_json_path model_dir).
Proof.
  intros Hf Hrest.
  destruct (train_and_evaluate_succeeds model disk train_spec eval_spec model_dir
              params restore_dir Hf Hrest) as [r Hrun].
  exists r. split; [done|].
  pose proof (train_and_evaluate_run_inv _ _ _ _ _ _ _ _ Hrun)
    as (_ & _ & Hlist & Hacc & _ & _ & _ & _ & _ & Hkept).
  simpl in Hlist, Hacc, Hkept. intros n. fold n in Hlist, Hacc, Hkept.
  split_and!.
  - rewrite Hacc. apply best_so_far_ge_zero.
  - apply Forall_forall. intros k Hk%elem_of_seq.
    rewrite Hacc. apply best_so_far_upper. lia.
  - intros (k & Hk & Hge).
    destruct (best_so_far (eval_accuracy model) n).2 as [e|] eqn:Hbest.
    + destruct Hkept as (_ & _ & Hjson). rewrite Hlist. split; [done|].
      eexists. split; [exact Hjson|].
      rewrite final_metrics_accuracy, Hacc. f_equal. symmetry.
      by apply best_so_far_value.
    + apply best_so_far_none in Hbest as [_ Hall]. rewrite (Hall k Hk) in Hge. done.
  - intros Hall.
    destruct (best_so_far (eval_accuracy model) n).2 as [e|] eqn:Hbest.
    + pose proof (best_so_far_kept _ _ _ Hbest) as He.
      pose proof (best_so_far_value _ _ _ Hbest) as Hval.
      pose proof (best_so_far_ge_zero (eval_accuracy model) n) as Hge.
      rewrite Hval, Hall in Hge by lia. done.
    + destruct Hkept as [_ Hjson].
      apply best_so_far_none in Hbest as [Hzero _].
      rewrite Hacc, Hlist. done.
Qed.

Lemma best_accuracy_is_maximal_witness :
  let model := example_model scenario_accuracies in
  ∃ r, train_and_evaluate model used_disk (example_spec 100) (example_spec 1)
         "experiments/test" (example_params 5) None = Ok r ∧
    let n := Z.to_nat (num_epochs (example_params 5)) in
    (0.0 <=? best_eval_acc r)%float = true ∧
    Forall (λ k, (best_eval_acc r <? eval_accuracy model k)%float = false) (seq 0 n) ∧
    ((∃ k, (k < n)%nat ∧ (0.0 <=? eval_accuracy model k)%float = true) →
       length (last_checkpoints (best_saver r)) = 1%nat ∧
       ∃ metrics,
         json_files (run_disk r) !! best_json_path "experiments/test" = Some metrics ∧
         metrics !! "accuracy"%string = Some (best_eval_acc r)) ∧
    ((∀ k, (k < n)%nat → (0.0 <=? eval_accuracy model k)%float = false) →
       best_eval_acc r = 0.0%float ∧
       last_checkpoints (best_saver r) = [] ∧
       json_files (run_disk r) !! best_json_path "experiments/test"
         = json_files used_disk !! best_json_path "experiments/test").
Proof.
  apply (best_accuracy_is_maximal (example_model scenario_accuracies) used_disk
           (example_spec 100) (example_spec 1) "experiments/test" (example_params 5) None).
  - unfold feasible. simpl. split_and!; try done; vm_compute; lia.
  - exact I.
Defined.

(** X15: after a run of at least one epoch metrics_eval_last_weights.json
    holds the metrics of the last evaluation, whatever the accuracies were
    and whatever the disk held; and when the best checkpoint is the one of
    the last epoch, metrics_eval_best_weights.json has the same content. *)
Theorem last_metrics_file {W G : Type} (model : Model) (disk : Disk)
    (train_spec eval_spec : ModelSpec W G) (model_dir : string) (params : Params)
    (restore_dir : option string) :
  feasible params train_spec eval_spec →
  restorable disk restore_dir →
  0 < num_epochs params →
  ∃ r, train_and_evaluate model disk train_spec eval_spec model_dir params restore_dir = Ok r ∧
    let n := Z.to_nat (num_epochs params) in
    json_files (run_disk r) !! last_json_path model_dir
      = Some (final_metrics model (pred n)) ∧
    (last_checkpoints (best_saver r) = [best_path model_dir n] →
       json_files (run_disk r) !! best_json_path model_dir
         = json_files (run_disk r) !! last_json_path model_dir).
Proof.
  intros Hf Hrest Hpos.
  destruct (train_and_evaluate_succeeds model disk train_spec eval_spec model_dir
              params restore_dir Hf Hrest) as [r Hrun].
  exists r. split; [done|].
  pose proof (train_and_evaluate_run_inv _ _ _ _ _ _ _ _ Hrun)
    as (_ & _ & Hlist & _ & _ & _ & _ & _ & Hlast & Hkept).
  simpl in Hlist, Hlast, Hkept. intros n. fold n in Hlist, Hlast, Hkept.
  destruct Hlast as (_ & _ & Hjson); [lia|].
  split; [done|]. rewrite Hlist, Hjson.
  destruct (best_so_far (eval_accuracy model) n).2 as [e|]; simpl; [|done].
  intros [= ->]. by destruct Hkept as (_ & _ & ->).
Qed.

Lemma last_metrics_file_witness :
  let model := example_model scenario_accuracies in
  ∃ r, train_and_evaluate model used_disk (example_spec 100) (example_spec 1)
         "experiments/test" (example_params 4) None = Ok r ∧
    let n := Z.to_nat (num_epochs (example_params 4)) in
    json_files (run_disk r) !! last_json_path "experiments/test"
      = Some (final_metrics model (pred n)) ∧
    (last_checkpoints (best_saver r) = [best_path "experiments/test" n] →
       json_files (run_disk r) !! best_json_path "experiments/test"
         = json_files (run_disk r) !! last_json_path "experiments/test").
Proof.
  apply (last_metrics_file (example_model scenario_accuracies) used_disk
           (example_spec 100) (example_spec 1) "experiments/test" (example_params 4) None).
  - unfold feasible. simpl. split_and!; try done; vm_compute; lia.
  - exact I.
  - reflexivity.
Defined.

(** ** The whole run *)

Lemma epoch_body_writer {W G} model model_dir params epoch (r r' : Run (W:=W) (G:=G)) :
  epoch_body model model_dir params epoch r = Ok r' →
  ∃ sess1,
    train (run_sess r) (run_train_spec r) params (train_steps params) (run_train_writer r)
      = Ok (sess1, run_train_spec r', run_train_writer r') ∧
    global_step (run_sess r') = global_step sess1 ∧
    evaluations (run_sess r') = S (evaluations (run_sess r)).
Proof.
  unfold epoch_body, floordiv, train_steps, eval_steps.
  destruct (batch_size params =? 0) eqn:Hbs; [done|]. simpl.
  destruct (train _ _ _ _ _) as [[[sess1 tspec] tw]|e] eqn:Htrain; [|done]. simpl.
  destruct (saver_save (last_saver r) _ _) as [ls d1] eqn:Hlast.
  destruct (evaluate _ _ _ _ _) as [[[sess2 espec] metrics]|e] eqn:Heval; [|done]. simpl.
  pose proof (evaluate_Ok _ _ _ _ _ _ _ _ Heval) as (_ & -> & Hev & Hgs).
  pose proof (train_loop_counts _ _ _ _ _ _ _ _ _ (train_Ok _ _ _ _ _ _ _ _ Htrain))
    as (_ & _ & Hev1).
  rewrite final_metrics_accuracy. simpl.
  destruct (best_eval_acc r <=? _)%float.
  - destruct (saver_save (best_saver r) d1 _) as [bs d2].
    intros [= <-]. simpl. exists sess1. by rewrite Hev, Hev1.
  - intros [= <-]. simpl. exists sess1. by rewrite Hev, Hev1.
Qed.

Lemma epochs_from_totals {W G} model model_dir params epoch n (r r' : Run (W:=W) (G:=G)) :
  0 < save_summary_steps params →
  epochs_from model model_dir params epoch n r = Ok r' →
  let steps := Z.max 0 (train_steps params) in
  Z.of_nat (global_step (run_sess r'))
    = Z.of_nat (global_step (run_sess r)) + Z.of_nat n * steps ∧
  evaluations (run_sess r') = (evaluations (run_sess r) + n)%nat ∧
  Z.of_nat (run_train_writer r')
    = Z.of_nat (run_train_writer r)
      + Z.of_nat n * ((steps + save_summary_steps params - 1) / save_summary_steps params) ∧
  Z.of_nat (it_drawn (spec_iterator (run_train_spec r')))
    = Z.of_nat (it_drawn (spec_iterator (run_train_spec r))) + Z.of_nat n * steps.
Proof.
  intros Hs. revert epoch r. induction n as [|n IH]; intros epoch r; simpl.
  - intros [= <-]. split_and!; lia.
  - destruct (epoch_body _ _ _ _ r) as [r1|e] eqn:Hbody; [|done]. simpl.
    intros (Hg & He & Hw & Hd)%IH.
    apply epoch_body_writer in Hbody as (sess1 & Htrain%train_Ok & Hg1 & He1).
    pose proof (train_loop_summaries _ _ _ _ _ _ _ _ _ Hs Htrain) as Hw1.
    apply train_loop_counts in Htrain as (Hg2 & Hd2 & _). simpl in Hd2.
    replace (Z.of_nat (0 + Z.to_nat (train_steps params)))
      with (Z.max 0 (train_steps params)) in Hw1 by lia.
    replace ((Z.of_nat 0 + save_summary_steps params - 1) / save_summary_steps params)
      with 0 in Hw1 by (symmetry; apply Z.div_small; lia).
    rewrite Hg, He, Hw, Hd, Hg1, Hg2, He1, Hw1, Hd2.
    split_and!; lia.
Qed.

(** X16: the totals of a run of [n] epochs.  With a positive
    [save_summary_steps = s] and [num_steps = (train_size + 1) // batch_size]
    training steps in each epoch, a run ends with the global step at
    [n * num_steps], after [n] evaluations, with [n] times [num_steps / s]
    rounded up summaries in the training writer and [n * num_steps]
    batches drawn from the training iterator. *)
Theorem run_totals {W G : Type} (model : Model) (disk : Disk)
    (train_spec eval_spec : ModelSpec W G) (model_dir : string) (params : Params)
    (restore_dir : option string) :
  feasible params train_spec eval_spec →
  restorable disk restore_dir →
  0 < save_summary_steps params →
  ∃ r, train_and_evaluate model disk train_spec eval_spec model_dir params restore_dir = Ok r ∧
    let n := Z.of_nat (Z.to_nat (num_epochs params)) in
    let num_steps := Z.max 0 ((train_size params + 1) / batch_size params) in
    let s := save_summary_steps params in
    Z.of_nat (global_step (run_sess r)) = n * num_steps ∧
    Z.of_nat (evaluations (run_sess r)) = n ∧
    Z.of_nat (run_train_writer r) = n * ((num_steps + s - 1) / s) ∧
    Z.of_nat (it_drawn (spec_iterator (run_train_spec r)))
      = Z.of_nat (it_drawn (spec_iterator train_spec)) + n * num_steps.
Proof.
  intros Hf Hrest Hs.
  destruct (train_and_evaluate_succeeds model disk train_spec eval_spec model_dir
              params restore_dir Hf Hrest) as [r Hrun].
  exists r. split; [done|].
  unfold train_and_evaluate in Hrun.
  destruct (match restore_dir with Some dir => _ | None => _ end) as [[]|e]; [|done].
  simpl in Hrun.
  apply epochs_from_totals in Hrun as (Hg & He & Hw & Hd); [|done].
  simpl in Hg, He, Hw, Hd. unfold train_steps in Hg, Hw, Hd.
  intros n num_steps s. split_and!; [done|lia|done|done].
Qed.

Lemma run_totals_witness :
  ∃ r, train_and_evaluate (example_model []) empty_disk (example_spec 100) (example_spec 1)
         "experiments/test" (example_params 7) None = Ok r ∧
    let n := Z.of_nat (Z.to_nat (num_epochs (example_params 7))) in
    let num_steps :=
      Z.max 0 ((train_size (example_params 7) + 1) / batch_size (example_params 7)) in
    let s := save_summary_steps (example_params 7) in
    Z.of_nat (global_step (run_sess r)) = n * num_steps ∧
    Z.of_nat (evaluations (run_sess r)) = n ∧
    Z.of_nat (run_train_writer r) = n * ((num_steps + s - 1) / s) ∧
    Z.of_nat (it_drawn (spec_iterator (run_train_spec r)))
      = Z.of_nat (it_drawn (spec_iterator (example_spec 100))) + n * num_steps.
Proof.
  apply (run_totals (example_model []) empty_disk (example_spec 100) (example_spec 1)
           "experiments/test" (example_params 7) None).
  - unfold feasible. simpl. split_and!; try done; vm_compute; lia.
  - exact I.
  - reflexivity.
Defined.

(** When one of the two phases asks for more steps than its pipeline has
    batches, the first epoch runs out of batches. *)
Lemma train_and_evaluate_exhausts {W G} model disk (train_spec eval_spec : ModelSpec W G)
    model_dir params restore_dir :
  restorable disk restore_dir →
  batch_size params ≠ 0 → save_summary_steps params ≠ 0 →
  (0 < pl_buffer_size (it_pipeline (spec_iterator train_spec)))%nat →
  (0 < pl_buffer_size (it_pipeline (spec_iterator eval_spec)))%nat →
  0 < num_epochs params →
  (length (pl_input (it_pipeline (spec_iterator train_spec)))
     < Z.to_nat (train_steps params) ∨
   length (pl_input (it_pipeline (spec_iterator eval_spec)))
     < Z.to_nat (eval_steps params))%nat →
  train_and_evaluate model disk train_spec eval_spec model_dir params restore_dir
    = Raise OutOfRangeError.
Proof.
  intros Hrest Hbs Hsss HNt HNe Hep Hshort. unfold train_and_evaluate.
  assert (match restore_dir with Some dir => saver_restore disk dir | None => Ok () end
          = Ok ()) as -> by (by destruct restore_dir).
  simpl.
  destruct (Z.to_nat (num_epochs params)) as [|n] eqn:Hn; [lia|].
  cbn [epochs_from]. unfold epoch_body, floordiv. cbn [run_sess run_train_spec
    run_train_writer run_eval_spec run_eval_writer last_saver run_disk].
  rewrite (proj2 (Z.eqb_neq _ _) Hbs). cbn -[train evaluate saver_save].
  fold (train_steps params) (eval_steps params).
  destruct (decide (Z.to_nat (train_steps params)
                    ≤ length (pl_input (it_pipeline (spec_iterator train_spec))))%nat)
    as [Hfit|Hnofit].
  - destruct (train_succeeds {| global_step := 0; evaluations := 0 |} train_spec params
                (train_steps params) 0%nat Hsss HNt Hfit) as (s1 & sp1 & w1 & -> & _).
    cbn -[evaluate saver_save].
    destruct (saver_save _ _ _) as [ls d1].
    unfold evaluate. rewrite evaluate_loop_exhausted; [done|by apply ready_initializer|].
    rewrite initializer_remaining. lia.
  - rewrite train_exhausts; [done|done|done|lia].
Qed.

(** X17: the edges of [train_and_evaluate].  A [restore_dir] without a
    checkpoint file fails with ValueError before anything is trained or
    saved; without epochs to run the run ends at once, leaving the disk as
    it was, the global step at 0 and both savers empty; with
    [batch_size = 0] the first epoch divides by zero; and when a phase asks
    for more steps than its pipeline has batches the first epoch fails with
    OutOfRangeError. *)
Theorem run_edge_cases {W G : Type} (model : Model) (disk : Disk)
    (train_spec eval_spec : ModelSpec W G) (model_dir : string) (params : Params)
    (restore_dir : option string) :
  (∀ dir, restore_dir = Some dir ∧ checkpoint_state disk !! dir = None →
     train_and_evaluate model disk train_spec eval_spec model_dir params restore_dir
       = Raise ValueError) ∧
  (restorable disk restore_dir ∧ num_epochs params ≤ 0 →
     ∃ r, train_and_evaluate model disk train_spec eval_spec model_dir params restore_dir
            = Ok r ∧
          run_disk r = disk ∧ global_step (run_sess r) = 0%nat ∧
          last_checkpoints (last_saver r) = [] ∧ last_checkpoints (best_saver r) = [] ∧
          run_train_spec r = train_spec ∧ run_eval_spec r = eval_spec) ∧
  (restorable disk restore_dir ∧ 0 < num_epochs params ∧ batch_size params = 0 →
     train_and_evaluate model disk train_spec eval_spec model_dir params restore_dir
       = Raise ZeroDivisionError) ∧
  (restorable disk restore_dir ∧ 0 < num_epochs params ∧
   batch_size params ≠ 0 ∧ save_summary_steps params ≠ 0 ∧
   (0 < pl_buffer_size (it_pipeline (spec_iterator train_spec)))%nat ∧
   (0 < pl_buffer_size (it_pipeline (spec_iterator eval_spec)))%nat ∧
   (length (pl_input (it_pipeline (spec_iterator train_spec)))
      < Z.to_nat ((train_size params + 1) / batch_size params) ∨
    length (pl_input (it_pipeline (spec_iterator eval_spec)))
      < Z.to_nat ((eval_size params + 1) / batch_size params))%nat →
     train_and_evaluate model disk train_spec eval_spec model_dir params restore_dir
       = Raise OutOfRangeError).
Proof.
  assert (restorable disk restore_dir →
          match restore_dir with Some dir => saver_restore disk dir | None => Ok () end
          = Ok ()) as Hrestore by (by destruct restore_dir).
  split_and!.
  - intros dir [-> Hnone]. unfold train_and_evaluate, saver_restore. by rewrite Hnone.
  - intros [Hrest Hn]. unfold train_and_evaluate. rewrite (Hrestore Hrest). simpl.
    replace (Z.to_nat (num_epochs params)) with 0%nat by lia.
    eexists. split; [reflexivity|done].
  - intros (Hrest & Hn & Hbs). unfold train_and_evaluate. rewrite (Hrestore Hrest). simpl.
    destruct (Z.to_nat (num_epochs params)) as [|n] eqn:E; [lia|].
    cbn [epochs_from]. unfold epoch_body, floordiv. by rewrite Hbs.
  - intros (Hrest & Hn & Hbs & Hsss & HNt & HNe & Hshort).
    by apply train_and_evaluate_exhausts.
Qed.

(** ** The script *)

Lemma read_lines_repeated seen lines :
  Forall (λ key, key ≠ EmptyString) lines →
  ¬ (NoDup lines ∧ Forall (λ key, key ∉ seen) lines) →
  read_lines seen lines = Raise FailedPreconditionError.
Proof.
  revert seen. induction lines as [|key lines IH]; intros seen Hne Hbad.
  - destruct Hbad. split; [apply NoDup_nil_2|apply Forall_nil_2].
  - apply Forall_cons in Hne as [Hkey Hne]. simpl.
    rewrite decide_False by done.
    destruct (decide (key ∈ seen)) as [Hs|Hs]; [done|].
    apply IH; [done|]. intros [Hnd Hall]. apply Hbad.
    rewrite Forall_forall in Hall. split.
    + apply NoDup_cons. split; [|done].
      intros Hin. apply (Hall key Hin). by left.
    + apply Forall_cons. split; [done|]. apply Forall_forall.
      intros x Hx Hin. apply (Hall x Hx). by right.
Qed.

Lemma read_lines_empty seen lines :
  NoDup lines → Forall (λ key, key ∉ seen) lines → EmptyString ∈ lines →
  read_lines seen lines = Raise InvalidArgumentError.
Proof.
  revert seen. induction lines as [|key lines IH]; intros seen Hnd Hall Hin.
  - by apply not_elem_of_nil in Hin.
  - simpl. destruct (decide (key = EmptyString)) as [He|He]; [done|].
    apply NoDup_cons in Hnd as [Hnotin Hnd].
    apply Forall_cons in Hall as [Hs Hall].
    rewrite decide_False by done.
    apply IH; [done| |].
    + rewrite Forall_forall in Hall. apply Forall_forall.
      intros x Hx [->|Hxs]%elem_of_cons; [done|]. by apply (Hall x Hx).
    + apply elem_of_cons in Hin as [Hin|Hin]; [by subst|done].
Qed.

Lemma index_table_from_file_repeated fast_hash lines oov :
  Forall (λ key, key ≠ EmptyString) lines → ¬ NoDup lines →
  index_table_from_file fast_hash lines oov = Raise FailedPreconditionError.
Proof.
  intros Hne Hdup. unfold index_table_from_file.
  rewrite read_lines_repeated; [done|done|]. by intros [? _].
Qed.

Lemma index_table_from_file_empty fast_hash lines oov :
  NoDup lines → EmptyString ∈ lines →
  index_table_from_file fast_hash lines oov = Raise InvalidArgumentError.
Proof.
  intros Hnd Hin. unfold index_table_from_file.
  rewrite read_lines_empty; [done|done| |done].
  apply Forall_forall. intros x _. apply not_elem_of_nil.
Qed.




(** X19: what stops the script before its first epoch.  A restore that
    fails is reported first, with ValueError, whatever the vocabulary
    files hold.  When the checkpoint to restore is there, the vocabulary
    files are read: when none of their lines is empty, a line that occurs
    twice in words.txt or in tags.txt makes the script fail with
    FailedPreconditionError; when no line occurs twice, an empty line in
    one of them makes it fail with InvalidArgumentError; whatever the data
    and the parameters are. *)
Theorem script_vocabulary_errors (fast_hash : string → N) (model : Model)
    (train_draws eval_draws : nat → nat) (files : DataFiles) (disk : Disk)
    (model_dir : string) (restore_dir : option string) (params : Params) :
  (¬ restorable disk restore_dir →
     main fast_hash model train_draws eval_draws files disk model_dir restore_dir params
       = Raise ValueError) ∧
  (restorable disk restore_dir ∧
   Forall (λ key, key ≠ EmptyString) (words_txt files ++ tags_txt files) ∧
   (¬ NoDup (words_txt files) ∨ ¬ NoDup (tags_txt files)) →
     main fast_hash model train_draws eval_draws files disk model_dir restore_dir params
       = Raise FailedPreconditionError) ∧
  (restorable disk restore_dir ∧
   NoDup (words_txt files) ∧ NoDup (tags_txt files) ∧
   EmptyString ∈ words_txt files ++ tags_txt files →
     main fast_hash model train_draws eval_draws files disk model_dir restore_dir params
       = Raise InvalidArgumentError).
Proof.
  assert (restorable disk restore_dir →
          match restore_dir with Some dir => saver_restore disk dir | None => Ok () end
          = Ok ()) as Hrestore by (by destruct restore_dir).
  split_and!.
  - intros Hnot. unfold main. destruct restore_dir as [dir|]; [|by destruct Hnot].
    unfold restorable in Hnot. unfold saver_restore in *.
    destruct (checkpoint_state disk !! dir) as [p|]; [|done].
    destruct (decide (p ∈ checkpoints disk)); [by destruct Hnot|done].
  - intros (Hrest & [Hwe Hte]%Forall_app & Hdup).
    unfold main, vocab_words, vocab_tags. rewrite (Hrestore Hrest). cbn [mbind result_bind].
    destruct (decide (NoDup (words_txt files))) as [Hw|Hw].
    + rewrite (index_table_from_file_succeeds _ (words_txt files)) by done.
      cbn [mbind result_bind].
      rewrite index_table_from_file_repeated; [reflexivity|done|]. by destruct Hdup.
    + rewrite (index_table_from_file_repeated _ (words_txt files)) by done. reflexivity.
  - intros (Hrest & Hw & Ht & Hin).
    unfold main, vocab_words, vocab_tags. rewrite (Hrestore Hrest). cbn [mbind result_bind].
    destruct (decide (EmptyString ∈ words_txt files)) as [He|He].
    + rewrite (index_table_from_file_empty _ (words_txt files)) by done. reflexivity.
    + rewrite (index_table_from_file_succeeds _ (words_txt files)); [|done|].
      * cbn [mbind result_bind]. rewrite index_table_from_file_empty; [reflexivity|done|].
        by apply elem_of_app in Hin as [?|?].
      * apply Forall_forall. by intros key Hkey ->.
Qed.
